(** * Miner: a shallow embedding of the turn-based Boulder Dash engine

    The development follows the TypeScript sources:
    - [game/entities/*.ts]      entity classes ([Entity], [Player], [Boulder], ...)
    - [game/core/GameGrid]      the grid store ([GameGrid])
    - [game/core/Level.ts]      level construction from a character layout
    - [engine/GameLogic.ts]     movement and two-pass physics ([GameLogic])
    - [engine/GameEngine]       the turn scheduler ([GameEngine])

    JavaScript objects are mutable and shared by reference: a grid cell holds a
    reference to an entity object, and the same object may be reached from a
    cell, from [Level.player] or from a local variable.  The embedding keeps
    this: entities live in a store indexed by references, grid cells hold
    references, and every method that mutates an entity updates the store.
    Numbers that the program uses as grid coordinates, counters and
    millisecond time stamps are integers ([Z]); the countdown timer, which is
    decremented by fractional seconds, is a rational ([Q]). *)

From Stdlib Require Import ZArith QArith Qminmax Bool List Ascii String Lia.
From stdpp Require Import base tactics option list list_numbers functions strings sorting.

Local Open Scope Z_scope.

(** ** Entities ([game/entities]) *)

Inductive EntityType := EMPTY | PLAYER | BOULDER | DIAMOND | DIRT | WALL | EXIT.

#[global] Instance EntityType_eq_dec : EqDecision EntityType.
Proof. solve_decision. Defined.

(** The fields each subclass adds to [Entity]. *)
Inductive ClassFields :=
| PlayerFields (alive : bool) (diamondsCollected : Z)
| BoulderFields (falling : bool) (canRoll : bool)
| DiamondFields (falling : bool) (points : Z)
| DirtFields (diggable : bool)
| WallFields (destructible : bool)
| ExitFields (isOpen : bool) (diamondsRequired : Z).

(** The base class [Entity]; [ent_x] and [ent_y] are the fields [x] and [y]. *)
Record Entity := mkEntity {
  ent_x : Z;
  ent_y : Z;
  type : EntityType;
  solid : bool;
  movable : bool;
  collectible : bool;
  fallable : bool;
  previousX : Z;
  previousY : Z;
  isAnimating : bool;
  fields : ClassFields
}.

(** [Entity.getPosition] *)
Definition getPosition (e : Entity) : Z * Z := (ent_x e, ent_y e).

(** [Entity.setPosition]: the previous position and the animation flag are
    only touched when the position really changes. *)
Definition setPosition (x y : Z) (e : Entity) : Entity :=
  let changing := negb (x =? ent_x e) || negb (y =? ent_y e) in
  {| ent_x := x;
     ent_y := y;
     type := type e;
     solid := solid e;
     movable := movable e;
     collectible := collectible e;
     fallable := fallable e;
     previousX := if changing then ent_x e else previousX e;
     previousY := if changing then ent_y e else previousY e;
     isAnimating := if changing then true else isAnimating e;
     fields := fields e |}.

(** [Entity.resetAnimation] *)
Definition resetAnimation (e : Entity) : Entity :=
  {| ent_x := ent_x e;
     ent_y := ent_y e;
     type := type e;
     solid := solid e;
     movable := movable e;
     collectible := collectible e;
     fallable := fallable e;
     previousX := ent_x e;
     previousY := ent_y e;
     isAnimating := false;
     fields := fields e |}.

Definition set_fields (f : ClassFields) (e : Entity) : Entity :=
  {| ent_x := ent_x e;
     ent_y := ent_y e;
     type := type e;
     solid := solid e;
     movable := movable e;
     collectible := collectible e;
     fallable := fallable e;
     previousX := previousX e;
     previousY := previousY e;
     isAnimating := isAnimating e;
     fields := f |}.

(** Constructors of the six classes. *)
Definition new_Entity (x y : Z) (t : EntityType) (f : ClassFields) : Entity :=
  {| ent_x := x; ent_y := y; type := t;
     solid := false; movable := false; collectible := false; fallable := false;
     previousX := x; previousY := y; isAnimating := false;
     fields := f |}.

Definition with_flags (s m c f : bool) (e : Entity) : Entity :=
  {| ent_x := ent_x e;
     ent_y := ent_y e;
     type := type e;
     solid := s;
     movable := m;
     collectible := c;
     fallable := f;
     previousX := previousX e;
     previousY := previousY e;
     isAnimating := isAnimating e;
     fields := fields e |}.

Definition new_Player (x y : Z) : Entity :=
  with_flags true true false false (new_Entity x y PLAYER (PlayerFields true 0)).

Definition new_Boulder (x y : Z) : Entity :=
  with_flags true true false true (new_Entity x y BOULDER (BoulderFields false true)).

Definition new_Diamond (x y : Z) (points : Z) : Entity :=
  with_flags false true true true (new_Entity x y DIAMOND (DiamondFields false points)).

Definition new_Dirt (x y : Z) : Entity :=
  with_flags true false false false (new_Entity x y DIRT (DirtFields true)).

Definition new_Wall (x y : Z) (destructible : bool) : Entity :=
  with_flags true false false false (new_Entity x y WALL (WallFields destructible)).

Definition new_Exit (x y : Z) (diamondsRequired : Z) : Entity :=
  with_flags false false false false
    (new_Entity x y EXIT (ExitFields (diamondsRequired =? 0) diamondsRequired)).

(** Field reads.  A property that the object's class does not declare reads as
    [undefined] in JavaScript: falsy where the program tests it, and making
    every numeric comparison false. *)
Definition alive (e : Entity) : bool :=
  match fields e with PlayerFields a _ => a | _ => false end.

Definition diamondsCollected (e : Entity) : option Z :=
  match fields e with PlayerFields _ n => Some n | _ => None end.

Definition falling (e : Entity) : bool :=
  match fields e with
  | BoulderFields f _ => f
  | DiamondFields f _ => f
  | _ => false
  end.

Definition points (e : Entity) : option Z :=
  match fields e with DiamondFields _ p => Some p | _ => None end.

Definition isOpen (e : Entity) : bool :=
  match fields e with ExitFields o _ => o | _ => false end.

Definition diamondsRequired (e : Entity) : option Z :=
  match fields e with ExitFields _ n => Some n | _ => None end.

(** [a < b] and [a >= b] on possibly undefined numbers. *)
Definition num_lt (a b : option Z) : bool :=
  match a, b with Some n, Some m => n <? m | _, _ => false end.

Definition num_ge (a b : option Z) : bool :=
  match a, b with Some n, Some m => m <=? n | _, _ => false end.

(** [v || 0] *)
Definition or_zero (a : option Z) : Z :=
  match a with Some n => n | None => 0 end.

(** [Player.collectDiamond]: [this.diamondsCollected++]. *)
Definition collectDiamond (e : Entity) : Entity :=
  match fields e with
  | PlayerFields a n => set_fields (PlayerFields a (n + 1)) e
  | _ => e
  end.

(** [(entity as Player).alive = false] *)
Definition set_alive (b : bool) (e : Entity) : Entity :=
  match fields e with
  | PlayerFields _ n => set_fields (PlayerFields b n) e
  | _ => e
  end.

(** [Boulder.startFalling], [Diamond.startFalling] and the two [stopFalling]. *)
Definition set_falling (b : bool) (e : Entity) : Entity :=
  match fields e with
  | BoulderFields _ r => set_fields (BoulderFields b r) e
  | DiamondFields _ p => set_fields (DiamondFields b p) e
  | _ => e
  end.

Definition startFalling : Entity → Entity := set_falling true.
Definition stopFalling : Entity → Entity := set_falling false.

(** [Dirt.dig] *)
Definition dig (e : Entity) : Entity :=
  {| ent_x := ent_x e;
     ent_y := ent_y e;
     type := EMPTY;
     solid := false;
     movable := movable e;
     collectible := collectible e;
     fallable := fallable e;
     previousX := previousX e;
     previousY := previousY e;
     isAnimating := isAnimating e;
     fields := match fields e with DirtFields _ => DirtFields false | f => f end |}.

(** [Exit.open] *)
Definition open (e : Entity) : Entity :=
  {| ent_x := ent_x e;
     ent_y := ent_y e;
     type := type e;
     solid := false;
     movable := movable e;
     collectible := collectible e;
     fallable := fallable e;
     previousX := previousX e;
     previousY := previousY e;
     isAnimating := isAnimating e;
     fields := match fields e with ExitFields _ n => ExitFields true n | f => f end |}.

(** [Exit.checkOpenCondition] *)
Definition checkOpenCondition (collected : option Z) (e : Entity) : Entity :=
  if num_ge collected (diamondsRequired e) && negb (isOpen e) then open e else e.

(** [Entity.getInterpolatedPosition]: the position drawn at animation
    progress [progress], between the previous and the current cell. *)
Definition getInterpolatedPosition (progress : Q) (e : Entity) : Q * Q :=
  if negb (isAnimating e) then (inject_Z (ent_x e), inject_Z (ent_y e))
  else
    let deltaX := ent_x e - previousX e in
    let deltaY := ent_y e - previousY e in
    ((inject_Z (previousX e) + inject_Z deltaX * progress)%Q,
     (inject_Z (previousY e) + inject_Z deltaY * progress)%Q).

(** ** The object store

    A [ref] is the identity of an entity object; [Heap] gives the current
    contents of every object.  Mutating an object through one reference is
    seen through every other reference to it. *)

Definition ref := nat.
Definition Heap := ref → Entity.

(** Apply a mutating method to the object behind a reference. *)
Definition mutate (m : Entity → Entity) (r : ref) (h : Heap) : Heap :=
  <[r := m (h r)]> h.

(** ** The grid store ([game/core/GameGrid]) *)

Record GameGrid := mkGameGrid {
  grid : list (list (option ref));
  width : Z;
  height : Z
}.

(** The program state the resolvers work on: the grid and the objects its
    cells refer to. *)
Record World := mkWorld {
  heap : Heap;
  gameGrid : GameGrid
}.

Definition initializeGrid (width height : Z) : list (list (option ref)) :=
  replicate (Z.to_nat height) (replicate (Z.to_nat width) None).

Definition new_GameGrid (width height : Z) : GameGrid :=
  {| grid := initializeGrid width height; width := width; height := height |}.

Definition getDimensions (g : GameGrid) : Z * Z := (width g, height g).

Definition isValidPosition (g : GameGrid) (x y : Z) : bool :=
  (0 <=? x) && (x <? width g) && (0 <=? y) && (y <? height g).

(** [this.grid[y][x]] *)
Definition cell (g : GameGrid) (x y : Z) : option ref :=
  match grid g !! Z.to_nat y with
  | Some row => match row !! Z.to_nat x with Some c => c | None => None end
  | None => None
  end.

(** [this.grid[y][x] = entity] *)
Definition write_cell (g : GameGrid) (x y : Z) (e : option ref) : GameGrid :=
  {| grid := alter (λ row, <[Z.to_nat x := e]> row) (Z.to_nat y) (grid g);
     width := width g;
     height := height g |}.

Definition getEntity (g : GameGrid) (x y : Z) : option ref :=
  if negb (isValidPosition g x y) then None else cell g x y.

Definition setEntity (w : World) (x y : Z) (entity : option ref) : bool * World :=
  if negb (isValidPosition (gameGrid w) x y) then (false, w)
  else
    let h := match entity with
             | Some r => mutate (setPosition x y) r (heap w)
             | None => heap w
             end in
    (true, {| heap := h; gameGrid := write_cell (gameGrid w) x y entity |}).

(** [targetEntity && targetEntity.solid] *)
Definition holds_solid (w : World) (x y : Z) : bool :=
  match getEntity (gameGrid w) x y with
  | Some t => solid (heap w t)
  | None => false
  end.

Definition moveEntity (w : World) (fromX fromY toX toY : Z) : bool * World :=
  if negb (isValidPosition (gameGrid w) fromX fromY)
     || negb (isValidPosition (gameGrid w) toX toY)
  then (false, w)
  else
    match getEntity (gameGrid w) fromX fromY with
    | None => (false, w)
    | Some entity =>
        if holds_solid w toX toY then (false, w)
        else
          let w1 := (setEntity w fromX fromY None).2 in
          let w2 := (setEntity w1 toX toY (Some entity)).2 in
          (true, {| heap := mutate (setPosition toX toY) entity (heap w2);
                    gameGrid := gameGrid w2 |})
    end.

Definition removeEntity (w : World) (x y : Z) : option ref * World :=
  if negb (isValidPosition (gameGrid w) x y) then (None, w)
  else (getEntity (gameGrid w) x y, (setEntity w x y None).2).

(** The order of [for y in 0..height-1, for x in 0..width-1]. *)
Definition rowMajor (g : GameGrid) : list (Z * Z) :=
  y ← seqZ 0 (height g); x ← seqZ 0 (width g); [(x, y)].

Definition has_type (h : Heap) (t : EntityType) (c : option ref) : option ref :=
  match c with
  | Some r => if decide (type (h r) = t) then Some r else None
  | None => None
  end.

(** [findEntityByType]: the first entity of the type in row-major order. *)
Definition findEntityByType (w : World) (t : EntityType) : option ref :=
  head (omap (λ p, has_type (heap w) t (cell (gameGrid w) p.1 p.2))
             (rowMajor (gameGrid w))).

(** [findAllEntitiesByType] *)
Definition findAllEntitiesByType (w : World) (t : EntityType) : list ref :=
  omap (λ p, has_type (heap w) t (cell (gameGrid w) p.1 p.2))
       (rowMajor (gameGrid w)).

(** [getAllEntities]: the contents of the occupied cells, in row-major
    order. *)
Definition getAllEntities (g : GameGrid) : list ref :=
  omap (λ p, cell g p.1 p.2) (rowMajor g).

(** [getNeighbors]: north, east, south, west. *)
Definition getNeighbors (g : GameGrid) (x y : Z) : list (option ref) :=
  (λ d : Z * Z, getEntity g (x + d.1) (y + d.2))
    <$> [(0, -1); (1, 0); (0, 1); (-1, 0)].

(** [isEmpty] *)
Definition isEmpty (w : World) (x y : Z) : bool :=
  match getEntity (gameGrid w) x y with
  | None => true
  | Some r => bool_decide (type (heap w r) = EMPTY)
  end.

(** [isSolid] *)
Definition isSolid (w : World) (x y : Z) : bool :=
  match getEntity (gameGrid w) x y with
  | None => false
  | Some r => solid (heap w r)
  end.

(** [clear]: a fresh array of the same dimensions. *)
Definition clear (g : GameGrid) : GameGrid :=
  {| grid := initializeGrid (width g) (height g);
     width := width g;
     height := height g |}.

(** ** Movement and physics ([engine/GameLogic.ts]) *)

Inductive Direction := UP | DOWN | LEFT | RIGHT.

#[global] Instance Direction_eq_dec : EqDecision Direction.
Proof. solve_decision. Defined.

(** Optional fields are [None] when the object literal leaves them out. *)
Record MovementResult := mkMovementResult {
  success : bool;
  diamondCollected : option bool;
  playerDied : option bool;
  levelComplete : option bool;
  scoreChange : option Z
}.

Record PhysicsResult := mkPhysicsResult {
  entityMoved : bool;
  physPlayerDied : bool
}.

(** The result [{ moved, playerKilled }] of the private physics helpers. *)
Record StepResult := mkStepResult {
  moved : bool;
  playerKilled : bool
}.

Definition result_of (ok : bool) : MovementResult :=
  {| success := ok; diamondCollected := None; playerDied := None;
     levelComplete := None; scoreChange := None |}.

Definition truthy (b : option bool) : bool :=
  match b with Some true => true | _ => false end.

Module GameLogic.

Definition getDirectionVector (d : Direction) : Z * Z :=
  match d with
  | UP => (0, -1)
  | DOWN => (0, 1)
  | LEFT => (-1, 0)
  | RIGHT => (1, 0)
  end.

Definition executePlayerMove (w : World) (player : ref) (newX newY : Z)
  : MovementResult * World :=
  let '(ok, w') :=
    moveEntity w (ent_x (heap w player)) (ent_y (heap w player)) newX newY in
  (result_of ok, w').

Definition handleDirtMovement (w : World) (player dirt : ref) (newX newY : Z)
  : MovementResult * World :=
  let w1 := {| heap := mutate dig dirt (heap w); gameGrid := gameGrid w |} in
  executePlayerMove w1 player newX newY.

Definition handleDiamondCollection (w : World) (player diamond : ref)
    (newX newY : Z) : MovementResult * World :=
  let w1 := {| heap := mutate collectDiamond player (heap w);
               gameGrid := gameGrid w |} in
  let w2 := (removeEntity w1 newX newY).2 in
  let '(moveResult, w3) := executePlayerMove w2 player newX newY in
  ({| success := success moveResult;
      diamondCollected := Some true;
      playerDied := playerDied moveResult;
      levelComplete := levelComplete moveResult;
      scoreChange := points (heap w3 diamond) |}, w3).

Definition handleBoulderPush (w : World) (player : ref) (newX newY : Z)
    (direction : Direction) : MovementResult * World :=
  if bool_decide (direction = UP) || bool_decide (direction = DOWN)
  then (result_of false, w)
  else
    let '(dx, dy) := getDirectionVector direction in
    let boulderNewX := newX + dx in
    let boulderNewY := newY + dy in
    if negb (isValidPosition (gameGrid w) boulderNewX boulderNewY)
    then (result_of false, w)
    else
      match getEntity (gameGrid w) boulderNewX boulderNewY with
      | Some _ => (result_of false, w)
      | None =>
          let '(boulderMoved, w1) :=
            moveEntity w newX newY boulderNewX boulderNewY in
          if negb boulderMoved then (result_of false, w1)
          else executePlayerMove w1 player newX newY
      end.

Definition handleExitMovement (w : World) (player exit : ref) (newX newY : Z)
  : MovementResult * World :=
  let required := or_zero (diamondsRequired (heap w exit)) in
  if num_lt (diamondsCollected (heap w player)) (Some required)
  then (result_of false, w)
  else if solid (heap w exit) then (result_of false, w)
  else
    ({| success := true; diamondCollected := None; playerDied := None;
        levelComplete := Some true; scoreChange := None |},
     {| heap := mutate (setPosition newX newY) player (heap w);
        gameGrid := gameGrid w |}).

Definition movePlayer (w : World) (direction : Direction)
  : MovementResult * World :=
  match findEntityByType w PLAYER with
  | None => (result_of false, w)
  | Some player =>
      if negb (alive (heap w player)) then (result_of false, w)
      else
        let '(dx, dy) := getDirectionVector direction in
        let newX := ent_x (heap w player) + dx in
        let newY := ent_y (heap w player) + dy in
        if negb (isValidPosition (gameGrid w) newX newY)
        then (result_of false, w)
        else
          match getEntity (gameGrid w) newX newY with
          | None => executePlayerMove w player newX newY
          | Some target =>
              match type (heap w target) with
              | DIRT => handleDirtMovement w player target newX newY
              | DIAMOND => handleDiamondCollection w player target newX newY
              | BOULDER => handleBoulderPush w player newX newY direction
              | WALL => (result_of false, w)
              | EXIT => handleExitMovement w player target newX newY
              | _ => (result_of false, w)
              end
          end
  end.

Definition checkLevelComplete (w : World) : bool :=
  match findEntityByType w PLAYER, findEntityByType w EXIT with
  | Some player, Some exit =>
      let playerAtExit :=
        (ent_x (heap w player) =? ent_x (heap w exit))
        && (ent_y (heap w player) =? ent_y (heap w exit)) in
      let hasEnoughDiamonds :=
        num_ge (diamondsCollected (heap w player))
               (diamondsRequired (heap w exit)) in
      playerAtExit && hasEnoughDiamonds && isOpen (heap w exit)
  | _, _ => false
  end.


(** [tryMoveBoulderDown] *)
Definition tryMoveBoulderDown (w : World) (boulder : ref) (x y : Z)
  : StepResult * World :=
  let belowY := y + 1 in
  if negb (isValidPosition (gameGrid w) x belowY)
  then (mkStepResult false false,
        {| heap := mutate stopFalling boulder (heap w); gameGrid := gameGrid w |})
  else
    match getEntity (gameGrid w) x belowY with
    | None =>
        let w1 := {| heap := mutate startFalling boulder (heap w);
                     gameGrid := gameGrid w |} in
        let '(ok, w2) := moveEntity w1 x y x belowY in
        (mkStepResult ok false, w2)
    | Some entityBelow =>
        if bool_decide (type (heap w entityBelow) = PLAYER)
           && falling (heap w boulder)
        then (mkStepResult false true,
              {| heap := mutate (set_alive false) entityBelow (heap w);
                 gameGrid := gameGrid w |})
        else (mkStepResult false false,
              {| heap := mutate stopFalling boulder (heap w);
                 gameGrid := gameGrid w |})
    end.

(** [tryMoveDiamondDown]: the same statements, on a [Diamond]. *)
Definition tryMoveDiamondDown (w : World) (diamond : ref) (x y : Z)
  : StepResult * World :=
  let belowY := y + 1 in
  if negb (isValidPosition (gameGrid w) x belowY)
  then (mkStepResult false false,
        {| heap := mutate stopFalling diamond (heap w); gameGrid := gameGrid w |})
  else
    match getEntity (gameGrid w) x belowY with
    | None =>
        let w1 := {| heap := mutate startFalling diamond (heap w);
                     gameGrid := gameGrid w |} in
        let '(ok, w2) := moveEntity w1 x y x belowY in
        (mkStepResult ok false, w2)
    | Some entityBelow =>
        if bool_decide (type (heap w entityBelow) = PLAYER)
           && falling (heap w diamond)
        then (mkStepResult false true,
              {| heap := mutate (set_alive false) entityBelow (heap w);
                 gameGrid := gameGrid w |})
        else (mkStepResult false false,
              {| heap := mutate stopFalling diamond (heap w);
                 gameGrid := gameGrid w |})
    end.

(** [tryRollDirection]; [direction] is [1] for right and [-1] for left. *)
Definition tryRollDirection (w : World) (entity : ref) (x y direction : Z)
  : StepResult * World :=
  let sideX := x + direction in
  let diagonalY := y + 1 in
  let diagonalX := x + direction in
  if negb (isValidPosition (gameGrid w) sideX y)
     || negb (isValidPosition (gameGrid w) diagonalX diagonalY)
  then (mkStepResult false false, w)
  else
    match getEntity (gameGrid w) sideX y with
    | Some _ => (mkStepResult false false, w)
    | None =>
        match getEntity (gameGrid w) diagonalX diagonalY with
        | Some _ => (mkStepResult false false, w)
        | None =>
            let '(ok, w1) := moveEntity w x y diagonalX diagonalY in
            let w2 :=
              if ok then
                if bool_decide (type (heap w1 entity) = BOULDER)
                then {| heap := mutate startFalling entity (heap w1);
                        gameGrid := gameGrid w1 |}
                else if bool_decide (type (heap w1 entity) = DIAMOND)
                then {| heap := mutate startFalling entity (heap w1);
                        gameGrid := gameGrid w1 |}
                else w1
              else w1 in
            (mkStepResult ok false, w2)
        end
    end.

(** [tryRolling] *)
Definition tryRolling (w : World) (entity : ref) (x y : Z)
  : StepResult * World :=
  let belowY := y + 1 in
  if negb (isValidPosition (gameGrid w) x belowY)
  then (mkStepResult false false, w)
  else
    match getEntity (gameGrid w) x belowY with
    | None => (mkStepResult false false, w)
    | Some entityBelow =>
        let isBottomRollable :=
          bool_decide (type (heap w entityBelow) = BOULDER)
          || bool_decide (type (heap w entityBelow) = DIAMOND) in
        let isBottomFalling := falling (heap w entityBelow) in
        if negb isBottomRollable || isBottomFalling
        then (mkStepResult false false, w)
        else
          let '(rollResult, w1) := tryRollDirection w entity x y 1 in
          if moved rollResult then (rollResult, w1)
          else tryRollDirection w1 entity x y (-1)
    end.

(** The state of the two loops of [updatePhysics]. *)
Record Loop := mkLoop {
  world : World;
  anyMoved : bool;
  anyDied : bool
}.

(** After a failed fall: [if (isValid(x, y+1) && getEntity(x, y+1))
    { if (entity.falling) entity.stopFalling(); }]. *)
Definition settle (w : World) (entity : ref) (x y : Z) : World :=
  let belowY := y + 1 in
  if isValidPosition (gameGrid w) x belowY
     && bool_decide (is_Some (getEntity (gameGrid w) x belowY))
  then
    if falling (heap w entity)
    then {| heap := mutate stopFalling entity (heap w); gameGrid := gameGrid w |}
    else w
  else w.

(** Body of the first pair of loops, at cell [(x, y)]. *)
Definition gravityStep (l : Loop) (p : Z * Z) : Loop :=
  let '(x, y) := p in
  let w := world l in
  match getEntity (gameGrid w) x y with
  | None => l
  | Some entity =>
      if bool_decide (type (heap w entity) = BOULDER) then
        let '(moveResult, w1) := tryMoveBoulderDown w entity x y in
        let w2 := if moved moveResult then w1 else settle w1 entity x y in
        {| world := w2;
           anyMoved := if moved moveResult then true else anyMoved l;
           anyDied := if playerKilled moveResult then true else anyDied l |}
      else if bool_decide (type (heap w entity) = DIAMOND) then
        let '(moveResult, w1) := tryMoveDiamondDown w entity x y in
        let w2 := if moved moveResult then w1 else settle w1 entity x y in
        {| world := w2;
           anyMoved := if moved moveResult then true else anyMoved l;
           anyDied := if playerKilled moveResult then true else anyDied l |}
      else l
  end.

(** Body of the second pair of loops, at cell [(x, y)]. *)
Definition rollingStep (l : Loop) (p : Z * Z) : Loop :=
  let '(x, y) := p in
  let w := world l in
  match getEntity (gameGrid w) x y with
  | None => l
  | Some entity =>
      if bool_decide (type (heap w entity) = BOULDER)
         || bool_decide (type (heap w entity) = DIAMOND)
      then
        let '(rollResult, w1) := tryRolling w entity x y in
        {| world := w1;
           anyMoved := if moved rollResult then true else anyMoved l;
           anyDied := if playerKilled rollResult then true else anyDied l |}
      else l
  end.

(** The order of [for (y = height - 2; y >= 0; y--) for (x = 0; x < width; x++)]:
    rows from [height - 2] up to row [0], each from left to right. *)
Definition scanOrder (g : GameGrid) : list (Z * Z) :=
  y ← reverse (seqZ 0 (height g - 1)); x ← seqZ 0 (width g); [(x, y)].

Definition gravityPass (l : Loop) : Loop :=
  foldl gravityStep l (scanOrder (gameGrid (world l))).

Definition rollingPass (l : Loop) : Loop :=
  foldl rollingStep l (scanOrder (gameGrid (world l))).

(** [GameLogic.updatePhysics] *)
Definition updatePhysics (w : World) : PhysicsResult * World :=
  let l := rollingPass (gravityPass (mkLoop w false false)) in
  (mkPhysicsResult (anyMoved l) (anyDied l), world l).

End GameLogic.

(** ** Levels ([game/core/Level.ts]) *)

Record LevelData := mkLevelData {
  ld_name : string;
  ld_diamondsRequired : Z;
  ld_timeLimit : Q;
  ld_layout : list string
}.

(** A [Level] owns its grid and, through it, the entities it created;
    [lv_player] is the cached reference to the player object. *)
Record Level := mkLevel {
  lv_world : World;
  lv_name : string;
  lv_diamondsRequired : Z;
  lv_timeLimit : Q;
  lv_player : option ref
}.

Module Level.

Definition createEntityFromChar (quota : Z) (c : ascii) (x y : Z)
  : option Entity :=
  if Ascii.eqb c "@" then Some (new_Player x y)
  else if Ascii.eqb c "#" then Some (new_Wall x y false)
  else if Ascii.eqb c "." then Some (new_Dirt x y)
  else if Ascii.eqb c "*" then Some (new_Diamond x y 10)
  else if Ascii.eqb c "O" then Some (new_Boulder x y)
  else if Ascii.eqb c "E" then Some (new_Exit x y quota)
  else None.

(** The state of [loadLayout]: the objects allocated so far, the next
    fresh reference, the grid and [this.player]. *)
Record Loading := mkLoading {
  in_world : World;
  in_next : ref;
  in_player : option ref
}.

(** An object that no cell refers to; the contents of unallocated
    references. *)
Definition no_object : Entity := new_Entity 0 0 EMPTY (DirtFields false).

Definition place (quota : Z) (y : Z) (s : Loading) (xc : Z * ascii) : Loading :=
  let '(x, c) := xc in
  match createEntityFromChar quota c x y with
  | None => s
  | Some e =>
      let r := in_next s in
      let w0 := {| heap := <[r := e]> (heap (in_world s));
                   gameGrid := gameGrid (in_world s) |} in
      let w1 := (setEntity w0 x y (Some r)).2 in
      {| in_world := w1;
         in_next := S r;
         in_player := if bool_decide (type (heap w1 r) = PLAYER)
                      then Some r else in_player s |}
  end.

Definition indexed {A} (l : list A) : list (Z * A) :=
  zip (seqZ 0 (Z.of_nat (length l))) l.

Definition loadRow (quota : Z) (s : Loading) (yr : Z * string) : Loading :=
  let '(y, row) := yr in
  foldl (place quota y) s (indexed (list_ascii_of_string row)).

Definition loadLayout (quota : Z) (s : Loading) (layout : list string)
  : Loading :=
  foldl (loadRow quota) s
        (filter (λ yr, yr.1 < height (gameGrid (in_world s))) (indexed layout)).

Definition row_length (s : string) : Z := Z.of_nat (String.length s).

(** [new Level(levelData)] *)
Definition new (levelData : LevelData) : Level :=
  let h := Z.of_nat (length (ld_layout levelData)) in
  let w :=
    match ld_layout levelData with
    | [] => 0
    | r :: rs => foldl Z.max (row_length r) (row_length <$> rs)
    end in
  let s0 := {| in_world := {| heap := λ _, no_object;
                              gameGrid := new_GameGrid w h |};
               in_next := O;
               in_player := None |} in
  let s := loadLayout (ld_diamondsRequired levelData) s0 (ld_layout levelData) in
  {| lv_world := in_world s;
     lv_name := ld_name levelData;
     lv_diamondsRequired := ld_diamondsRequired levelData;
     lv_timeLimit := ld_timeLimit levelData;
     lv_player := in_player s |}.

Definition getTimeLimit (l : Level) : Q := lv_timeLimit l.

(** [Level.isComplete]: the completion test of the earlier, real-time
    controller.  It reads the cached player and the level's own quota and
    does not look at the exit's [isOpen]. *)
Definition isComplete (l : Level) : bool :=
  match lv_player l with
  | None => false
  | Some player =>
      match findEntityByType (lv_world l) EXIT with
      | None => false
      | Some exit =>
          let h := heap (lv_world l) in
          let isAtExit := (ent_x (h player) =? ent_x (h exit))
                          && (ent_y (h player) =? ent_y (h exit)) in
          let hasEnoughDiamonds :=
            num_ge (diamondsCollected (h player)) (Some (lv_diamondsRequired l)) in
          isAtExit && hasEnoughDiamonds
      end
  end.

Definition getGrid (l : Level) : World := lv_world l.

Definition getPlayer (l : Level) : option ref := lv_player l.

Definition getName (l : Level) : string := lv_name l.

Definition getDiamondsRequired (l : Level) : Z := lv_diamondsRequired l.

(** [getDiamondsRemaining] *)
Definition getDiamondsRemaining (l : Level) : Z :=
  Z.of_nat (length (findAllEntitiesByType (lv_world l) DIAMOND)).

(** [Level.reset]: the grid is cleared and the cached player forgotten; the
    layout is not reloaded. *)
Definition reset (l : Level) : Level :=
  {| lv_world := {| heap := heap (lv_world l);
                    gameGrid := clear (gameGrid (lv_world l)) |};
     lv_name := lv_name l;
     lv_diamondsRequired := lv_diamondsRequired l;
     lv_timeLimit := lv_timeLimit l;
     lv_player := None |}.

End Level.

(** ** The turn scheduler ([engine/GameEngine]) *)

Record GameState := mkGameState {
  level : Level;
  levelData : LevelData;
  score : Z;
  lives : Z;
  timeRemaining : Q;
  isPlaying : bool;
  isPaused : bool;
  gameMessage : string;
  currentTurn : Z;
  lastTurnTime : Z;
  turnProgress : Q;
  currentlyPressedDirection : option Direction;
  lastPressedDirection : option Direction;
  lastPressTime : Z
}.

(** The payloads of the notification events. *)
Inductive EventData :=
| LevelLoadedData
| DiamondCollectedData (score totalDiamonds : Z)
| LevelCompleteData (score : Z) (timeRemaining : Q)
| PlayerDiedData (lives score : Z)
| GameOverData (reason : option string) (score : Z)
| LifeLostData (livesRemaining : Z)
| PauseToggledData (isPaused : bool)
| GameResetData.

Record GameEvent := mkGameEvent {
  ev_type : string;
  ev_data : EventData;
  ev_timestamp : Z
}.

(** The engine object.  Listeners are callbacks of the embedding page, so the
    engine records the events it emits, in order.  [Date.now()] is an input:
    [clock n] is the value of the [n]-th read and [reads] counts them. *)
Record Engine := mkEngine {
  state : GameState;
  emitted : list GameEvent;
  clock : nat → Z;
  reads : nat
}.

(** [GameInput]: every field is optional. *)
Record GameInput := mkGameInput {
  gi_direction : option Direction;
  gi_pause : option bool;
  gi_reset : option bool
}.

Module GameEngine.

Definition TURN_DURATION_MS : Z := 200.

Definition with_state (f : GameState → GameState) (e : Engine) : Engine :=
  {| state := f (state e); emitted := emitted e;
     clock := clock e; reads := reads e |}.

Definition set_level (v : Level) (s : GameState) : GameState :=
  mkGameState v (levelData s) (score s) (lives s) (timeRemaining s)
    (isPlaying s) (isPaused s) (gameMessage s) (currentTurn s)
    (lastTurnTime s) (turnProgress s) (currentlyPressedDirection s)
    (lastPressedDirection s) (lastPressTime s).

Definition set_score (v : Z) (s : GameState) : GameState :=
  mkGameState (level s) (levelData s) v (lives s) (timeRemaining s)
    (isPlaying s) (isPaused s) (gameMessage s) (currentTurn s)
    (lastTurnTime s) (turnProgress s) (currentlyPressedDirection s)
    (lastPressedDirection s) (lastPressTime s).

Definition set_lives (v : Z) (s : GameState) : GameState :=
  mkGameState (level s) (levelData s) (score s) v (timeRemaining s)
    (isPlaying s) (isPaused s) (gameMessage s) (currentTurn s)
    (lastTurnTime s) (turnProgress s) (currentlyPressedDirection s)
    (lastPressedDirection s) (lastPressTime s).

Definition set_timeRemaining (v : Q) (s : GameState) : GameState :=
  mkGameState (level s) (levelData s) (score s) (lives s) v
    (isPlaying s) (isPaused s) (gameMessage s) (currentTurn s)
    (lastTurnTime s) (turnProgress s) (currentlyPressedDirection s)
    (lastPressedDirection s) (lastPressTime s).

Definition set_isPlaying (v : bool) (s : GameState) : GameState :=
  mkGameState (level s) (levelData s) (score s) (lives s) (timeRemaining s)
    v (isPaused s) (gameMessage s) (currentTurn s)
    (lastTurnTime s) (turnProgress s) (currentlyPressedDirection s)
    (lastPressedDirection s) (lastPressTime s).

Definition set_isPaused (v : bool) (s : GameState) : GameState :=
  mkGameState (level s) (levelData s) (score s) (lives s) (timeRemaining s)
    (isPlaying s) v (gameMessage s) (currentTurn s)
    (lastTurnTime s) (turnProgress s) (currentlyPressedDirection s)
    (lastPressedDirection s) (lastPressTime s).

Definition set_currentTurn (v : Z) (s : GameState) : GameState :=
  mkGameState (level s) (levelData s) (score s) (lives s) (timeRemaining s)
    (isPlaying s) (isPaused s) (gameMessage s) v
    (lastTurnTime s) (turnProgress s) (currentlyPressedDirection s)
    (lastPressedDirection s) (lastPressTime s).

Definition set_lastTurnTime (v : Z) (s : GameState) : GameState :=
  mkGameState (level s) (levelData s) (score s) (lives s) (timeRemaining s)
    (isPlaying s) (isPaused s) (gameMessage s) (currentTurn s)
    v (turnProgress s) (currentlyPressedDirection s)
    (lastPressedDirection s) (lastPressTime s).

Definition set_turnProgress (v : Q) (s : GameState) : GameState :=
  mkGameState (level s) (levelData s) (score s) (lives s) (timeRemaining s)
    (isPlaying s) (isPaused s) (gameMessage s) (currentTurn s)
    (lastTurnTime s) v (currentlyPressedDirection s)
    (lastPressedDirection s) (lastPressTime s).

Definition set_currentlyPressedDirection (v : option Direction)
    (s : GameState) : GameState :=
  mkGameState (level s) (levelData s) (score s) (lives s) (timeRemaining s)
    (isPlaying s) (isPaused s) (gameMessage s) (currentTurn s)
    (lastTurnTime s) (turnProgress s) v
    (lastPressedDirection s) (lastPressTime s).

Definition set_lastPressedDirection (v : option Direction)
    (s : GameState) : GameState :=
  mkGameState (level s) (levelData s) (score s) (lives s) (timeRemaining s)
    (isPlaying s) (isPaused s) (gameMessage s) (currentTurn s)
    (lastTurnTime s) (turnProgress s) (currentlyPressedDirection s)
    v (lastPressTime s).

Definition set_lastPressTime (v : Z) (s : GameState) : GameState :=
  mkGameState (level s) (levelData s) (score s) (lives s) (timeRemaining s)
    (isPlaying s) (isPaused s) (gameMessage s) (currentTurn s)
    (lastTurnTime s) (turnProgress s) (currentlyPressedDirection s)
    (lastPressedDirection s) v.

(** The grid of the current level is mutated in place. *)
Definition set_world (w : World) (s : GameState) : GameState :=
  set_level {| lv_world := w;
               lv_name := lv_name (level s);
               lv_diamondsRequired := lv_diamondsRequired (level s);
               lv_timeLimit := lv_timeLimit (level s);
               lv_player := lv_player (level s) |} s.

Definition getGrid (e : Engine) : World := lv_world (level (state e)).

(** [Date.now()] *)
Definition Date_now (e : Engine) : Z * Engine :=
  (clock e (reads e),
   {| state := state e; emitted := emitted e;
      clock := clock e; reads := S (reads e) |}).

Definition emitEvent (ty : string) (data : EventData) (e : Engine) : Engine :=
  let '(now, e1) := Date_now e in
  {| state := state e1;
     emitted := emitted e1 ++ [mkGameEvent ty data now];
     clock := clock e1; reads := reads e1 |}.

(** [new GameEngine(initialLevel, levelData)] *)
Definition new (initialLevel : Level) (data : LevelData) (clk : nat → Z)
  : Engine :=
  {| state :=
       {| level := initialLevel; levelData := data; score := 0; lives := 3;
          timeRemaining := Level.getTimeLimit initialLevel;
          isPlaying := true; isPaused := false; gameMessage := EmptyString;
          currentTurn := 0; lastTurnTime := clk O; turnProgress := 0%Q;
          currentlyPressedDirection := None; lastPressedDirection := None;
          lastPressTime := 0 |};
     emitted := [];
     clock := clk;
     reads := 1%nat |}.

Definition handlePlayerDeath (e : Engine) : Engine :=
  let e1 := with_state (λ s, set_lives (lives s - 1) s) e in
  let e2 := emitEvent "PLAYER_DIED"
              (PlayerDiedData (lives (state e1)) (score (state e1))) e1 in
  if lives (state e2) <=? 0 then
    let e3 := with_state (set_isPlaying false) e2 in
    emitEvent "GAME_OVER" (GameOverData None (score (state e3))) e3
  else
    with_state (λ s, set_isPlaying true
                       (set_level (Level.new (levelData s)) s)) e2.

Definition handleTimeUp (e : Engine) : Engine :=
  let e1 := with_state (λ s, set_lives (lives s - 1) s) e in
  if 0 <? lives (state e1) then
    let e2 := with_state
                (λ s, set_timeRemaining (Level.getTimeLimit (level s)) s) e1 in
    emitEvent "LIFE_LOST" (LifeLostData (lives (state e2))) e2
  else
    let e2 := with_state (set_isPlaying false) e1 in
    emitEvent "GAME_OVER" (GameOverData (Some "TIME_UP") (score (state e2))) e2.

(** [result.scoreChange || 10] *)
Definition scoreChange_or_10 (c : option Z) : Z :=
  match c with
  | Some n => if n =? 0 then 10 else n
  | None => 10
  end.

(** [this.state.level.getPlayer()?.diamondsCollected || 0] *)
Definition totalDiamonds (s : GameState) : Z :=
  match lv_player (level s) with
  | Some p => or_zero (diamondsCollected (heap (lv_world (level s)) p))
  | None => 0
  end.

Definition processMovement (direction : Direction) (e : Engine) : Engine :=
  let '(result, w1) := GameLogic.movePlayer (getGrid e) direction in
  let e1 := with_state (set_world w1) e in
  if success result then
    let e2 :=
      if truthy (diamondCollected result) then
        let e21 := with_state
                     (λ s, set_score
                             (score s + scoreChange_or_10 (scoreChange result)) s)
                     e1 in
        let e22 := emitEvent "DIAMOND_COLLECTED"
                     (DiamondCollectedData (score (state e21))
                                           (totalDiamonds (state e21))) e21 in
        let w := getGrid e22 in
        match findEntityByType w PLAYER, findEntityByType w EXIT with
        | Some player, Some exit =>
            with_state
              (set_world
                 {| heap := mutate (checkOpenCondition
                                      (diamondsCollected (heap w player)))
                                   exit (heap w);
                    gameGrid := gameGrid w |}) e22
        | _, _ => e22
        end
      else e1 in
    let e3 :=
      if truthy (levelComplete result) then
        let e31 := with_state (set_isPlaying false) e2 in
        emitEvent "LEVEL_COMPLETE"
          (LevelCompleteData (score (state e31)) (timeRemaining (state e31))) e31
      else e2 in
    if truthy (playerDied result) then handlePlayerDeath e3 else e3
  else e1.

Definition updatePhysics (e : Engine) : Engine :=
  let '(result, w1) := GameLogic.updatePhysics (getGrid e) in
  let e1 := with_state (set_world w1) e in
  if physPlayerDied result then handlePlayerDeath e1 else e1.

Definition checkGameConditions (e : Engine) : Engine :=
  let e1 :=
    if GameLogic.checkLevelComplete (getGrid e) then
      let e11 := with_state (set_isPlaying false) e in
      emitEvent "LEVEL_COMPLETE"
        (LevelCompleteData (score (state e11)) (timeRemaining (state e11))) e11
    else e in
  if lives (state e1) <=? 0 then
    let e2 := with_state (set_isPlaying false) e1 in
    emitEvent "GAME_OVER" (GameOverData None (score (state e2))) e2
  else e1.

Definition determinePlayerAction (e : Engine) : option Direction * Engine :=
  match currentlyPressedDirection (state e) with
  | Some d => (Some d, e)
  | None =>
      let '(currentTime, e1) := Date_now e in
      match lastPressedDirection (state e1) with
      | Some d =>
          if currentTime - lastPressTime (state e1) <=? TURN_DURATION_MS
          then (Some d, e1) else (None, e1)
      | None => (None, e1)
      end
  end.

Definition resetAllEntityAnimations (e : Engine) : Engine :=
  let w := getGrid e in
  let h :=
    foldl (λ h p, match getEntity (gameGrid w) p.1 p.2 with
                  | Some r => mutate resetAnimation r h
                  | None => h
                  end)
          (heap w) (rowMajor (gameGrid w)) in
  with_state (set_world {| heap := h; gameGrid := gameGrid w |}) e.

Definition processTurn (e : Engine) : Engine :=
  let e1 := resetAllEntityAnimations e in
  let '(playerAction, e2) := determinePlayerAction e1 in
  let e3 := match playerAction with
            | Some d => processMovement d e2
            | None => e2
            end in
  let e4 := updatePhysics e3 in
  let e5 := checkGameConditions e4 in
  let '(currentTime, e6) := Date_now e5 in
  if TURN_DURATION_MS <? currentTime - lastPressTime (state e6)
  then with_state (set_lastPressedDirection None) e6
  else e6.

(** [Math.min(timeSinceLastTurn / TURN_DURATION_MS, 1.0)] *)
Definition progress (timeSinceLastTurn : Z) : Q :=
  Qmin (inject_Z timeSinceLastTurn / inject_Z TURN_DURATION_MS) 1.

(** The first half of [update]: the turn progress and, at a turn boundary,
    the turn itself. *)
Definition advanceTurn (e : Engine) : Engine :=
  let '(currentTime, e1) := Date_now e in
  let timeSinceLastTurn := currentTime - lastTurnTime (state e1) in
  let e2 := with_state (set_turnProgress (progress timeSinceLastTurn)) e1 in
  if TURN_DURATION_MS <=? timeSinceLastTurn then
    let e3 := processTurn e2 in
    with_state (λ s, set_turnProgress 0%Q
                       (set_currentTurn (currentTurn s + 1)
                          (set_lastTurnTime currentTime s))) e3
  else e2.

(** The second half of [update]: the countdown. *)
Definition countDown (deltaTime : Q) (e : Engine) : Engine :=
  let e1 := with_state
              (λ s, set_timeRemaining (timeRemaining s - deltaTime)%Q s) e in
  if Qle_bool (timeRemaining (state e1)) 0 then handleTimeUp e1 else e1.

(** [GameEngine.update] *)
Definition update (deltaTime : Q) (e : Engine) : Engine :=
  if negb (isPlaying (state e)) || isPaused (state e) then e
  else countDown deltaTime (advanceTurn e).

Definition togglePause (e : Engine) : Engine :=
  let e1 := with_state (λ s, set_isPaused (negb (isPaused s)) s) e in
  emitEvent "PAUSE_TOGGLED" (PauseToggledData (isPaused (state e1))) e1.

Definition setCurrentlyPressed (d : option Direction) (e : Engine) : Engine :=
  with_state (set_currentlyPressedDirection d) e.

Definition set_levelData (v : LevelData) (s : GameState) : GameState :=
  mkGameState (level s) v (score s) (lives s) (timeRemaining s)
    (isPlaying s) (isPaused s) (gameMessage s) (currentTurn s)
    (lastTurnTime s) (turnProgress s) (currentlyPressedDirection s)
    (lastPressedDirection s) (lastPressTime s).

Definition set_gameMessage (v : string) (s : GameState) : GameState :=
  mkGameState (level s) (levelData s) (score s) (lives s) (timeRemaining s)
    (isPlaying s) (isPaused s) v (currentTurn s)
    (lastTurnTime s) (turnProgress s) (currentlyPressedDirection s)
    (lastPressedDirection s) (lastPressTime s).

(** [resetGame]: the counters, flags and turn state; the level is not
    touched. *)
Definition resetGame (e : Engine) : Engine :=
  let e1 := with_state
              (λ s, set_currentTurn 0
                      (set_gameMessage EmptyString
                         (set_isPaused false
                            (set_isPlaying true
                               (set_timeRemaining (Level.getTimeLimit (level s))
                                  (set_lives 3 (set_score 0 s))))))) e in
  let '(now, e2) := Date_now e1 in
  let e3 := with_state
              (λ s, set_lastPressTime 0
                      (set_lastPressedDirection None
                         (set_currentlyPressedDirection None
                            (set_turnProgress 0%Q
                               (set_lastTurnTime now s))))) e2 in
  emitEvent "GAME_RESET" GameResetData e3.

(** [loadLevel]; the payload of LEVEL_LOADED is the level just stored in the
    state. *)
Definition loadLevel (lvl : Level) (data : LevelData) (e : Engine) : Engine :=
  let e1 := with_state
              (λ s, set_currentTurn 0
                      (set_isPlaying true
                         (set_gameMessage EmptyString
                            (set_timeRemaining (Level.getTimeLimit lvl)
                               (set_levelData data (set_level lvl s)))))) e in
  let '(now, e2) := Date_now e1 in
  let e3 := with_state
              (λ s, set_lastPressTime 0
                      (set_lastPressedDirection None
                         (set_currentlyPressedDirection None
                            (set_lastTurnTime now s)))) e2 in
  emitEvent "LEVEL_LOADED" LevelLoadedData e3.

(** [handleInput] *)
Definition handleInput (input : GameInput) (e : Engine) : Engine :=
  let e1 := if truthy (gi_pause input) then togglePause e else e in
  let e2 := if truthy (gi_reset input) then resetGame e1 else e1 in
  match gi_direction input with
  | Some d =>
      if isPlaying (state e2) && negb (isPaused (state e2)) then
        let e3 := with_state (set_lastPressedDirection (Some d)) e2 in
        let '(now, e4) := Date_now e3 in
        with_state (set_lastPressTime now) e4
      else e2
  | None => e2
  end.

(** [destroy]; the listeners it clears are those of the embedding page. *)
Definition destroy (e : Engine) : Engine := with_state (set_isPlaying false) e.

(** [GameEngine.getInterpolatedPosition] of an entity object. *)
Definition getInterpolatedPosition (e : Engine) (r : ref) : Q * Q :=
  getInterpolatedPosition (turnProgress (state e)) (heap (getGrid e) r).

End GameEngine.

(** ** The earlier real-time resolvers

    [GameController] drives an older pair of resolvers, [MovementSystem] and
    [PhysicsSystem], and [Level.isComplete].  [Game.tsx] builds a
    [GameEngine], which uses [GameLogic] only.  The functions below are the
    older counterparts of [GameLogic.handleBoulderPush] and
    [GameLogic.tryRolling], kept to record where they differ. *)

Module MovementSystem.

Definition movePlayerToPosition (w : World) (player : ref) (newX newY : Z)
  : bool * World :=
  moveEntity w (ent_x (heap w player)) (ent_y (heap w player)) newX newY.

(** [MovementSystem.handleBoulderPush]: no test of the direction. *)
Definition handleBoulderPush (w : World) (player : ref) (newX newY : Z)
    (direction : Direction) : bool * World :=
  let '(dx, dy) := GameLogic.getDirectionVector direction in
  let boulderNewX := newX + dx in
  let boulderNewY := newY + dy in
  if negb (isValidPosition (gameGrid w) boulderNewX boulderNewY)
  then (false, w)
  else
    match getEntity (gameGrid w) boulderNewX boulderNewY with
    | Some _ => (false, w)
    | None =>
        let '(boulderMoved, w1) :=
          moveEntity w newX newY boulderNewX boulderNewY in
        if negb boulderMoved then (false, w1)
        else movePlayerToPosition w1 player newX newY
    end.

End MovementSystem.

Module PhysicsSystem.

Definition canRollToPosition (w : World) (fromX fromY toX toY : Z) : bool :=
  match getEntity (gameGrid w) toX toY with
  | Some _ => false
  | None =>
      let belowTargetY := toY + 1 in
      if height (gameGrid w) <=? belowTargetY then false
      else
        match getEntity (gameGrid w) toX belowTargetY with
        | Some _ => false
        | None =>
            let belowCurrentY := fromY + 1 in
            if height (gameGrid w) <=? belowCurrentY then false
            else
              match getEntity (gameGrid w) fromX belowCurrentY with
              | None => false
              | Some b =>
                  bool_decide (type (heap w b) = BOULDER)
                  || bool_decide (type (heap w b) = DIAMOND)
              end
        end
  end.

(** The loop [for (const dir of directions)] with its [continue] and
    [return]. *)
Fixpoint tryDirections (w : World) (entity : ref) (x y : Z)
    (directions : list Z) : bool * World :=
  match directions with
  | [] => (false, w)
  | dir :: rest =>
      let newX := x + dir in
      if (newX <? 0) || (width (gameGrid w) <=? newX)
      then tryDirections w entity x y rest
      else if canRollToPosition w x y newX y
      then
        let w1 := (removeEntity w x y).2 in
        let w2 := {| heap := mutate (setPosition newX y) entity (heap w1);
                     gameGrid := gameGrid w1 |} in
        (true, (setEntity w2 newX y (Some entity)).2)
      else tryDirections w entity x y rest
  end.

(** [PhysicsSystem.tryRolling]: left first, and a sideways move within the
    row. *)
Definition tryRolling (w : World) (entity : ref) (x y : Z) : bool * World :=
  if negb (bool_decide (type (heap w entity) = BOULDER))
     && negb (bool_decide (type (heap w entity) = DIAMOND))
  then (false, w)
  else tryDirections w entity x y [-1; 1].

End PhysicsSystem.

(** ** Well-formed states *)

(** The array of rows has [height] rows of [width] cells, as
    [initializeGrid] builds it. *)
Definition grid_wf (g : GameGrid) : Prop :=
  length (grid g) = Z.to_nat (height g)
  ∧ Forall (λ row, length row = Z.to_nat (width g)) (grid g).

(** What the physics loops test: [type === BOULDER || type === DIAMOND]. *)
Definition is_rock (e : Entity) : Prop :=
  type e = BOULDER ∨ type e = DIAMOND.

#[global] Instance is_rock_dec (e : Entity) : Decision (is_rock e).
Proof. unfold is_rock. apply _. Defined.

(** The [type] tag agrees with the class of the object, as for every object
    the constructors build ([Dirt.dig] and [Wall.destroy] retag to EMPTY). *)
Definition class_ok (e : Entity) : Prop :=
  match type e, fields e with
  | PLAYER, PlayerFields _ _
  | BOULDER, BoulderFields _ _
  | DIAMOND, DiamondFields _ _
  | DIRT, DirtFields _
  | WALL, WallFields _
  | EXIT, ExitFields _ _
  | EMPTY, DirtFields _
  | EMPTY, WallFields _ => True
  | _, _ => False
  end.

(** Every boulder or diamond that a cell refers to stores that cell's
    coordinates. *)
Definition rocks_placed (w : World) : Prop :=
  ∀ x y r, getEntity (gameGrid w) x y = Some r → is_rock (heap w r) →
           ent_x (heap w r) = x ∧ ent_y (heap w r) = y.

(** The invariant of the physics passes. *)
Definition phys_inv (w : World) : Prop :=
  grid_wf (gameGrid w) ∧ rocks_placed w.

(** A decision procedure for [rocks_placed] on a concrete world. *)
Definition placed_check (w : World) : bool :=
  forallb (λ p, match getEntity (gameGrid w) p.1 p.2 with
                | Some r =>
                    if bool_decide (is_rock (heap w r))
                    then (ent_x (heap w r) =? p.1) && (ent_y (heap w r) =? p.2)
                    else true
                | None => true
                end)
          (rowMajor (gameGrid w)).

(** The coordinates an object stores. *)
Definition stored (w : World) (r : ref) : Z * Z :=
  (ent_x (heap w r), ent_y (heap w r)).

(** The cell the player would enter: the position stored in the player
    object plus the direction vector. *)
Definition target_of (w : World) (player : ref) (d : Direction) : Z * Z :=
  (ent_x (heap w player) + (GameLogic.getDirectionVector d).1,
   ent_y (heap w player) + (GameLogic.getDirectionVector d).2).

(** The player object is the one [findEntityByType] returns, and it sits in
    the cell whose coordinates it stores. *)
Definition player_at_home (w : World) (player : ref) : Prop :=
  findEntityByType w PLAYER = Some player
  ∧ getEntity (gameGrid w) (ent_x (heap w player)) (ent_y (heap w player))
    = Some player.

(** Both the side cell [(x + d, y)] and the diagonal cell [(x + d, y + 1)]
    are in bounds and empty. *)
Definition can_roll (g : GameGrid) (x y d : Z) : bool :=
  isValidPosition g (x + d) y
  && isValidPosition g (x + d) (y + 1)
  && bool_decide (getEntity g (x + d) y = None)
  && bool_decide (getEntity g (x + d) (y + 1) = None).

(** ** The shape of a step *)

(** A successful [moveEntity], spelled out. *)
Definition moved_world (w : World) (r : ref) (fromX fromY toX toY : Z) : World :=
  {| heap := mutate (setPosition toX toY) r
               (mutate (setPosition toX toY) r (heap w));
     gameGrid := write_cell (write_cell (gameGrid w) fromX fromY None)
                            toX toY (Some r) |}.

(** A successful roll of [r] from [(x, y)] in direction [d], spelled out. *)
Definition rolled_world (w : World) (r : ref) (x y d : Z) : World :=
  {| heap := mutate startFalling r
               (heap (moved_world w r x y (x + d) (y + 1)));
     gameGrid := gameGrid (moved_world w r x y (x + d) (y + 1)) |}.

(** A step that moves nothing: same cells, and every object keeps its type
    and coordinates. *)
Definition stays (w w' : World) : Prop :=
  gameGrid w' = gameGrid w
  ∧ ∀ r, type (heap w' r) = type (heap w r)
         ∧ ent_x (heap w' r) = ent_x (heap w r)
         ∧ ent_y (heap w' r) = ent_y (heap w r).

(** A step that moves the rock [r0] from cell [c] to the free cell [t] and
    nothing else. *)
Definition relocates (w w' : World) (r0 : ref) (c t : Z * Z) : Prop :=
  getEntity (gameGrid w) c.1 c.2 = Some r0
  ∧ is_rock (heap w r0)
  ∧ isValidPosition (gameGrid w) t.1 t.2 = true
  ∧ getEntity (gameGrid w) t.1 t.2 = None
  ∧ gameGrid w' = write_cell (write_cell (gameGrid w) c.1 c.2 None)
                             t.1 t.2 (Some r0)
  ∧ (∀ r, type (heap w' r) = type (heap w r))
  ∧ (∀ r, r ≠ r0 → ent_x (heap w' r) = ent_x (heap w r)
                   ∧ ent_y (heap w' r) = ent_y (heap w r))
  ∧ ent_x (heap w' r0) = t.1
  ∧ ent_y (heap w' r0) = t.2.

(** Later cells of a scan are never in a lower row than earlier ones. *)
Definition rows_ascend_upward (a b : Z * Z) : Prop := b.2 ≤ a.2.

(** Where the rock [r], which started a pass in cell [(x, y)], is while the
    cells of [todo] are still to be visited: still at home, or one row down
    (by an allowed sideways offset) with no cell of that row left to visit. *)
Definition tracked (sideways : Z → Prop) (r : ref) (x y : Z) (w : World)
    (todo : list (Z * Z)) : Prop :=
  phys_inv w
  ∧ is_rock (heap w r)
  ∧ (getEntity (gameGrid w) x y = Some r
     ∨ ∃ d, sideways d
            ∧ getEntity (gameGrid w) (x + d) (y + 1) = Some r
            ∧ Forall (λ c, c.2 ≤ y) todo).

(** The same for a rock over a free cell in the gravity pass: while its cell
    is still to be visited the cell below stays free. *)
Definition about_to_fall (r : ref) (x y : Z) (w : World)
    (todo : list (Z * Z)) : Prop :=
  phys_inv w
  ∧ is_rock (heap w r)
  ∧ isValidPosition (gameGrid w) x (y + 1) = true
  ∧ ((getEntity (gameGrid w) x y = Some r
      ∧ getEntity (gameGrid w) x (y + 1) = None
      ∧ (x, y) ∈ todo)
     ∨ (getEntity (gameGrid w) x (y + 1) = Some r
        ∧ Forall (λ c, c.2 ≤ y) todo)).

(** Two executions agree on the countdown and on the turn counter. *)
Definition same_counters (e e' : Engine) : Prop :=
  timeRemaining (state e') = timeRemaining (state e)
  ∧ currentTurn (state e') = currentTurn (state e).

(** [n] executed turns of physics only (no player action). *)
Definition physics_turns (n : nat) (w : World) : World :=
  Nat.iter n (λ w', (GameLogic.updatePhysics w').2) w.

(** ** Small levels, built by the level constructor *)

Definition level_of (quota : Z) (layout : list string) : Level :=
  Level.new (mkLevelData "demo" quota 60%Q layout).

(** The player next to a boulder with free space behind it. *)
Definition push_row : World := lv_world (level_of 1 ["@O "; "###"]).

(** Scenario A of the specification: a 1x3 shaft with a boulder on top. *)
Definition scenario_A : World := lv_world (level_of 1 ["O"; " "; " "]).

(** Scenario B of the specification: the player next to a diamond worth 10
    points, quota 10. *)
Definition scenario_B : World := lv_world (level_of 10 ["@*E"]).

(** A boulder directly above the player, with a free cell above the boulder. *)
Definition boulder_overhead : World := lv_world (level_of 1 [" "; "O"; "@"]).

(** The player next to an exit that needs no diamonds. *)
Definition at_the_door : World := lv_world (level_of 0 ["@E"]).

(** A boulder with its [falling] flag set, directly above the player. *)
Definition rock_over_player (isFalling : bool) : World :=
  let w := lv_world (level_of 1 ["O"; "@"; "#"]) in
  {| heap := mutate (set_falling isFalling) 0%nat (heap w);
     gameGrid := gameGrid w |}.

(** Scenario D with room on both sides: two stacked boulders in the middle
    column of a 3x3 grid, the lower one resting on a wall. *)
Definition stacked_boulders : World :=
  lv_world (level_of 1 [" O "; " O "; " # "]).

(** A boulder two rows above a resting boulder, with a free column to the
    right. *)
Definition drop_and_roll : World := lv_world (level_of 1 ["O "; "  "; "O "]).

(** An engine on a one-row level with a 60 second limit, polled every 200 ms. *)
Definition slow_poll : Engine :=
  GameEngine.new (level_of 1 ["@ "]) (mkLevelData "demo" 1 60%Q ["@ "])
                 (λ n, 200 * Z.of_nat n).

(** A level whose player holds one diamond although the exit was never asked
    to open, and the same level after the player stepped onto the exit. *)
Definition unopened_level : Level :=
  let l := level_of 1 ["@E"] in
  let w := {| heap := mutate collectDiamond 0%nat (heap (lv_world l));
              gameGrid := gameGrid (lv_world l) |} in
  {| lv_world := (GameLogic.movePlayer w RIGHT).2;
     lv_name := lv_name l;
     lv_diamondsRequired := lv_diamondsRequired l;
     lv_timeLimit := lv_timeLimit l;
     lv_player := lv_player l |}.

(** ** Three readings of the specification that the program does not follow *)

(** The reading of the gem counter that adds the diamond's point value. *)
Definition counter_adds_point_value : Prop :=
  ∀ (w : World) (dir : Direction) (player diamond : ref) (n pts : Z) (f : bool),
    grid_wf (gameGrid w) →
    player_at_home w player →
    fields (heap w player) = PlayerFields true n →
    getEntity (gameGrid w) (target_of w player dir).1 (target_of w player dir).2
      = Some diamond →
    type (heap w diamond) = DIAMOND →
    fields (heap w diamond) = DiamondFields f pts →
    diamondsCollected (heap (GameLogic.movePlayer w dir).2 player)
      = Some (n + pts).

(** The reading of the physics turn in which no rock moves more than one row
    per executed turn. *)
Definition one_row_per_turn : Prop :=
  ∀ (w : World) (r : ref) (x y : Z),
    phys_inv w →
    getEntity (gameGrid w) x y = Some r →
    is_rock (heap w r) →
    ent_y (heap (GameLogic.updatePhysics w).2 r) ≤ y + 1.

(** The reading of [update] in which a call whose countdown reaches zero
    executes no turn. *)
Definition time_up_skips_the_turn : Prop :=
  ∀ (deltaTime : Q) (e : Engine),
    isPlaying (state e) = true →
    isPaused (state e) = false →
    Qle_bool (timeRemaining (state e) - deltaTime) 0 = true →
    currentTurn (state (GameEngine.update deltaTime e)) = currentTurn (state e).

(** ** States of a running level *)

(** No other entity of type [PLAYER] sits in a cell. *)
Definition only_player (w : World) (player : ref) : Prop :=
  ∀ x y r, getEntity (gameGrid w) x y = Some r →
           type (heap w r) = PLAYER → r = player.

(** A cell holds the object. *)
Definition in_grid (w : World) (r : ref) : Prop :=
  ∃ x y, getEntity (gameGrid w) x y = Some r.

(** What physics may do to a layout: the dimensions and all types stay,
    every object that is not a boulder or diamond keeps its coordinates and
    its cell, and the cells hold the same objects as before. *)
Definition only_rocks_move (w w' : World) : Prop :=
  getDimensions (gameGrid w') = getDimensions (gameGrid w)
  ∧ (∀ r, type (heap w' r) = type (heap w r))
  ∧ (∀ r, ¬ is_rock (heap w r) → stored w' r = stored w r)
  ∧ (∀ x y r, getEntity (gameGrid w) x y = Some r → ¬ is_rock (heap w r) →
              getEntity (gameGrid w') x y = Some r)
  ∧ (∀ r, in_grid w r ↔ in_grid w' r).

(** The rock [r] in cell [(x, y)] lies on the object [s], which is no
    boulder or diamond, and on a player only with its [falling] flag
    unset; once no visit of its cell is left in [todo] the flag is unset. *)
Definition rests_on (r s : ref) (x y : Z) (w : World) (todo : list (Z * Z))
  : Prop :=
  phys_inv w
  ∧ getEntity (gameGrid w) x y = Some r
  ∧ is_rock (heap w r)
  ∧ getEntity (gameGrid w) x (y + 1) = Some s
  ∧ ¬ is_rock (heap w s)
  ∧ (type (heap w s) = PLAYER → falling (heap w r) = false)
  ∧ ((x, y) ∈ todo ∨ falling (heap w r) = false).

(** ** Loaded levels *)

(** The character of the layout at column [x] of row [y]. *)
Definition layout_char (layout : list string) (x y : Z) : option ascii :=
  if (0 <=? x) && (0 <=? y) then
    row ← layout !! Z.to_nat y; list_ascii_of_string row !! Z.to_nat x
  else None.

(** The object a cell refers to. *)
Definition entity_at (w : World) (x y : Z) : option Entity :=
  heap w <$> getEntity (gameGrid w) x y.

(** The invariant of [loadLayout]: the cells refer to allocated objects
    only, and [this.player] is a player of the grid, or null when the grid
    holds no player. *)
Definition load_inv (s : Level.Loading) : Prop :=
  grid_wf (gameGrid (Level.in_world s))
  ∧ (∀ x y r, getEntity (gameGrid (Level.in_world s)) x y = Some r →
              (r < Level.in_next s)%nat)
  ∧ (∀ r, class_ok (heap (Level.in_world s) r))
  ∧ match Level.in_player s with
    | Some p => type (heap (Level.in_world s) p) = PLAYER
                ∧ in_grid (Level.in_world s) p
    | None => ∀ x y r, getEntity (gameGrid (Level.in_world s)) x y = Some r →
                       type (heap (Level.in_world s) r) ≠ PLAYER
    end.

(** The states a level can reach from its layout by player moves and
    physics turns. *)
Inductive reachable (d : LevelData) : World → Prop :=
| reach_loaded : reachable d (lv_world (Level.new d))
| reach_move w dir :
    reachable d w → reachable d (GameLogic.movePlayer w dir).2
| reach_physics w :
    reachable d w → reachable d (GameLogic.updatePhysics w).2.

(** The layout invariant of the physics passes, and every object of the
    class its type tag names. *)
Definition well_formed (w : World) : Prop :=
  phys_inv w ∧ ∀ r, class_ok (heap w r).

(** A small level: the player next to a boulder and a diamond, dirt, a gap
    and the exit. *)
Definition small_level : LevelData :=
  {| ld_name := "small";
     ld_diamondsRequired := 1;
     ld_timeLimit := 60%Q;
     ld_layout := ["#####"; "#@O*#"; "#. E#"; "#####"]%string |}.

(** The player next to the one diamond the exit asks for. *)
Definition last_diamond : LevelData := mkLevelData "last diamond" 1 60%Q ["@*E"].

(** A boulder that has fallen one row and hangs over the player, in an
    engine with one life left. *)
Definition rock_above_player : World :=
  physics_turns 1 (lv_world (level_of 1 ["O"; " "; "@"])).

Definition last_life : Engine :=
  GameEngine.with_state
    (λ s, GameEngine.set_lives 1 (GameEngine.set_world rock_above_player s))
    (GameEngine.new (level_of 1 ["O"; " "; "@"])
                    (mkLevelData "demo" 1 60%Q ["O"; " "; "@"])
                    (λ n, 200 * Z.of_nat n)).

(** * Properties *)

(** ** The grid store *)

Lemma isValidPosition_spec g x y :
  isValidPosition g x y = true ↔ 0 ≤ x < width g ∧ 0 ≤ y < height g.
Proof.
  unfold isValidPosition. rewrite !andb_true_iff, !Z.leb_le, !Z.ltb_lt. lia.
Qed.

Lemma getEntity_Some_valid g x y r :
  getEntity g x y = Some r → isValidPosition g x y = true.
Proof. unfold getEntity. by destruct (isValidPosition g x y). Qed.

Lemma getEntity_invalid g x y :
  isValidPosition g x y = false → getEntity g x y = None.
Proof. unfold getEntity. by intros ->. Qed.

Lemma write_cell_wf g x y e : grid_wf g → grid_wf (write_cell g x y e).
Proof.
  intros [Hh Hw]. split; simpl.
  - by rewrite length_alter.
  - rewrite Forall_lookup in Hw. apply Forall_lookup. intros i row Hi.
    destruct (decide (i = Z.to_nat y)) as [->|Hne].
    + rewrite list_lookup_alter_eq in Hi.
      destruct (grid g !! Z.to_nat y) as [row0|] eqn:E; simplify_eq/=.
      rewrite length_insert. eauto.
    + rewrite list_lookup_alter_ne in Hi by done. eauto.
Qed.

Lemma cell_write_cell_eq g x y e :
  grid_wf g → isValidPosition g x y = true → cell (write_cell g x y e) x y = e.
Proof.
  intros [Hh Hw] Hv. apply isValidPosition_spec in Hv.
  unfold cell, write_cell; simpl. rewrite list_lookup_alter_eq.
  destruct (lookup_lt_is_Some_2 (grid g) (Z.to_nat y)) as [row Hrow]; [lia|].
  rewrite Hrow; simpl.
  rewrite Forall_lookup in Hw. specialize (Hw _ _ Hrow).
  rewrite list_lookup_insert_eq by lia. done.
Qed.

Lemma cell_write_cell_ne g x y e x' y' :
  0 ≤ x → 0 ≤ y → 0 ≤ x' → 0 ≤ y' → (x', y') ≠ (x, y) →
  cell (write_cell g x y e) x' y' = cell g x' y'.
Proof.
  intros ???? Hne. unfold cell, write_cell; simpl.
  destruct (decide (Z.to_nat y' = Z.to_nat y)) as [Hy|Hy].
  - rewrite Hy, list_lookup_alter_eq.
    destruct (grid g !! Z.to_nat y) as [row|]; simpl; [|done].
    rewrite list_lookup_insert_ne; [done|].
    intros Hx. apply Hne. f_equal; lia.
  - by rewrite list_lookup_alter_ne.
Qed.

(** Reading after a write: the written cell holds the new contents and every
    other cell is as before. *)
Lemma getEntity_write_cell g x y e x' y' :
  grid_wf g → isValidPosition g x y = true →
  getEntity (write_cell g x y e) x' y'
  = if decide ((x', y') = (x, y)) then e else getEntity g x' y'.
Proof.
  intros Hwf Hv. unfold getEntity.
  change (isValidPosition (write_cell g x y e) x' y')
    with (isValidPosition g x' y').
  case_decide as Heq.
  - simplify_eq. rewrite Hv; simpl. by apply cell_write_cell_eq.
  - destruct (isValidPosition g x' y') eqn:Hv'; simpl; [|done].
    apply isValidPosition_spec in Hv, Hv'. apply cell_write_cell_ne; lia || done.
Qed.

(** [setPosition] twice to the same cell is [setPosition] once. *)
Lemma setPosition_idem x y e :
  setPosition x y (setPosition x y e) = setPosition x y e.
Proof. unfold setPosition; simpl. by rewrite !Z.eqb_refl. Qed.

Lemma mutate_same m r h : mutate m r h r = m (h r).
Proof. apply fn_lookup_insert. Qed.

Lemma mutate_other m r h r' : r' ≠ r → mutate m r h r' = h r'.
Proof. intros. by apply fn_lookup_insert_ne. Qed.

Lemma moveEntity_ok w fromX fromY toX toY r :
  isValidPosition (gameGrid w) toX toY = true →
  getEntity (gameGrid w) fromX fromY = Some r →
  holds_solid w toX toY = false →
  moveEntity w fromX fromY toX toY = (true, moved_world w r fromX fromY toX toY).
Proof.
  intros Hto Hfrom Hsolid. unfold moveEntity.
  rewrite (getEntity_Some_valid _ _ _ _ Hfrom), Hto, Hfrom, Hsolid; simpl.
  unfold setEntity; simpl.
  rewrite (getEntity_Some_valid _ _ _ _ Hfrom); simpl.
  change (isValidPosition (write_cell _ _ _ _) toX toY)
    with (isValidPosition (gameGrid w) toX toY).
  by rewrite Hto.
Qed.

Lemma moved_world_heap_same w r fx fy tx ty :
  heap (moved_world w r fx fy tx ty) r = setPosition tx ty (heap w r).
Proof. unfold moved_world; simpl. by rewrite !mutate_same, setPosition_idem. Qed.

Lemma moved_world_heap_other w r fx fy tx ty r' :
  r' ≠ r → heap (moved_world w r fx fy tx ty) r' = heap w r'.
Proof. intros. unfold moved_world; simpl. by rewrite !mutate_other. Qed.

Lemma moved_world_getEntity w r fx fy tx ty x y :
  grid_wf (gameGrid w) →
  isValidPosition (gameGrid w) fx fy = true →
  isValidPosition (gameGrid w) tx ty = true →
  getEntity (gameGrid (moved_world w r fx fy tx ty)) x y
  = if decide ((x, y) = (tx, ty)) then Some r
    else if decide ((x, y) = (fx, fy)) then None
    else getEntity (gameGrid w) x y.
Proof.
  intros Hwf Hf Ht. unfold moved_world; simpl.
  rewrite getEntity_write_cell; [|by apply write_cell_wf|done].
  case_decide; [done|]. by rewrite getEntity_write_cell.
Qed.

(** From here on [moved_world] is only used through the three lemmas above. *)
#[global] Opaque moved_world.

(** C8.  Every coordinate operation of the grid store fails closed on an
    out-of-bounds coordinate: [getEntity] and [removeEntity] return null,
    [setEntity] and [moveEntity] return false, and the state is unchanged (the
    operations are total functions, so nothing is raised).  A move of an
    entity to an in-bounds cell fails, without change, when the destination
    holds a solid entity; otherwise it succeeds, and the resulting grid is the
    old one with the source cell cleared and the entity written to the
    destination cell, the entity's stored coordinates are the destination, and
    no other cell or entity changes. *)
Theorem grid_store_fails_closed_and_moves (w : World) :
  grid_wf (gameGrid w) →
  (∀ x y, isValidPosition (gameGrid w) x y = false →
     getEntity (gameGrid w) x y = None
     ∧ (∀ e, setEntity w x y e = (false, w))
     ∧ removeEntity w x y = (None, w)
     ∧ (∀ x' y', moveEntity w x y x' y' = (false, w)
                 ∧ moveEntity w x' y' x y = (false, w)))
  ∧ (∀ fromX fromY toX toY r,
       isValidPosition (gameGrid w) toX toY = true →
       getEntity (gameGrid w) fromX fromY = Some r →
       (holds_solid w toX toY = true →
          moveEntity w fromX fromY toX toY = (false, w))
       ∧ (holds_solid w toX toY = false →
          ∃ w', moveEntity w fromX fromY toX toY = (true, w')
            ∧ gameGrid w' = write_cell (write_cell (gameGrid w) fromX fromY None)
                                       toX toY (Some r)
            ∧ getEntity (gameGrid w') toX toY = Some r
            ∧ ((fromX, fromY) ≠ (toX, toY) →
               getEntity (gameGrid w') fromX fromY = None)
            ∧ (∀ x y, (x, y) ≠ (toX, toY) → (x, y) ≠ (fromX, fromY) →
                 getEntity (gameGrid w') x y = getEntity (gameGrid w) x y)
            ∧ ent_x (heap w' r) = toX ∧ ent_y (heap w' r) = toY
            ∧ (∀ r', r' ≠ r → heap w' r' = heap w r'))).
Proof.
  intros Hwf. split.
  - intros x y Hv. repeat split.
    + by apply getEntity_invalid.
    + intros e. unfold setEntity. by rewrite Hv.
    + unfold removeEntity. by rewrite Hv.
    + unfold moveEntity. by rewrite Hv.
    + unfold moveEntity. rewrite Hv. by rewrite orb_true_r.
  - intros fx fy tx ty r Hto Hfrom.
    pose proof (getEntity_Some_valid _ _ _ _ Hfrom) as Hvf. split.
    + intros Hs. unfold moveEntity. by rewrite Hvf, Hto, Hfrom, Hs.
    + intros Hs. exists (moved_world w r fx fy tx ty).
      split; [by apply moveEntity_ok|]. split; [done|].
      split; [|split; [|split]].
      * rewrite moved_world_getEntity by done. by rewrite decide_True.
      * intros Hne. rewrite moved_world_getEntity by done.
        rewrite decide_False by done. by rewrite decide_True.
      * intros x y H1 H2. rewrite moved_world_getEntity by done.
        by rewrite !decide_False.
      * rewrite moved_world_heap_same. repeat split; [done..|].
        intros r' Hr'. by apply moved_world_heap_other.
Qed.

Lemma level_wf_check (g : GameGrid) :
  bool_decide (length (grid g) = Z.to_nat (height g))
  && forallb (λ row, bool_decide (length row = Z.to_nat (width g))) (grid g) = true →
  grid_wf g.
Proof.
  intros [H1 H2]%andb_true_iff. split.
  - by apply bool_decide_eq_true in H1.
  - apply Forall_forall. intros row Hrow.
    rewrite forallb_forall in H2. apply list_elem_of_In in Hrow.
    specialize (H2 _ Hrow). by apply bool_decide_eq_true in H2.
Qed.

Lemma grid_store_witness :
  getEntity (gameGrid push_row) 3 0 = None
  ∧ moveEntity push_row 1 0 0 0 = (false, push_row)
  ∧ ∃ w', moveEntity push_row 1 0 2 0 = (true, w')
          ∧ getEntity (gameGrid w') 2 0 = Some 1%nat
          ∧ getEntity (gameGrid w') 1 0 = None
          ∧ ent_x (heap w' 1%nat) = 2.
Proof.
  assert (Hwf : grid_wf (gameGrid push_row)) by (by apply level_wf_check).
  destruct (grid_store_fails_closed_and_moves push_row Hwf) as [Hoob Hmove].
  split; [by apply (Hoob 3 0)|]. split.
  - by apply (Hmove 1 0 0 0 1%nat).
  - destruct (Hmove 1 0 2 0 1%nat) as [_ Hok]; [done..|].
    destruct Hok as (w' & Hm & _ & Hto & Hfrom & _ & Hx & _); [done|].
    exists w'. repeat split; [done..| |done]. by apply Hfrom.
Defined.

(** ** Movement *)

Lemma findEntityByType_Some w t r :
  findEntityByType w t = Some r →
  type (heap w r) = t ∧ ∃ x y, cell (gameGrid w) x y = Some r.
Proof.
  unfold findEntityByType. intros Hh.
  apply head_Some_elem_of in Hh. apply list_elem_of_omap in Hh.
  destruct Hh as ([x y] & _ & Hc). simpl in Hc. unfold has_type in Hc.
  destruct (cell (gameGrid w) x y) as [r'|] eqn:E; [|done].
  case_decide; simplify_eq. eauto.
Qed.

Lemma direction_vector_nonzero d x y :
  (x + (GameLogic.getDirectionVector d).1, y + (GameLogic.getDirectionVector d).2)
  ≠ (x, y).
Proof. destruct d; simpl; intros [=]; lia. Qed.

(** Entering a free or walkable cell: [executePlayerMove] succeeds when the
    player sits in its stored cell and the target holds nothing solid. *)
Lemma executePlayerMove_ok w player newX newY :
  isValidPosition (gameGrid w) newX newY = true →
  getEntity (gameGrid w) (ent_x (heap w player)) (ent_y (heap w player))
    = Some player →
  holds_solid w newX newY = false →
  GameLogic.executePlayerMove w player newX newY
  = (result_of true,
     moved_world w player (ent_x (heap w player)) (ent_y (heap w player))
                 newX newY).
Proof.
  intros Hv Hp Hs. unfold GameLogic.executePlayerMove.
  by rewrite (moveEntity_ok _ _ _ _ _ player).
Qed.

(** C1 (amended).  Moving the player onto a diamond increments the player's
    gem counter by exactly one, whatever the diamond's point value (the point
    value is what the move reports as its score change); the diamond's cell
    then refers to the player, the player's old cell is empty, the player
    stores the diamond's coordinates, and the result is a success with
    [diamondCollected = true]. *)
Theorem collecting_a_diamond_counts_one
    (w : World) (dir : Direction) (player diamond : ref) (n : Z) :
  grid_wf (gameGrid w) →
  player_at_home w player →
  fields (heap w player) = PlayerFields true n →
  getEntity (gameGrid w) (target_of w player dir).1 (target_of w player dir).2
    = Some diamond →
  type (heap w diamond) = DIAMOND →
  ∃ w',
    GameLogic.movePlayer w dir
    = ({| success := true; diamondCollected := Some true; playerDied := None;
          levelComplete := None; scoreChange := points (heap w diamond) |}, w')
    ∧ diamondsCollected (heap w' player) = Some (n + 1)
    ∧ (ent_x (heap w' player), ent_y (heap w' player)) = target_of w player dir
    ∧ getEntity (gameGrid w') (target_of w player dir).1 (target_of w player dir).2
      = Some player
    ∧ getEntity (gameGrid w') (ent_x (heap w player)) (ent_y (heap w player))
      = None
    ∧ (∀ x y, (x, y) ≠ target_of w player dir →
              (x, y) ≠ (ent_x (heap w player), ent_y (heap w player)) →
              getEntity (gameGrid w') x y = getEntity (gameGrid w) x y)
    ∧ heap w' diamond = heap w diamond.
Proof.
  intros Hwf [Hfind Hhome] Hfields Htarget Htype.
  destruct (findEntityByType_Some _ _ _ Hfind) as [Hptype _].
  assert (Hne : diamond ≠ player) by (intros ->; congruence).
  pose proof (getEntity_Some_valid _ _ _ _ Htarget) as Hvt.
  pose proof (getEntity_Some_valid _ _ _ _ Hhome) as Hvp.
  pose proof (direction_vector_nonzero dir (ent_x (heap w player))
                (ent_y (heap w player))) as Hnz.
  unfold target_of in *; simpl in *.
  destruct (GameLogic.getDirectionVector dir) as [dx dy] eqn:Hvec; simpl in *.
  set (px := ent_x (heap w player)) in *.
  set (py := ent_y (heap w player)) in *.
  set (w2 := {| heap := mutate collectDiamond player (heap w);
                gameGrid := write_cell (gameGrid w) (px + dx) (py + dy) None |}).
  assert (Hpos2 : ent_x (heap w2 player) = px ∧ ent_y (heap w2 player) = py).
  { simpl. rewrite mutate_same. unfold collectDiamond. rewrite Hfields. done. }
  destruct Hpos2 as [Hx2 Hy2].
  assert (Hmove : GameLogic.executePlayerMove w2 player (px + dx) (py + dy)
                  = (result_of true,
                     moved_world w2 player px py (px + dx) (py + dy))).
  { rewrite executePlayerMove_ok; rewrite ?Hx2, ?Hy2; try done.
    - simpl. rewrite getEntity_write_cell by done. by rewrite decide_False.
    - unfold holds_solid; simpl. rewrite getEntity_write_cell by done.
      by rewrite decide_True. }
  exists (moved_world w2 player px py (px + dx) (py + dy)).
  split; [|split; [|split; [|split; [|split; [|split]]]]].
  - unfold GameLogic.movePlayer. rewrite Hfind.
    unfold alive. rewrite Hfields; simpl. rewrite Hvec. fold px py.
    rewrite Hvt; simpl. rewrite Htarget, Htype.
    unfold GameLogic.handleDiamondCollection, removeEntity, setEntity; simpl.
    rewrite Hvt; simpl. fold w2. rewrite Hmove; simpl.
    rewrite moved_world_heap_other by done. simpl. by rewrite mutate_other.
  - rewrite moved_world_heap_same. simpl. rewrite mutate_same.
    unfold collectDiamond, diamondsCollected. by rewrite Hfields.
  - by rewrite moved_world_heap_same.
  - rewrite moved_world_getEntity by (by try apply write_cell_wf).
    by rewrite decide_True.
  - rewrite moved_world_getEntity by (by try apply write_cell_wf).
    rewrite decide_False by (intros [=]; apply Hnz; f_equal; lia).
    by rewrite decide_True.
  - intros x y H1 H2.
    rewrite moved_world_getEntity by (by try apply write_cell_wf).
    rewrite !decide_False by done. simpl.
    rewrite getEntity_write_cell by done. by rewrite decide_False.
  - rewrite moved_world_heap_other by done. simpl. by rewrite mutate_other.
Qed.

Lemma scenario_B_wf : grid_wf (gameGrid scenario_B).
Proof. by apply level_wf_check. Qed.

Lemma collecting_a_diamond_witness :
  ∃ w', (GameLogic.movePlayer scenario_B RIGHT).2 = w'
        ∧ success (GameLogic.movePlayer scenario_B RIGHT).1 = true
        ∧ diamondsCollected (heap w' 0%nat) = Some 1
        ∧ getEntity (gameGrid w') 1 0 = Some 0%nat.
Proof.
  destruct (collecting_a_diamond_counts_one scenario_B RIGHT 0%nat 1%nat 0)
    as (w' & Hm & Hn & _ & Hcell & _);
    [apply scenario_B_wf | by split | done | done | done |].
  exists w'. rewrite Hm. by repeat split.
Defined.

(** C1 as stated fails: in scenario B the diamond is worth 10 points and the
    counter goes from 0 to 1, not to 10. *)
Lemma counter_adds_point_value_fails : ¬ counter_adds_point_value.
Proof.
  intros H.
  specialize (H scenario_B RIGHT 0%nat 1%nat 0 10 false scenario_B_wf).
  assert (Hc : diamondsCollected
                 (heap (GameLogic.movePlayer scenario_B RIGHT).2 0%nat)
               = Some 1) by reflexivity.
  rewrite H in Hc; [discriminate | by split | done..].
Qed.

(** C3.  A move in a vertical direction whose target cell holds a boulder
    always fails and leaves the state as it was, whatever lies beyond the
    boulder; so a move onto a boulder that succeeds is horizontal. *)
Theorem vertical_boulder_push_fails
    (w : World) (dir : Direction) (player boulder : ref) :
  findEntityByType w PLAYER = Some player →
  getEntity (gameGrid w) (target_of w player dir).1 (target_of w player dir).2
    = Some boulder →
  type (heap w boulder) = BOULDER →
  (dir = UP ∨ dir = DOWN → GameLogic.movePlayer w dir = (result_of false, w))
  ∧ (success (GameLogic.movePlayer w dir).1 = true → dir = LEFT ∨ dir = RIGHT).
Proof.
  intros Hfind Htarget Htype.
  pose proof (getEntity_Some_valid _ _ _ _ Htarget) as Hvt.
  assert (Hvert : dir = UP ∨ dir = DOWN →
                  GameLogic.movePlayer w dir = (result_of false, w)).
  { intros Hdir. unfold GameLogic.movePlayer. rewrite Hfind.
    destruct (alive (heap w player)); simpl; [|done].
    unfold target_of in *.
    destruct (GameLogic.getDirectionVector dir) as [dx dy]; simpl in *.
    rewrite Hvt; simpl. rewrite Htarget, Htype.
    unfold GameLogic.handleBoulderPush.
    by destruct Hdir as [-> | ->]. }
  split; [done|].
  intros Hok. destruct dir; auto; rewrite Hvert in Hok by auto; done.
Qed.

Lemma vertical_boulder_push_witness :
  GameLogic.movePlayer boulder_overhead UP = (result_of false, boulder_overhead)
  ∧ getEntity (gameGrid boulder_overhead) 0 0 = None
  ∧ success (GameLogic.movePlayer push_row RIGHT).1 = true.
Proof.
  split; [|by split].
  by apply (vertical_boulder_push_fails boulder_overhead UP 1%nat 0%nat);
    [..|left].
Defined.

(** C7.  [checkLevelComplete] answers true exactly when a player and an exit
    are found, they store the same coordinates, the player's diamond count is
    at least the quota the exit carries, and the exit's [isOpen] flag is set;
    if any of the three conditions fails the answer is false. *)
Theorem level_complete_iff (w : World) :
  GameLogic.checkLevelComplete w = true
  ↔ ∃ player exit n q,
      findEntityByType w PLAYER = Some player
      ∧ findEntityByType w EXIT = Some exit
      ∧ (ent_x (heap w player), ent_y (heap w player))
        = (ent_x (heap w exit), ent_y (heap w exit))
      ∧ diamondsCollected (heap w player) = Some n
      ∧ diamondsRequired (heap w exit) = Some q
      ∧ q ≤ n
      ∧ isOpen (heap w exit) = true.
Proof.
  unfold GameLogic.checkLevelComplete. split.
  - destruct (findEntityByType w PLAYER) as [player|]; [|done].
    destruct (findEntityByType w EXIT) as [exit|]; [|done].
    rewrite !andb_true_iff, !Z.eqb_eq. intros [[[Hx Hy] Hge] Hopen].
    unfold num_ge in Hge.
    destruct (diamondsCollected (heap w player)) as [n|] eqn:Hn; [|done].
    destruct (diamondsRequired (heap w exit)) as [q|] eqn:Hq; [|done].
    apply Z.leb_le in Hge. exists player, exit, n, q.
    repeat split; try done. by rewrite Hx, Hy.
  - intros (player & exit & n & q & -> & -> & [= Hx Hy] & Hn & Hq & Hle & Hopen).
    rewrite Hx, Hy, Hn, Hq, Hopen, !Z.eqb_refl; simpl.
    rewrite andb_true_r. by apply Z.leb_le.
Qed.

(** [findEntityByType] only looks at the cells and at the [type] fields. *)
Lemma findEntityByType_ext w w' t :
  gameGrid w' = gameGrid w →
  (∀ r, type (heap w' r) = type (heap w r)) →
  findEntityByType w' t = findEntityByType w t.
Proof.
  intros Hg Ht. unfold findEntityByType. rewrite Hg. f_equal.
  apply list_omap_ext, Forall2_same_length_lookup. split; [done|].
  intros i p q Hp Hq. simplify_eq. unfold has_type.
  destruct (cell (gameGrid w) p.1 p.2); [|done]. by rewrite Ht.
Qed.

(** C10.  A successful move onto the exit only rewrites the coordinates
    stored in the player object.  No cell changes: the player's old cell
    still refers to the player object, whose stored coordinates are now those
    of the exit cell and differ from the old cell's, and the exit cell still
    refers to the exit.  Completion is then read off the stored coordinates:
    [checkLevelComplete] answers the exit's [isOpen] flag although the exit
    cell does not hold the player. *)
Theorem exit_move_keeps_player_in_old_cell
    (w : World) (dir : Direction) (player exit : ref) (n q : Z) :
  player_at_home w player →
  fields (heap w player) = PlayerFields true n →
  getEntity (gameGrid w) (target_of w player dir).1 (target_of w player dir).2
    = Some exit →
  type (heap w exit) = EXIT →
  diamondsRequired (heap w exit) = Some q →
  q ≤ n →
  solid (heap w exit) = false →
  ∃ w',
    GameLogic.movePlayer w dir
    = ({| success := true; diamondCollected := None; playerDied := None;
          levelComplete := Some true; scoreChange := None |}, w')
    ∧ gameGrid w' = gameGrid w
    ∧ getEntity (gameGrid w') (ent_x (heap w player)) (ent_y (heap w player))
      = Some player
    ∧ getEntity (gameGrid w') (target_of w player dir).1 (target_of w player dir).2
      = Some exit
    ∧ (ent_x (heap w' player), ent_y (heap w' player)) = target_of w player dir
    ∧ (ent_x (heap w' player), ent_y (heap w' player))
      ≠ (ent_x (heap w player), ent_y (heap w player))
    ∧ (∀ r, r ≠ player → heap w' r = heap w r)
    ∧ (findEntityByType w EXIT = Some exit →
       (ent_x (heap w exit), ent_y (heap w exit)) = target_of w player dir →
       GameLogic.checkLevelComplete w' = isOpen (heap w exit)).
Proof.
  intros [Hfind Hhome] Hfields Htarget Htype Hq Hle Hsolid.
  destruct (findEntityByType_Some _ _ _ Hfind) as [Hptype _].
  assert (Hne : exit ≠ player) by (intros ->; congruence).
  pose proof (getEntity_Some_valid _ _ _ _ Htarget) as Hvt.
  pose proof (direction_vector_nonzero dir (ent_x (heap w player))
                (ent_y (heap w player))) as Hnz.
  unfold target_of in *; simpl in *.
  destruct (GameLogic.getDirectionVector dir) as [dx dy] eqn:Hvec; simpl in *.
  set (px := ent_x (heap w player)) in *.
  set (py := ent_y (heap w player)) in *.
  set (w' := {| heap := mutate (setPosition (px + dx) (py + dy)) player (heap w);
                gameGrid := gameGrid w |}).
  assert (Htypes : ∀ r, type (heap w' r) = type (heap w r)).
  { intros r. simpl. destruct (decide (r = player)) as [->|].
    - by rewrite mutate_same.
    - by rewrite mutate_other. }
  exists w'. repeat split; try done.
  - unfold GameLogic.movePlayer. rewrite Hfind.
    unfold alive. rewrite Hfields; simpl. rewrite Hvec. fold px py.
    rewrite Hvt; simpl. rewrite Htarget, Htype.
    unfold GameLogic.handleExitMovement.
    unfold diamondsCollected. rewrite Hfields, Hq, Hsolid; simpl.
    by rewrite (proj2 (Z.ltb_ge n q)).
  - simpl. by rewrite mutate_same.
  - simpl. by rewrite mutate_same.
  - intros r Hr. simpl. by rewrite mutate_other.
  - intros Hexit [= Hex Hey]. unfold GameLogic.checkLevelComplete.
    rewrite (findEntityByType_ext w w' PLAYER), (findEntityByType_ext w w' EXIT),
      Hfind, Hexit by done.
    simpl. rewrite mutate_same, mutate_other by done. simpl.
    rewrite Hex, Hey, !Z.eqb_refl; simpl.
    unfold diamondsCollected; simpl. rewrite Hfields, Hq; simpl.
    by rewrite (proj2 (Z.leb_le q n)).
Qed.

Lemma exit_move_witness :
  ∃ w', (GameLogic.movePlayer at_the_door RIGHT).2 = w'
        ∧ getEntity (gameGrid w') 0 0 = Some 0%nat
        ∧ (ent_x (heap w' 0%nat), ent_y (heap w' 0%nat)) = (1, 0)
        ∧ GameLogic.checkLevelComplete w' = true.
Proof.
  destruct (exit_move_keeps_player_in_old_cell at_the_door RIGHT 0%nat 1%nat 0 0)
    as (w' & Hm & _ & Hold & _ & Hpos & _ & _ & Hdone);
    [by split | done..|].
  exists w'. rewrite Hm. repeat split; [done..|]. by rewrite Hdone.
Defined.

(** ** Physics: the per-cell steps *)

(** What the entity methods leave alone. *)
Ltac by_entity e := destruct e as [? ? ? ? ? ? ? ? ? ? []]; reflexivity.

Lemma type_set_falling b e : type (set_falling b e) = type e.
Proof. by_entity e. Qed.
Lemma ent_x_set_falling b e : ent_x (set_falling b e) = ent_x e.
Proof. by_entity e. Qed.
Lemma ent_y_set_falling b e : ent_y (set_falling b e) = ent_y e.
Proof. by_entity e. Qed.
Lemma alive_set_falling b e : alive (set_falling b e) = alive e.
Proof. by_entity e. Qed.
Lemma type_set_alive b e : type (set_alive b e) = type e.
Proof. by_entity e. Qed.
Lemma ent_x_set_alive b e : ent_x (set_alive b e) = ent_x e.
Proof. by_entity e. Qed.
Lemma ent_y_set_alive b e : ent_y (set_alive b e) = ent_y e.
Proof. by_entity e. Qed.
Lemma falling_set_alive b e : falling (set_alive b e) = falling e.
Proof. by_entity e. Qed.
Lemma alive_set_alive_false e : alive (set_alive false e) = false.
Proof. by_entity e. Qed.
Lemma type_setPosition x y e : type (setPosition x y e) = type e.
Proof. reflexivity. Qed.
Lemma ent_x_setPosition x y e : ent_x (setPosition x y e) = x.
Proof. reflexivity. Qed.
Lemma ent_y_setPosition x y e : ent_y (setPosition x y e) = y.
Proof. reflexivity. Qed.
Lemma falling_setPosition x y e : falling (setPosition x y e) = falling e.
Proof. reflexivity. Qed.
Lemma alive_setPosition x y e : alive (setPosition x y e) = alive e.
Proof. reflexivity. Qed.
Lemma fields_setPosition x y e : fields (setPosition x y e) = fields e.
Proof. reflexivity. Qed.

(** On a [Boulder] or [Diamond] object the flag reads back as written. *)
Lemma falling_set_falling b e :
  is_rock e → class_ok e → falling (set_falling b e) = b.
Proof.
  unfold is_rock, class_ok.
  destruct e as [? ? ? ? ? ? ? ? ? ? []]; simpl; intros [-> | ->]; done.
Qed.

Lemma falling_stopFalling e : falling (set_falling false e) = false.
Proof. by_entity e. Qed.

Create Rewrite HintDb entity.

#[local] Hint Rewrite
  type_set_falling ent_x_set_falling ent_y_set_falling alive_set_falling
  type_set_alive ent_x_set_alive ent_y_set_alive falling_set_alive
  alive_set_alive_false type_setPosition ent_x_setPosition ent_y_setPosition
  falling_setPosition alive_setPosition fields_setPosition falling_stopFalling
  : entity.

Lemma tryMoveDiamondDown_eq :
  GameLogic.tryMoveDiamondDown = GameLogic.tryMoveBoulderDown.
Proof. reflexivity. Qed.

Lemma is_rock_not_player (h : Heap) (r p : ref) :
  is_rock (h r) → type (h p) = PLAYER → r ≠ p.
Proof. intros [H|H] Hp ->; congruence. Qed.

(** C5.  In the gravity pass, at a boulder or diamond whose cell below holds
    the player: the helper reports [playerKilled] exactly when the rock's
    [falling] flag is set at that moment, and then sets the player's [alive]
    to false; a resting rock leaves [alive] as it was.  In both cases nothing
    moves: the grid and the rock's stored coordinates are unchanged. *)
Theorem falling_rock_kills_player
    (l : GameLogic.Loop) (x y : Z) (rock player : ref) :
  let w := GameLogic.world l in
  getEntity (gameGrid w) x y = Some rock →
  is_rock (heap w rock) →
  getEntity (gameGrid w) x (y + 1) = Some player →
  type (heap w player) = PLAYER →
  (∀ step, step = GameLogic.tryMoveBoulderDown
           ∨ step = GameLogic.tryMoveDiamondDown →
     playerKilled (step w rock x y).1 = falling (heap w rock)
     ∧ moved (step w rock x y).1 = false
     ∧ gameGrid (step w rock x y).2 = gameGrid w
     ∧ alive (heap (step w rock x y).2 player)
       = alive (heap w player) && negb (falling (heap w rock)))
  ∧ (let l' := GameLogic.gravityStep l (x, y) in
     gameGrid (GameLogic.world l') = gameGrid w
     ∧ ent_x (heap (GameLogic.world l') rock) = ent_x (heap w rock)
     ∧ ent_y (heap (GameLogic.world l') rock) = ent_y (heap w rock)
     ∧ alive (heap (GameLogic.world l') player)
       = alive (heap w player) && negb (falling (heap w rock))
     ∧ GameLogic.anyDied l' = GameLogic.anyDied l || falling (heap w rock)
     ∧ GameLogic.anyMoved l' = GameLogic.anyMoved l).
Proof.
  intros w Hrock Hisrock Hbelow Hplayer.
  pose proof (getEntity_Some_valid _ _ _ _ Hbelow) as Hvb.
  pose proof (is_rock_not_player _ _ _ Hisrock Hplayer) as Hne.
  assert (Hstep :
    GameLogic.tryMoveBoulderDown w rock x y
    = if falling (heap w rock)
      then (mkStepResult false true,
            {| heap := mutate (set_alive false) player (heap w);
               gameGrid := gameGrid w |})
      else (mkStepResult false false,
            {| heap := mutate stopFalling rock (heap w);
               gameGrid := gameGrid w |})).
  { unfold GameLogic.tryMoveBoulderDown. rewrite Hvb, Hbelow; simpl.
    by rewrite (bool_decide_eq_true_2 _ Hplayer). }
  split.
  - intros step [-> | ->]; rewrite ?tryMoveDiamondDown_eq, Hstep;
      destruct (falling (heap w rock)); simpl;
      rewrite ?mutate_same, ?alive_set_alive_false, ?mutate_other,
        ?andb_false_r, ?andb_true_r by done; done.
  - unfold GameLogic.gravityStep. fold w. rewrite Hrock.
    rewrite tryMoveDiamondDown_eq.
    assert (Hboth :
      ∀ (a b : GameLogic.Loop),
        (if bool_decide (type (heap w rock) = BOULDER) then a
         else if bool_decide (type (heap w rock) = DIAMOND) then a else b) = a).
    { intros a b.
      destruct Hisrock as [H|H]; rewrite H; by repeat case_bool_decide. }
    rewrite Hboth, Hstep. unfold GameLogic.settle, stopFalling.
    destruct (falling (heap w rock)) eqn:Hf; simpl; rewrite Hvb, Hbelow; simpl.
    + rewrite mutate_other, Hf by done. simpl.
      rewrite mutate_same, !mutate_other, mutate_same by done.
      autorewrite with entity.
      by rewrite andb_false_r, orb_true_r.
    + rewrite mutate_same, falling_stopFalling. simpl.
      rewrite mutate_same, mutate_other by done.
      autorewrite with entity.
      by rewrite andb_true_r, orb_false_r.
Qed.

Lemma falling_rock_witness :
  alive (heap (GameLogic.world
                 (GameLogic.gravityStep
                    (GameLogic.mkLoop (rock_over_player true) false false)
                    (0, 0))) 1%nat) = false
  ∧ alive (heap (GameLogic.world
                   (GameLogic.gravityStep
                      (GameLogic.mkLoop (rock_over_player false) false false)
                      (0, 0))) 1%nat) = true.
Proof.
  split.
  - destruct (falling_rock_kills_player
                (GameLogic.mkLoop (rock_over_player true) false false)
                0 0 0%nat 1%nat) as [_ (_ & _ & _ & Ha & _)];
      [done | by left | done | done |]. by rewrite Ha.
  - destruct (falling_rock_kills_player
                (GameLogic.mkLoop (rock_over_player false) false false)
                0 0 0%nat 1%nat) as [_ (_ & _ & _ & Ha & _)];
      [done | by left | done | done |]. by rewrite Ha.
Defined.

(** The world after a roll of [rock] from [(x, y)] in direction [d]. *)
Lemma tryRollDirection_spec w rock x y d :
  getEntity (gameGrid w) x y = Some rock →
  is_rock (heap w rock) →
  GameLogic.tryRollDirection w rock x y d
  = if can_roll (gameGrid w) x y d
    then (mkStepResult true false, rolled_world w rock x y d)
    else (mkStepResult false false, w).
Proof.
  intros Hrock Hisrock. unfold GameLogic.tryRollDirection, can_roll.
  destruct (isValidPosition (gameGrid w) (x + d) y); simpl; [|done].
  destruct (isValidPosition (gameGrid w) (x + d) (y + 1)) eqn:Hvd; simpl; [|done].
  destruct (getEntity (gameGrid w) (x + d) y); simpl; [done|].
  destruct (getEntity (gameGrid w) (x + d) (y + 1)) eqn:Hdiag; simpl; [done|].
  rewrite (moveEntity_ok _ _ _ _ _ rock) by (unfold holds_solid; by rewrite ?Hdiag).
  rewrite moved_world_heap_same, type_setPosition.
  destruct Hisrock as [H|H]; rewrite H; by repeat case_bool_decide.
Qed.

(** C6.  For a boulder or diamond at [(x, y)] resting on a boulder or diamond
    that is not falling: in a direction [d] the roll succeeds exactly when the
    side cell [(x + d, y)] and the diagonal cell [(x + d, y + 1)] are both in
    bounds and empty; a successful roll puts the entity in the diagonal cell
    in one step, empties its old cell, changes no other cell and sets its
    [falling] flag; a failed roll changes nothing.  [tryRolling], which
    pass 2 runs at the cell, tries right first: when the right side
    qualifies it rolls right whether or not the left side qualifies, and only
    otherwise tries left. *)
Theorem rolling_tries_right_first
    (l : GameLogic.Loop) (x y : Z) (rock below : ref) :
  let w := GameLogic.world l in
  grid_wf (gameGrid w) →
  getEntity (gameGrid w) x y = Some rock →
  is_rock (heap w rock) →
  class_ok (heap w rock) →
  getEntity (gameGrid w) x (y + 1) = Some below →
  is_rock (heap w below) →
  falling (heap w below) = false →
  (∀ d, let r := GameLogic.tryRollDirection w rock x y d in
     moved r.1 = can_roll (gameGrid w) x y d
     ∧ (can_roll (gameGrid w) x y d = false → r.2 = w)
     ∧ (can_roll (gameGrid w) x y d = true →
          getEntity (gameGrid r.2) (x + d) (y + 1) = Some rock
          ∧ getEntity (gameGrid r.2) x y = None
          ∧ (∀ x' y', (x', y') ≠ (x + d, y + 1) → (x', y') ≠ (x, y) →
               getEntity (gameGrid r.2) x' y' = getEntity (gameGrid w) x' y')
          ∧ ent_x (heap r.2 rock) = x + d
          ∧ ent_y (heap r.2 rock) = y + 1
          ∧ falling (heap r.2 rock) = true
          ∧ (∀ r', r' ≠ rock → heap r.2 r' = heap w r')))
  ∧ GameLogic.tryRolling w rock x y
    = (if can_roll (gameGrid w) x y 1
       then GameLogic.tryRollDirection w rock x y 1
       else GameLogic.tryRollDirection w rock x y (-1))
  ∧ GameLogic.world (GameLogic.rollingStep l (x, y))
    = (GameLogic.tryRolling w rock x y).2.
Proof.
  intros w Hwf Hrock Hisrock Hclass Hbelow Hisbelow Hrest.
  pose proof (getEntity_Some_valid _ _ _ _ Hrock) as Hv.
  pose proof (getEntity_Some_valid _ _ _ _ Hbelow) as Hvb.
  split; [|split].
  - intros d r. subst r. rewrite tryRollDirection_spec by done.
    destruct (can_roll (gameGrid w) x y d) eqn:Hcan; cbn; [|done].
    split; [done|]. split; [done|]. intros _.
    unfold can_roll in Hcan. rewrite !andb_true_iff in Hcan.
    destruct Hcan as [[[Hvs Hvd] _] _].
    assert (Hne : (x, y) ≠ (x + d, y + 1)) by (intros [=]; lia).
    rewrite !moved_world_getEntity by done.
    rewrite decide_True, (decide_False _ _ Hne), decide_True by done.
    rewrite mutate_same, moved_world_heap_same. unfold startFalling.
    autorewrite with entity.
    repeat split; try done.
    + intros x' y' H1 H2. rewrite moved_world_getEntity by done.
      by rewrite !decide_False.
    + apply falling_set_falling; [|done].
      unfold is_rock. by rewrite type_setPosition.
    + intros r' Hr'. by rewrite mutate_other, moved_world_heap_other.
  - unfold GameLogic.tryRolling. fold w. rewrite Hvb, Hbelow, Hrest; simpl.
    assert (Hrollable :
      bool_decide (type (heap w below) = BOULDER)
      || bool_decide (type (heap w below) = DIAMOND) = true).
    { destruct Hisbelow as [H|H]; rewrite H; by repeat case_bool_decide. }
    rewrite Hrollable; simpl.
    rewrite (tryRollDirection_spec w rock x y 1) by done.
    by destruct (can_roll (gameGrid w) x y 1).
  - unfold GameLogic.rollingStep. fold w. rewrite Hrock.
    assert (Hr :
      bool_decide (type (heap w rock) = BOULDER)
      || bool_decide (type (heap w rock) = DIAMOND) = true).
    { destruct Hisrock as [H|H]; rewrite H; by repeat case_bool_decide. }
    rewrite Hr. by destruct (GameLogic.tryRolling w rock x y).
Qed.

Lemma stacked_boulders_wf : grid_wf (gameGrid stacked_boulders).
Proof. by apply level_wf_check. Qed.

Lemma rolling_witness :
  can_roll (gameGrid stacked_boulders) 1 0 1 = true
  ∧ can_roll (gameGrid stacked_boulders) 1 0 (-1) = true
  ∧ getEntity (gameGrid (GameLogic.tryRolling stacked_boulders 0%nat 1 0).2) 2 1
    = Some 0%nat
  ∧ falling (heap (GameLogic.tryRolling stacked_boulders 0%nat 1 0).2 0%nat)
    = true.
Proof.
  destruct (rolling_tries_right_first
              (GameLogic.mkLoop stacked_boulders false false) 1 0 0%nat 1%nat)
    as (Hdir & Hroll & _);
    [apply stacked_boulders_wf | done | by left | done | done | by left | done |].
  simpl in Hroll. rewrite Hroll.
  destruct (Hdir 1) as (_ & _ & Hok).
  destruct Hok as (Hcell & _ & _ & _ & _ & Hfall & _); [done|].
  by repeat split.
Defined.

Lemma physics_turns_S n w :
  physics_turns (S n) w = (GameLogic.updatePhysics (physics_turns n w)).2.
Proof. reflexivity. Qed.

(** C4 (the code departs from the claim).  In scenario A the boulder reaches
    the floor row after two turns with [falling] set.  The loops of
    [updatePhysics] start at row [height - 2], so the floor row is never
    visited, the out-of-bounds branch of [tryMoveBoulderDown] is never taken,
    and the flag stays set after every later turn. *)
Theorem floor_boulder_stays_falling :
  let w2 := physics_turns 2 scenario_A in
  getEntity (gameGrid w2) 0 2 = Some 0%nat
  ∧ isValidPosition (gameGrid w2) 0 3 = false
  ∧ falling (heap w2 0%nat) = true
  ∧ (∀ n, falling (heap (physics_turns n w2) 0%nat) = true)
  ∧ falling (heap (GameLogic.tryMoveBoulderDown w2 0%nat 0 2).2 0%nat) = false.
Proof.
  intros w2. repeat split; try reflexivity.
  assert (Hfix : (GameLogic.updatePhysics w2).2 = w2) by reflexivity.
  assert (Hn : ∀ n, physics_turns n w2 = w2).
  { intros n. induction n as [|n IH]; [reflexivity|].
    by rewrite physics_turns_S, IH. }
  intros n. by rewrite Hn.
Qed.

(** ** The turn scheduler *)

(** A turn never touches the countdown or the turn counter; [update] itself
    advances the counter after the turn. *)
Lemma same_counters_refl e : same_counters e e.
Proof. by split. Qed.

Lemma same_counters_trans e1 e2 e3 :
  same_counters e1 e2 → same_counters e2 e3 → same_counters e1 e3.
Proof. unfold same_counters. intros [-> ->] [-> ->]. done. Qed.

Lemma emitEvent_counters ty data e :
  same_counters e (GameEngine.emitEvent ty data e).
Proof. by split. Qed.

Lemma with_state_counters f e :
  (∀ s, timeRemaining (f s) = timeRemaining s
        ∧ currentTurn (f s) = currentTurn s) →
  same_counters e (GameEngine.with_state f e).
Proof. intros Hf. split; apply Hf. Qed.

Ltac counters_step :=
  match goal with
  | |- same_counters ?e ?e => apply same_counters_refl
  | |- same_counters _ (GameEngine.emitEvent _ _ _) =>
      eapply same_counters_trans; [|apply emitEvent_counters]
  | |- same_counters _ (GameEngine.with_state _ _) =>
      eapply same_counters_trans;
      [|apply with_state_counters; intros ?; split; reflexivity]
  | |- same_counters _ (if ?b then _ else _) => destruct b
  | |- same_counters _ (match ?o with Some _ => _ | None => _ end) =>
      destruct o
  end.

Lemma handlePlayerDeath_counters e :
  same_counters e (GameEngine.handlePlayerDeath e).
Proof. unfold GameEngine.handlePlayerDeath. cbv zeta. repeat counters_step. Qed.

Lemma processMovement_counters d e :
  same_counters e (GameEngine.processMovement d e).
Proof.
  unfold GameEngine.processMovement.
  destruct (GameLogic.movePlayer (GameEngine.getGrid e) d) as [result w1].
  cbv zeta.
  repeat first
    [ counters_step
    | eapply same_counters_trans; [|apply handlePlayerDeath_counters] ].
Qed.

Lemma updatePhysics_counters e :
  same_counters e (GameEngine.updatePhysics e).
Proof.
  unfold GameEngine.updatePhysics.
  destruct (GameLogic.updatePhysics (GameEngine.getGrid e)) as [result w1].
  repeat first
    [ counters_step
    | eapply same_counters_trans; [|apply handlePlayerDeath_counters] ].
Qed.

Lemma checkGameConditions_counters e :
  same_counters e (GameEngine.checkGameConditions e).
Proof.
  unfold GameEngine.checkGameConditions. cbv zeta. repeat counters_step.
Qed.

Lemma determinePlayerAction_counters e :
  same_counters e (GameEngine.determinePlayerAction e).2.
Proof.
  unfold GameEngine.determinePlayerAction.
  destruct (currentlyPressedDirection (state e)); [by split|].
  unfold GameEngine.Date_now. cbn [state lastPressedDirection].
  destruct (lastPressedDirection (state e)); [|by split].
  by case_match.
Qed.

Lemma processTurn_counters e : same_counters e (GameEngine.processTurn e).
Proof.
  unfold GameEngine.processTurn.
  set (e1 := GameEngine.resetAllEntityAnimations e).
  assert (H1 : same_counters e e1) by (by split).
  pose proof (determinePlayerAction_counters e1) as H2.
  destruct (GameEngine.determinePlayerAction e1) as [action e2].
  simpl in H2.
  set (e3 := match action with
             | Some d => GameEngine.processMovement d e2
             | None => e2
             end).
  assert (H3 : same_counters e2 e3).
  { subst e3. destruct action;
      [apply processMovement_counters | apply same_counters_refl]. }
  pose proof (updatePhysics_counters e3) as H4.
  pose proof (checkGameConditions_counters (GameEngine.updatePhysics e3)) as H5.
  assert (H6 : same_counters e (GameEngine.checkGameConditions
                                 (GameEngine.updatePhysics e3))).
  { eauto using same_counters_trans. }
  unfold GameEngine.Date_now.
  match goal with
  | |- same_counters _ (if ?b then _ else _) => destruct b
  end; [|done].
  eapply same_counters_trans; [exact H6|by split].
Qed.

Lemma advanceTurn_counters e :
  timeRemaining (state (GameEngine.advanceTurn e)) = timeRemaining (state e)
  ∧ currentTurn (state (GameEngine.advanceTurn e))
    = currentTurn (state e)
      + (if GameEngine.TURN_DURATION_MS <=? clock e (reads e) - lastTurnTime (state e)
         then 1 else 0).
Proof.
  unfold GameEngine.advanceTurn, GameEngine.Date_now. simpl.
  case_match; simpl; [|split; [done|lia]].
  match goal with
  | |- context [GameEngine.processTurn ?e2] =>
      destruct (processTurn_counters e2) as [-> ->]
  end.
  done.
Qed.

Lemma advanceTurn_idle e :
  (GameEngine.TURN_DURATION_MS <=? clock e (reads e) - lastTurnTime (state e)) = false →
  lives (state (GameEngine.advanceTurn e)) = lives (state e)
  ∧ isPlaying (state (GameEngine.advanceTurn e)) = isPlaying (state e)
  ∧ level (state (GameEngine.advanceTurn e)) = level (state e).
Proof.
  intros Hdue. unfold GameEngine.advanceTurn, GameEngine.Date_now. simpl.
  by rewrite Hdue.
Qed.

(** C9 (amended).  In a call of [update] while playing and not paused, the
    turn check comes first: when 200 ms have passed since the last turn the
    turn is executed and the turn counter advances, whether or not the
    countdown runs out in the same call, and the turn leaves the countdown
    alone.  Then the countdown decreases by [deltaTime].  When it stays
    positive nothing else changes.  When it reaches zero, lives decrement;
    if lives remain after the decrement the countdown is reset to the time
    limit of the level and [isPlaying] is left as the turn part left it
    (true when no turn was due); if no lives remain [isPlaying] becomes
    false. *)
Theorem countdown_runs_after_the_turn (deltaTime : Q) (e : Engine) :
  isPlaying (state e) = true →
  isPaused (state e) = false →
  let due := GameEngine.TURN_DURATION_MS
             <=? clock e (reads e) - lastTurnTime (state e) in
  let e1 := GameEngine.advanceTurn e in
  let left := (timeRemaining (state e) - deltaTime)%Q in
  let e' := GameEngine.update deltaTime e in
  currentTurn (state e') = currentTurn (state e) + (if due then 1 else 0)
  ∧ timeRemaining (state e1) = timeRemaining (state e)
  ∧ (Qle_bool left 0 = false →
       state e' = GameEngine.set_timeRemaining left (state e1)
       ∧ emitted e' = emitted e1)
  ∧ (Qle_bool left 0 = true →
       lives (state e') = lives (state e1) - 1
       ∧ level (state e') = level (state e1)
       ∧ (0 < lives (state e1) - 1 →
            timeRemaining (state e') = Level.getTimeLimit (level (state e1))
            ∧ isPlaying (state e') = isPlaying (state e1)
            ∧ (due = false → isPlaying (state e') = true))
       ∧ (lives (state e1) - 1 ≤ 0 → isPlaying (state e') = false)).
Proof.
  intros Hplay Hpause due e1 left e'.
  destruct (advanceTurn_counters e) as [Htime Hturn]. fold e1 due in Htime, Hturn.
  assert (He' : e' = GameEngine.countDown deltaTime e1).
  { subst e'. unfold GameEngine.update. by rewrite Hplay, Hpause. }
  assert (Hleft : (timeRemaining (state e1) - deltaTime)%Q = left).
  { subst left. by rewrite Htime. }
  rewrite He'. unfold GameEngine.countDown, GameEngine.handleTimeUp,
    GameEngine.emitEvent, GameEngine.Date_now, GameEngine.with_state.
  cbn [state GameEngine.set_timeRemaining timeRemaining]. rewrite Hleft.
  split; [|split; [done|split]].
  - rewrite <- Hturn. by repeat (case_match; simpl).
  - intros Hpos. by rewrite Hpos.
  - intros Hzero. rewrite Hzero. simpl.
    destruct (0 <? lives (state e1) - 1) eqn:Hlives; simpl.
    + apply Z.ltb_lt in Hlives. repeat split; try done; try lia.
      intros Hdue. destruct (advanceTurn_idle e Hdue) as (_ & Hp & _).
      fold e1 in Hp. by rewrite Hp.
    + apply Z.ltb_ge in Hlives. repeat split; try done; lia.
Qed.

Lemma countdown_witness :
  currentTurn (state (GameEngine.update 60%Q slow_poll)) = 1
  ∧ lives (state (GameEngine.update 60%Q slow_poll)) = 2
  ∧ timeRemaining (state (GameEngine.update 60%Q slow_poll)) = 60%Q
  ∧ isPlaying (state (GameEngine.update 60%Q slow_poll)) = true.
Proof.
  destruct (countdown_runs_after_the_turn 60%Q slow_poll)
    as (Hturn & _ & _ & Hup); [done..|].
  destruct Hup as (Hlives & _ & Hmore & _); [done|].
  destruct Hmore as (Htime & Hplay & _); [done|].
  rewrite Hturn, Hlives, Htime, Hplay. by repeat split.
Defined.

(** C9 as stated fails: with a turn due and the countdown running out in the
    same call, the turn is executed before the time-up rule applies. *)
Lemma time_up_skips_the_turn_fails : ¬ time_up_skips_the_turn.
Proof.
  intros H. specialize (H 60%Q slow_poll eq_refl eq_refl eq_refl).
  discriminate H.
Qed.

(** ** Physics: the scan order *)

Lemma elem_of_row (w y x' y' : Z) :
  (x', y') ∈ (seqZ 0 w ≫= λ x, [(x, y)]) ↔ y' = y ∧ 0 ≤ x' < w.
Proof.
  rewrite list_elem_of_bind. split.
  - intros (x0 & Hin%list_elem_of_singleton & Hx0%elem_of_seqZ).
    simplify_eq. lia.
  - intros [-> Hx]. exists x'. split.
    + by apply list_elem_of_singleton.
    + apply elem_of_seqZ. lia.
Qed.

Lemma elem_of_rowMajor g x y :
  (x, y) ∈ rowMajor g ↔ 0 ≤ x < width g ∧ 0 ≤ y < height g.
Proof.
  unfold rowMajor. rewrite list_elem_of_bind. split.
  - intros (y0 & [-> Hx]%elem_of_row & Hy0%elem_of_seqZ). lia.
  - intros [Hx Hy]. exists y. split.
    + by apply elem_of_row.
    + apply elem_of_seqZ. lia.
Qed.

Lemma elem_of_scanOrder g x y :
  (x, y) ∈ GameLogic.scanOrder g ↔ 0 ≤ x < width g ∧ 0 ≤ y < height g - 1.
Proof.
  unfold GameLogic.scanOrder. rewrite list_elem_of_bind. split.
  - intros (y0 & [-> Hx]%elem_of_row & Hy0%elem_of_reverse%elem_of_seqZ). lia.
  - intros [Hx Hy]. exists y. split.
    + by apply elem_of_row.
    + apply elem_of_reverse, elem_of_seqZ. lia.
Qed.

Lemma reverse_seqZ_descends n :
  StronglySorted (λ a b : Z, b ≤ a) (reverse (seqZ 0 n)).
Proof.
  destruct (decide (n ≤ 0)) as [Hn|Hn].
  { rewrite seqZ_nil by done. constructor. }
  replace n with (Z.of_nat (Z.to_nat n)) by lia.
  induction (Z.to_nat n) as [|k IH].
  - rewrite seqZ_nil by done. constructor.
  - rewrite seqZ_S, reverse_snoc. constructor; [done|].
    apply Forall_forall. intros b Hb.
    apply elem_of_reverse, elem_of_seqZ in Hb. lia.
Qed.

(** The scan of [updatePhysics] goes from the row above the floor up to the
    top row. *)
Lemma scanOrder_sorted g :
  StronglySorted rows_ascend_upward (GameLogic.scanOrder g).
Proof.
  unfold GameLogic.scanOrder.
  pose proof (reverse_seqZ_descends (height g - 1)) as Hys.
  induction Hys as [|y ys Hsorted IH Hall]; [constructor|].
  rewrite bind_cons. apply StronglySorted_app_2; [|clear| done].
  - intros [x1 y1] [x2 y2] H1%elem_of_row H2%list_elem_of_bind.
    destruct H2 as (y0 & H2%elem_of_row & Hy0).
    rewrite Forall_forall in Hall. specialize (Hall _ Hy0).
    unfold rows_ascend_upward; simpl. lia.
  - induction (seqZ 0 (width g)) as [|x xs IHx]; [constructor|].
    rewrite bind_cons. simpl. constructor; [done|].
    apply Forall_forall. intros [x2 y2] H2%list_elem_of_bind.
    destruct H2 as (x0 & H2%list_elem_of_singleton & _).
    unfold rows_ascend_upward. simplify_eq/=. lia.
Qed.

(** ** Physics: what one step does to the layout *)

Lemma stays_refl w : stays w w.
Proof. by split. Qed.

Lemma stays_trans w1 w2 w3 : stays w1 w2 → stays w2 w3 → stays w1 w3.
Proof.
  intros [Hg1 H1] [Hg2 H2]. split; [congruence|].
  intros r. destruct (H1 r) as (? & ? & ?), (H2 r) as (? & ? & ?).
  repeat split; congruence.
Qed.

(** Setting a flag of one object moves nothing. *)
Lemma stays_mutate (m : Entity → Entity) r w :
  (∀ e, type (m e) = type e ∧ ent_x (m e) = ent_x e ∧ ent_y (m e) = ent_y e) →
  stays w {| heap := mutate m r (heap w); gameGrid := gameGrid w |}.
Proof.
  intros Hm. split; [done|]. intros r'. simpl.
  destruct (decide (r' = r)) as [->|Hne].
  - rewrite mutate_same. apply Hm.
  - by rewrite mutate_other.
Qed.

Lemma stays_set_falling b r w :
  stays w {| heap := mutate (set_falling b) r (heap w); gameGrid := gameGrid w |}.
Proof. apply stays_mutate. intros e. by autorewrite with entity. Qed.

Lemma stays_set_alive b r w :
  stays w {| heap := mutate (set_alive b) r (heap w); gameGrid := gameGrid w |}.
Proof. apply stays_mutate. intros e. by autorewrite with entity. Qed.

Lemma stays_inv w w' : phys_inv w → stays w w' → phys_inv w'.
Proof.
  intros [Hwf Hplaced] [Hg Hsame]. split; [by rewrite Hg|].
  intros x y r Hcell Hrock. rewrite Hg in Hcell.
  destruct (Hsame r) as (Ht & Hx & Hy). unfold is_rock in Hrock.
  rewrite Ht in Hrock. rewrite Hx, Hy. by apply Hplaced.
Qed.

Lemma relocates_getEntity w w' r0 c t x y :
  grid_wf (gameGrid w) → relocates w w' r0 c t →
  getEntity (gameGrid w') x y
  = if decide ((x, y) = t) then Some r0
    else if decide ((x, y) = c) then None
    else getEntity (gameGrid w) x y.
Proof.
  intros Hwf (Hc & _ & Hvt & _ & Hg & _). destruct c as [cx cy], t as [tx ty].
  simpl in *. rewrite Hg.
  pose proof (getEntity_Some_valid _ _ _ _ Hc) as Hvc.
  rewrite getEntity_write_cell; [|by apply write_cell_wf|done].
  case_decide; [done|]. by rewrite getEntity_write_cell.
Qed.

Lemma relocates_valid w w' r0 c t x y :
  relocates w w' r0 c t →
  isValidPosition (gameGrid w') x y = isValidPosition (gameGrid w) x y.
Proof. intros (_ & _ & _ & _ & Hg & _). by rewrite Hg. Qed.

Lemma relocates_inv w w' r0 c t :
  phys_inv w → relocates w w' r0 c t → phys_inv w'.
Proof.
  intros [Hwf Hplaced] Hrel.
  pose proof Hrel as (Hc & Hrock0 & Hvt & Hfree & Hg & Htypes & Hothers & Hx0 & Hy0).
  split.
  { rewrite Hg. by do 2 apply write_cell_wf. }
  intros x y r Hcell Hrock.
  rewrite (relocates_getEntity _ _ _ _ _ _ _ Hwf Hrel) in Hcell.
  case_decide as Ht; [by simplify_eq|].
  case_decide as Hco; [done|].
  unfold is_rock in Hrock. rewrite Htypes in Hrock.
  destruct (Hplaced _ _ _ Hcell Hrock) as [Hx Hy].
  destruct (decide (r = r0)) as [->|Hne].
  - destruct (Hplaced _ _ _ Hc Hrock0) as [Hx' Hy'].
    destruct Hco. destruct c; simpl in *. f_equal; congruence.
  - destruct (Hothers _ Hne) as [-> ->]. done.
Qed.

(** A free cell below: the rock falls one row. *)
Lemma tryMoveBoulderDown_falls w r0 x y :
  getEntity (gameGrid w) x y = Some r0 →
  isValidPosition (gameGrid w) x (y + 1) = true →
  getEntity (gameGrid w) x (y + 1) = None →
  GameLogic.tryMoveBoulderDown w r0 x y
  = (mkStepResult true false,
     moved_world {| heap := mutate startFalling r0 (heap w);
                    gameGrid := gameGrid w |} r0 x y x (y + 1)).
Proof.
  intros Hc Hv Hfree. unfold GameLogic.tryMoveBoulderDown.
  rewrite Hv, Hfree; simpl.
  rewrite (moveEntity_ok _ _ _ _ _ r0); try done.
  unfold holds_solid; simpl. by rewrite Hfree.
Qed.

(** No free cell below: nothing moves. *)
Lemma tryMoveBoulderDown_blocked w r0 x y :
  isValidPosition (gameGrid w) x (y + 1) = false
  ∨ is_Some (getEntity (gameGrid w) x (y + 1)) →
  moved (GameLogic.tryMoveBoulderDown w r0 x y).1 = false
  ∧ stays w (GameLogic.tryMoveBoulderDown w r0 x y).2.
Proof.
  intros Hblocked. unfold GameLogic.tryMoveBoulderDown.
  destruct (isValidPosition (gameGrid w) x (y + 1)) eqn:Hv; simpl.
  - destruct Hblocked as [|[b Hb]]; [done|]. rewrite Hb.
    case_match; simpl; split; try done.
    + apply stays_set_alive.
    + apply stays_set_falling.
  - split; [done|]. apply stays_set_falling.
Qed.

Lemma settle_stays w r0 x y : stays w (GameLogic.settle w r0 x y).
Proof.
  unfold GameLogic.settle. repeat case_match; try apply stays_refl.
  apply stays_set_falling.
Qed.

Lemma relocates_fall w r0 x y :
  getEntity (gameGrid w) x y = Some r0 →
  is_rock (heap w r0) →
  isValidPosition (gameGrid w) x (y + 1) = true →
  getEntity (gameGrid w) x (y + 1) = None →
  relocates w
    (moved_world {| heap := mutate startFalling r0 (heap w);
                    gameGrid := gameGrid w |} r0 x y x (y + 1))
    r0 (x, y) (x, y + 1).
Proof.
  intros Hc Hrock Hv Hfree. unfold relocates. cbn.
  repeat split; try done.
  - intros r. destruct (decide (r = r0)) as [->|Hne].
    + rewrite moved_world_heap_same. cbn. rewrite mutate_same.
      unfold startFalling. by autorewrite with entity.
    + rewrite moved_world_heap_other by done. cbn. by rewrite mutate_other.
  - rewrite moved_world_heap_other by done. cbn. by rewrite mutate_other.
  - rewrite moved_world_heap_other by done. cbn. by rewrite mutate_other.
  - by rewrite moved_world_heap_same.
  - by rewrite moved_world_heap_same.
Qed.

Lemma relocates_roll w r0 x y d :
  getEntity (gameGrid w) x y = Some r0 →
  is_rock (heap w r0) →
  can_roll (gameGrid w) x y d = true →
  relocates w (rolled_world w r0 x y d) r0 (x, y) (x + d, y + 1).
Proof.
  intros Hc Hrock Hcan. unfold can_roll in Hcan.
  rewrite !andb_true_iff, !bool_decide_eq_true in Hcan.
  destruct Hcan as [[[_ Hvd] _] Hfree].
  unfold relocates, rolled_world. cbn. unfold startFalling.
  repeat split; try done.
  - intros r. destruct (decide (r = r0)) as [->|Hne].
    + rewrite mutate_same, moved_world_heap_same. by autorewrite with entity.
    + by rewrite mutate_other, moved_world_heap_other.
  - by rewrite mutate_other, moved_world_heap_other.
  - by rewrite mutate_other, moved_world_heap_other.
  - rewrite mutate_same, moved_world_heap_same. by autorewrite with entity.
  - rewrite mutate_same, moved_world_heap_same. by autorewrite with entity.
Qed.

Lemma rock_test (e : Entity) (A : Type) (a b : A) :
  is_rock e →
  (if bool_decide (type e = BOULDER) then a
   else if bool_decide (type e = DIAMOND) then a else b) = a.
Proof. intros [H|H]; rewrite H; by repeat case_bool_decide. Qed.

Lemma not_rock_test (e : Entity) (A : Type) (a1 a2 b : A) :
  ¬ is_rock e →
  (if bool_decide (type e = BOULDER) then a1
   else if bool_decide (type e = DIAMOND) then a2 else b) = b.
Proof. unfold is_rock. intros H. repeat case_bool_decide; tauto. Qed.

(** The gravity step at a cell: a rock over a free in-bounds cell falls one
    row; in every other case nothing moves. *)
Lemma gravityStep_spec l x y :
  (∀ r0, getEntity (gameGrid (GameLogic.world l)) x y = Some r0 →
         is_rock (heap (GameLogic.world l) r0) →
         isValidPosition (gameGrid (GameLogic.world l)) x (y + 1) = true →
         getEntity (gameGrid (GameLogic.world l)) x (y + 1) = None →
         relocates (GameLogic.world l)
                   (GameLogic.world (GameLogic.gravityStep l (x, y)))
                   r0 (x, y) (x, y + 1))
  ∧ (stays (GameLogic.world l)
           (GameLogic.world (GameLogic.gravityStep l (x, y)))
     ∨ ∃ r0, relocates (GameLogic.world l)
                       (GameLogic.world (GameLogic.gravityStep l (x, y)))
                       r0 (x, y) (x, y + 1)).
Proof.
  unfold GameLogic.gravityStep. set (w := GameLogic.world l).
  destruct (getEntity (gameGrid w) x y) as [r0|] eqn:Hc;
    [|split; [done|left; apply stays_refl]].
  destruct (is_rock_dec (heap w r0)) as [Hrock|Hnot]; cycle 1.
  { rewrite not_rock_test by done. split; [|left; apply stays_refl].
    by intros r [= <-]. }
  rewrite tryMoveDiamondDown_eq, rock_test by done.
  destruct (isValidPosition (gameGrid w) x (y + 1)) eqn:Hv;
    [destruct (getEntity (gameGrid w) x (y + 1)) as [b|] eqn:Hbelow|].
  - destruct (tryMoveBoulderDown_blocked w r0 x y) as [Hm Hs];
      [right; rewrite Hbelow; by eexists|].
    destruct (GameLogic.tryMoveBoulderDown w r0 x y) as [res w1].
    simpl in Hm, Hs. rewrite Hm. simpl. split; [done|]. left.
    eapply stays_trans; [done|apply settle_stays].
  - rewrite tryMoveBoulderDown_falls by done. simpl.
    split; [|right; exists r0]; [intros r [= <-] _ _ _|];
      by apply relocates_fall.
  - destruct (tryMoveBoulderDown_blocked w r0 x y) as [Hm Hs]; [by left|].
    destruct (GameLogic.tryMoveBoulderDown w r0 x y) as [res w1].
    simpl in Hm, Hs. rewrite Hm. simpl. split; [done|]. left.
    eapply stays_trans; [done|apply settle_stays].
Qed.

(** [tryRolling] either changes nothing or rolls in a direction that
    qualifies. *)
Lemma tryRolling_cases w r0 x y :
  getEntity (gameGrid w) x y = Some r0 →
  is_rock (heap w r0) →
  (GameLogic.tryRolling w r0 x y).2 = w
  ∨ ∃ d, (d = 1 ∨ d = -1)
         ∧ can_roll (gameGrid w) x y d = true
         ∧ GameLogic.tryRolling w r0 x y
           = (mkStepResult true false, rolled_world w r0 x y d).
Proof.
  intros Hc Hrock. unfold GameLogic.tryRolling.
  destruct (negb (isValidPosition (gameGrid w) x (y + 1))); [by left|].
  destruct (getEntity (gameGrid w) x (y + 1)) as [b|]; [|by left].
  destruct (negb (bool_decide (type (heap w b) = BOULDER)
                  || bool_decide (type (heap w b) = DIAMOND))
            || falling (heap w b)); [by left|].
  rewrite (tryRollDirection_spec w r0 x y 1) by done.
  destruct (can_roll (gameGrid w) x y 1) eqn:Hright; cbn [moved].
  { right. exists 1. auto. }
  rewrite (tryRollDirection_spec w r0 x y (-1)) by done.
  destruct (can_roll (gameGrid w) x y (-1)) eqn:Hleft; [|by left].
  right. exists (-1). auto.
Qed.

Lemma rock_test_or (e : Entity) :
  bool_decide (type e = BOULDER) || bool_decide (type e = DIAMOND)
  = bool_decide (is_rock e).
Proof. unfold is_rock. repeat case_bool_decide; tauto. Qed.

(** The rolling step at a cell: the rock there rolls one diagonal step to the
    right or to the left, or nothing moves. *)
Lemma rollingStep_spec l x y :
  stays (GameLogic.world l) (GameLogic.world (GameLogic.rollingStep l (x, y)))
  ∨ ∃ r0 d, (d = 1 ∨ d = -1)
            ∧ relocates (GameLogic.world l)
                        (GameLogic.world (GameLogic.rollingStep l (x, y)))
                        r0 (x, y) (x + d, y + 1).
Proof.
  unfold GameLogic.rollingStep. set (w := GameLogic.world l).
  destruct (getEntity (gameGrid w) x y) as [r0|] eqn:Hc;
    [|left; apply stays_refl].
  rewrite rock_test_or. case_bool_decide as Hrock; [|left; apply stays_refl].
  destruct (tryRolling_cases w r0 x y Hc Hrock) as [Hsame|(d & Hd & Hcan & Hroll)].
  - destruct (GameLogic.tryRolling w r0 x y) as [res w1]. simpl in *. subst w1.
    left; apply stays_refl.
  - rewrite Hroll. cbn [GameLogic.world]. right. exists r0, d.
    split; [done|]. by apply relocates_roll.
Qed.

(** ** Physics: one pass moves a rock at most once *)

Section one_pass.
Variable step : GameLogic.Loop → Z * Z → GameLogic.Loop.
Variable sideways : Z → Prop.

(** Each step either moves nothing or moves the rock of its own cell one
    row down, by an allowed sideways offset. *)
Hypothesis step_spec : ∀ l x y,
  stays (GameLogic.world l) (GameLogic.world (step l (x, y)))
  ∨ ∃ r0 d, sideways d
            ∧ relocates (GameLogic.world l) (GameLogic.world (step l (x, y)))
                        r0 (x, y) (x + d, y + 1).

Lemma tracked_step r x y l c todo :
  Forall (rows_ascend_upward c) todo →
  tracked sideways r x y (GameLogic.world l) (c :: todo) →
  tracked sideways r x y (GameLogic.world (step l c)) todo.
Proof.
  intros Hsorted (Hinv & Hrock & Hwhere). destruct c as [cx cy].
  assert (Htodo : Forall (λ c, c.2 ≤ y) ((cx, cy) :: todo) →
                  Forall (λ c, c.2 ≤ y) todo).
  { intros H. by inv H. }
  destruct (step_spec l cx cy) as [Hstay | (r0 & d0 & Hd0 & Hrel)].
  - split; [by eapply stays_inv|]. destruct Hstay as [Hg Hsame].
    split; [unfold is_rock; by rewrite (proj1 (Hsame r))|].
    rewrite Hg. destruct Hwhere as [?|(d & ? & ? & ?)]; [by left|].
    right. exists d. eauto.
  - pose proof Hinv as [Hwf Hplaced].
    pose proof Hrel as (Hc & Hrock0 & Hvt & Hfree & _ & Htypes & _).
    simpl in Hc, Hfree.
    pose proof (λ x' y', relocates_getEntity _ _ _ _ _ x' y' Hwf Hrel) as Hget.
    split; [by eapply relocates_inv|].
    split; [unfold is_rock; by rewrite Htypes|].
    destruct (decide (r0 = r)) as [->|Hne].
    + destruct (Hplaced _ _ _ Hc Hrock) as [Hcx Hcy].
      destruct Hwhere as [Hhome | (d & Hd & Hdown & Hrows)].
      * destruct (Hplaced _ _ _ Hhome Hrock) as [Hx Hy].
        assert (cx = x ∧ cy = y) as [-> ->] by (split; congruence).
        right. exists d0. split; [done|].
        rewrite Hget, decide_True by done. split; [done|].
        eapply Forall_impl; [exact Hsorted|].
        unfold rows_ascend_upward. by simpl.
      * destruct (Hplaced _ _ _ Hdown Hrock) as [Hx Hy].
        inv Hrows. simpl in *. lia.
    + assert (Hkeep : ∀ x' y', getEntity (gameGrid (GameLogic.world l)) x' y'
                               = Some r →
                getEntity (gameGrid (GameLogic.world (step l (cx, cy)))) x' y'
                = Some r).
      { intros x' y' Hcell. rewrite Hget.
        rewrite decide_False by (intros [= -> ->]; congruence).
        rewrite decide_False by (intros [= -> ->]; congruence).
        done. }
      destruct Hwhere as [Hhome | (d & Hd & Hdown & Hrows)].
      * left. by apply Hkeep.
      * right. exists d. split; [done|]. split; [by apply Hkeep|eauto].
Qed.

Lemma tracked_pass r x y todo :
  StronglySorted rows_ascend_upward todo →
  ∀ l, tracked sideways r x y (GameLogic.world l) todo →
       tracked sideways r x y (GameLogic.world (foldl step l todo)) [].
Proof.
  induction 1 as [|c todo Hsorted IH Hhead]; intros l Htracked; [done|].
  simpl. apply IH. by apply tracked_step.
Qed.

(** After the pass the rock is in its old cell or in a cell one row down,
    and it stores the coordinates of the cell it is in. *)
Lemma pass_moves_at_most_once r x y todo l :
  StronglySorted rows_ascend_upward todo →
  phys_inv (GameLogic.world l) →
  getEntity (gameGrid (GameLogic.world l)) x y = Some r →
  is_rock (heap (GameLogic.world l) r) →
  let w' := GameLogic.world (foldl step l todo) in
  phys_inv w'
  ∧ is_rock (heap w' r)
  ∧ getEntity (gameGrid w') (stored w' r).1 (stored w' r).2 = Some r
  ∧ (stored w' r = (x, y)
     ∨ ∃ d, sideways d ∧ stored w' r = (x + d, y + 1)).
Proof.
  intros Hsorted Hinv Hcell Hrock w'.
  destruct (tracked_pass r x y todo Hsorted l) as (Hinv' & Hrock' & Hwhere).
  { split; [done|]. split; [done|]. by left. }
  fold w' in Hinv', Hrock', Hwhere. split; [done|]. split; [done|].
  pose proof Hinv' as [_ Hplaced]. unfold stored.
  destruct Hwhere as [Hhome | (d & Hd & Hdown & _)].
  - destruct (Hplaced _ _ _ Hhome Hrock') as [-> ->]. split; [done|by left].
  - destruct (Hplaced _ _ _ Hdown Hrock') as [-> ->].
    split; [done|]. right. by exists d.
Qed.

End one_pass.

(** ** Physics: a rock over a free cell falls in the gravity pass *)

Lemma about_to_fall_step r x y l c todo :
  Forall (rows_ascend_upward c) todo →
  about_to_fall r x y (GameLogic.world l) (c :: todo) →
  about_to_fall r x y (GameLogic.world (GameLogic.gravityStep l c)) todo.
Proof.
  intros Hsorted (Hinv & Hrock & Hvalid & Hwhere). destruct c as [cx cy].
  destruct (gravityStep_spec l cx cy) as [Hmust Hstep].
  pose proof Hinv as [Hwf Hplaced].
  destruct Hwhere as [(Hhome & Hfree & Htodo) | (Hdown & Hrows)].
  - destruct (decide ((cx, cy) = (x, y))) as [[= -> ->]|Hother].
    + pose proof (Hmust r Hhome Hrock Hvalid Hfree) as Hrel.
      split; [by eapply relocates_inv|].
      split; [unfold is_rock; by rewrite (proj1 (proj2 (proj2 (proj2 (proj2 (proj2 Hrel))))))|].
      split; [by rewrite (relocates_valid _ _ _ _ _ _ _ Hrel)|].
      right. rewrite (relocates_getEntity _ _ _ _ _ _ _ Hwf Hrel).
      rewrite decide_True by done. split; [done|].
      eapply Forall_impl; [exact Hsorted|]. unfold rows_ascend_upward. by simpl.
    + assert (Hin : (x, y) ∈ todo).
      { apply elem_of_cons in Htodo as [?|?]; [congruence|done]. }
      destruct Hstep as [Hstay | (r0 & Hrel)].
      * split; [by eapply stays_inv|]. destruct Hstay as [Hg Hsame].
        split; [unfold is_rock; by rewrite (proj1 (Hsame r))|].
        rewrite Hg. split; [done|]. by left.
      * pose proof Hrel as (Hc & Hrock0 & Hvt & Hfree0 & _ & Htypes & _).
        simpl in Hc, Hfree0.
        split; [by eapply relocates_inv|].
        split; [unfold is_rock; by rewrite Htypes|].
        split; [by rewrite (relocates_valid _ _ _ _ _ _ _ Hrel)|].
        left. rewrite !(relocates_getEntity _ _ _ _ _ _ _ Hwf Hrel).
        assert (r0 ≠ r) as Hne.
        { intros ->. destruct (Hplaced _ _ _ Hc Hrock) as [Hcx Hcy].
          destruct (Hplaced _ _ _ Hhome Hrock) as [Hx Hy].
          apply Hother. f_equal; congruence. }
        split; [|split; [|done]].
        -- rewrite decide_False by (intros [= -> ->]; congruence).
           rewrite decide_False by (intros [= -> ->]; congruence). done.
        -- rewrite decide_False
             by (intros [= -> Hy]; apply Hother; f_equal; lia).
           by case_decide.
  - assert (Hrows' : Forall (λ c, c.2 ≤ y) todo) by (by inv Hrows).
    assert (Hcy : cy ≤ y) by (by inv Hrows).
    destruct Hstep as [Hstay | (r0 & Hrel)].
    + split; [by eapply stays_inv|]. destruct Hstay as [Hg Hsame].
      split; [unfold is_rock; by rewrite (proj1 (Hsame r))|].
      rewrite Hg. split; [done|]. by right.
    + pose proof Hrel as (Hc & Hrock0 & Hvt & Hfree0 & _ & Htypes & _).
      simpl in Hc, Hfree0.
      split; [by eapply relocates_inv|].
      split; [unfold is_rock; by rewrite Htypes|].
      split; [by rewrite (relocates_valid _ _ _ _ _ _ _ Hrel)|].
      right. rewrite !(relocates_getEntity _ _ _ _ _ _ _ Hwf Hrel).
      assert (r0 ≠ r) as Hne.
      { intros ->. destruct (Hplaced _ _ _ Hc Hrock) as [Hcx Hcy'].
        destruct (Hplaced _ _ _ Hdown Hrock) as [Hx Hy]. lia. }
      split; [|done].
      rewrite decide_False
        by (intros [= ? ?]; assert (y = cy) by lia; subst; congruence).
      rewrite decide_False by (intros [= ? ?]; subst; congruence). done.
Qed.

Lemma about_to_fall_pass r x y todo :
  StronglySorted rows_ascend_upward todo →
  ∀ l, about_to_fall r x y (GameLogic.world l) todo →
       about_to_fall r x y
         (GameLogic.world (foldl GameLogic.gravityStep l todo)) [].
Proof.
  induction 1 as [|c todo Hsorted IH Hhead]; intros l Htracked; [done|].
  simpl. apply IH. by apply about_to_fall_step.
Qed.

Lemma placed_check_sound w : placed_check w = true → rocks_placed w.
Proof.
  unfold placed_check. rewrite forallb_forall. intros Hall x y r Hcell Hrock.
  pose proof (getEntity_Some_valid _ _ _ _ Hcell) as Hv.
  apply isValidPosition_spec in Hv.
  specialize (Hall (x, y)). simpl in Hall. rewrite Hcell in Hall.
  rewrite bool_decide_eq_true_2 in Hall by done.
  rewrite andb_true_iff, !Z.eqb_eq in Hall. apply Hall.
  by apply list_elem_of_In, elem_of_rowMajor.
Qed.

Lemma phys_inv_check w :
  bool_decide (length (grid (gameGrid w)) = Z.to_nat (height (gameGrid w)))
  && forallb (λ row, bool_decide (length row = Z.to_nat (width (gameGrid w))))
             (grid (gameGrid w)) = true →
  placed_check w = true →
  phys_inv w.
Proof. intros H1 H2. split; [by apply level_wf_check | by apply placed_check_sound]. Qed.

Lemma gravityStep_one_pass l x y :
  stays (GameLogic.world l) (GameLogic.world (GameLogic.gravityStep l (x, y)))
  ∨ ∃ r0 d, d = 0
            ∧ relocates (GameLogic.world l)
                (GameLogic.world (GameLogic.gravityStep l (x, y)))
                r0 (x, y) (x + d, y + 1).
Proof.
  destruct (gravityStep_spec l x y) as [_ [Hstay | (r0 & Hrel)]]; [by left|].
  right. exists r0, 0. split; [done|]. by rewrite Z.add_0_r.
Qed.

(** C2 (amended).  In an executed physics turn each pass moves a boulder or
    diamond at most once.  Pass 1 leaves it in its cell or moves it one row
    down in the same column, and it does move it when the cell below is in
    bounds and free.  Pass 2 makes no difference between rocks that fell in
    pass 1 and rocks that rested: it leaves the rock where pass 1 put it or
    rolls it one diagonal step.  So a rock ends the turn at most two rows
    below where it started, and the cell whose coordinates it stores holds
    it. *)
Theorem rock_moves_once_per_pass (w : World) (r : ref) (x y : Z) :
  phys_inv w →
  getEntity (gameGrid w) x y = Some r →
  is_rock (heap w r) →
  let l1 := GameLogic.gravityPass (GameLogic.mkLoop w false false) in
  let l2 := GameLogic.rollingPass l1 in
  let p1 := stored (GameLogic.world l1) r in
  let p2 := stored (GameLogic.world l2) r in
  (GameLogic.updatePhysics w).2 = GameLogic.world l2
  ∧ (p1 = (x, y) ∨ p1 = (x, y + 1))
  ∧ (isValidPosition (gameGrid w) x (y + 1) = true →
     getEntity (gameGrid w) x (y + 1) = None →
     p1 = (x, y + 1))
  ∧ (p2 = p1 ∨ p2 = (p1.1 + 1, p1.2 + 1) ∨ p2 = (p1.1 - 1, p1.2 + 1))
  ∧ y ≤ p2.2 ≤ y + 2
  ∧ getEntity (gameGrid (GameLogic.world l2)) p2.1 p2.2 = Some r
  ∧ phys_inv (GameLogic.world l2).
Proof.
  intros Hinv Hcell Hrock l1 l2 p1 p2.
  destruct (pass_moves_at_most_once GameLogic.gravityStep (λ d, d = 0)
              gravityStep_one_pass r x y
              (GameLogic.scanOrder (gameGrid w)) (GameLogic.mkLoop w false false))
    as (Hinv1 & Hrock1 & Hcell1 & Hp1);
    [apply scanOrder_sorted | done..|].
  change (GameLogic.world (foldl GameLogic.gravityStep _ _))
    with (GameLogic.world l1) in *. fold p1 in Hcell1, Hp1.
  assert (Hp1' : p1 = (x, y) ∨ p1 = (x, y + 1)).
  { destruct Hp1 as [?|(d & -> & ->)]; [by left|right].
    by rewrite Z.add_0_r. }
  destruct (pass_moves_at_most_once GameLogic.rollingStep (λ d, d = 1 ∨ d = -1)
              rollingStep_spec r p1.1 p1.2
              (GameLogic.scanOrder (gameGrid (GameLogic.world l1))) l1)
    as (Hinv2 & Hrock2 & Hcell2 & Hp2);
    [apply scanOrder_sorted | done..|].
  change (GameLogic.world (foldl GameLogic.rollingStep _ _))
    with (GameLogic.world l2) in *. fold p2 in Hcell2, Hp2.
  assert (Hp2' : p2 = p1 ∨ p2 = (p1.1 + 1, p1.2 + 1) ∨ p2 = (p1.1 - 1, p1.2 + 1)).
  { destruct Hp2 as [->|(d & [-> | ->] & ->)]; [left; by destruct p1|auto..]. }
  split; [done|]. split; [done|]. split; [|split; [done|split; [|done]]].
  - intros Hvalid Hfree.
    destruct (about_to_fall_pass r x y (GameLogic.scanOrder (gameGrid w))
                (scanOrder_sorted _) (GameLogic.mkLoop w false false))
      as (Hinv' & Hrock' & _ & Hwhere).
    { split; [done|]. split; [done|]. split; [done|]. left.
      split; [done|]. split; [done|]. apply elem_of_scanOrder.
      apply getEntity_Some_valid, isValidPosition_spec in Hcell.
      apply isValidPosition_spec in Hvalid. lia. }
    change (GameLogic.world (foldl GameLogic.gravityStep _ _))
      with (GameLogic.world l1) in *.
    destruct Hwhere as [(_ & _ & Hin)|[Hdown _]]; [by apply elem_of_nil in Hin|].
    destruct Hinv' as [_ Hplaced].
    destruct (Hplaced _ _ _ Hdown Hrock') as [Hx Hy].
    subst p1. unfold stored. by rewrite Hx, Hy.
  - destruct Hp1' as [E1|E1], Hp2' as [E2|[E2|E2]];
      rewrite E2, E1; simpl; lia.
Qed.

Lemma drop_and_roll_inv : phys_inv drop_and_roll.
Proof. by apply phys_inv_check. Qed.

Lemma rock_moves_witness :
  stored (GameLogic.world
            (GameLogic.gravityPass (GameLogic.mkLoop drop_and_roll false false)))
         0%nat = (0, 1)
  ∧ stored (GameLogic.updatePhysics drop_and_roll).2 0%nat = (1, 2).
Proof.
  destruct (rock_moves_once_per_pass drop_and_roll 0%nat 0 0)
    as (Hturn & _ & Hfall & _); [apply drop_and_roll_inv | done | by left|].
  split; [by apply Hfall|]. by rewrite Hturn.
Defined.

(** C2 as stated fails: the top boulder of [drop_and_roll] falls one row in
    pass 1, lands on the resting boulder and rolls off it in pass 2 of the
    same turn, ending two rows down. *)
Lemma one_row_per_turn_fails : ¬ one_row_per_turn.
Proof.
  intros H.
  specialize (H drop_and_roll 0%nat 0 0 drop_and_roll_inv eq_refl).
  assert (Hy : ent_y (heap (GameLogic.updatePhysics drop_and_roll).2 0%nat) = 2)
    by reflexivity.
  rewrite Hy in H. specialize (H (or_introl eq_refl)). lia.
Qed.

(** ** Physics: the floor row is never visited *)

(** A gravity step writes to the rock of its own cell and, for a kill, to a
    player; every other object is left as it is. *)
Lemma tryMoveBoulderDown_frame w r0 x y r :
  getEntity (gameGrid w) x y = Some r0 →
  r ≠ r0 →
  type (heap w r) ≠ PLAYER →
  heap (GameLogic.tryMoveBoulderDown w r0 x y).2 r = heap w r.
Proof.
  intros Hc Hne Hnp. unfold GameLogic.tryMoveBoulderDown.
  destruct (isValidPosition (gameGrid w) x (y + 1)) eqn:Hv; cbn [negb];
    [|cbn; by rewrite mutate_other].
  destruct (getEntity (gameGrid w) x (y + 1)) as [b|] eqn:Hbelow.
  - destruct (bool_decide (type (heap w b) = PLAYER) && falling (heap w r0))
      eqn:Hkill; cbn; rewrite mutate_other; try done.
    intros ->. apply andb_true_iff in Hkill as [Hp _].
    by apply bool_decide_eq_true in Hp.
  - rewrite (moveEntity_ok _ _ _ _ _ r0); try done.
    + cbn. rewrite moved_world_heap_other by done. cbn. by rewrite mutate_other.
    + unfold holds_solid. cbn. by rewrite Hbelow.
Qed.

Lemma settle_frame w r0 x y r :
  r ≠ r0 → heap (GameLogic.settle w r0 x y) r = heap w r.
Proof.
  intros Hne. unfold GameLogic.settle.
  repeat case_match; try done. cbn. by rewrite mutate_other.
Qed.

Lemma gravityStep_frame l x y r :
  getEntity (gameGrid (GameLogic.world l)) x y ≠ Some r →
  type (heap (GameLogic.world l) r) ≠ PLAYER →
  heap (GameLogic.world (GameLogic.gravityStep l (x, y))) r
  = heap (GameLogic.world l) r.
Proof.
  intros Hcell Hnp. unfold GameLogic.gravityStep.
  set (w := GameLogic.world l) in *.
  destruct (getEntity (gameGrid w) x y) as [r0|] eqn:Hc; [|done].
  assert (Hne : r ≠ r0) by congruence.
  destruct (decide (is_rock (heap w r0))) as [Hrock|Hnot];
    [|by rewrite not_rock_test].
  rewrite tryMoveDiamondDown_eq, rock_test by done.
  pose proof (tryMoveBoulderDown_frame w r0 x y r Hc Hne Hnp) as Hframe.
  destruct (GameLogic.tryMoveBoulderDown w r0 x y) as [res w1].
  cbn in Hframe. cbn [GameLogic.world].
  destruct (moved res); [done|]. by rewrite settle_frame.
Qed.

(** A rolling step writes only to the rock of its own cell. *)
Lemma rollingStep_frame l x y r :
  getEntity (gameGrid (GameLogic.world l)) x y ≠ Some r →
  heap (GameLogic.world (GameLogic.rollingStep l (x, y))) r
  = heap (GameLogic.world l) r.
Proof.
  intros Hcell. unfold GameLogic.rollingStep.
  set (w := GameLogic.world l) in *.
  destruct (getEntity (gameGrid w) x y) as [r0|] eqn:Hc; [|done].
  assert (Hne : r ≠ r0) by congruence.
  rewrite rock_test_or. case_bool_decide as Hrock; [|done].
  destruct (tryRolling_cases w r0 x y Hc Hrock) as [Hsame|(d & Hd & Hcan & Hroll)].
  - destruct (GameLogic.tryRolling w r0 x y) as [res w1]. simpl in *. by subst w1.
  - rewrite Hroll. cbn [GameLogic.world]. unfold rolled_world. cbn [heap].
    by rewrite mutate_other, moved_world_heap_other.
Qed.

Section floor_row.
Variable step : GameLogic.Loop → Z * Z → GameLogic.Loop.

Hypothesis step_spec : ∀ l x y,
  stays (GameLogic.world l) (GameLogic.world (step l (x, y)))
  ∨ ∃ r0 t, relocates (GameLogic.world l) (GameLogic.world (step l (x, y)))
                      r0 (x, y) t.

Hypothesis step_frame : ∀ l x y r,
  getEntity (gameGrid (GameLogic.world l)) x y ≠ Some r →
  type (heap (GameLogic.world l) r) ≠ PLAYER →
  heap (GameLogic.world (step l (x, y))) r = heap (GameLogic.world l) r.

(** A rock whose row is below every cell the pass visits is not written
    to, and the pass keeps the invariant and the height of the grid. *)
Lemma unvisited_rock_untouched r todo :
  ∀ l,
    phys_inv (GameLogic.world l) →
    is_rock (heap (GameLogic.world l) r) →
    Forall (λ c, c.2 < ent_y (heap (GameLogic.world l) r)) todo →
    let l' := foldl step l todo in
    phys_inv (GameLogic.world l')
    ∧ heap (GameLogic.world l') r = heap (GameLogic.world l) r
    ∧ height (gameGrid (GameLogic.world l'))
      = height (gameGrid (GameLogic.world l)).
Proof.
  induction todo as [|[cx cy] todo IH]; intros l Hinv Hrock Hrows; [done|].
  inv Hrows. simpl in *.
  assert (Hcell : getEntity (gameGrid (GameLogic.world l)) cx cy ≠ Some r).
  { intros Hc. destruct Hinv as [_ Hplaced].
    destruct (Hplaced _ _ _ Hc Hrock). lia. }
  assert (Hnp : type (heap (GameLogic.world l) r) ≠ PLAYER).
  { destruct Hrock; congruence. }
  pose proof (step_frame l cx cy r Hcell Hnp) as Hsame.
  assert (Hinv' : phys_inv (GameLogic.world (step l (cx, cy)))
                  ∧ height (gameGrid (GameLogic.world (step l (cx, cy))))
                    = height (gameGrid (GameLogic.world l))).
  { destruct (step_spec l cx cy) as [Hstay | (r0 & t & Hrel)].
    - split; [by eapply stays_inv|]. destruct Hstay as [-> _]. done.
    - split; [by eapply relocates_inv|].
      destruct Hrel as (_ & _ & _ & _ & -> & _). done. }
  destruct Hinv' as [Hinv' Hheight].
  destruct (IH (step l (cx, cy))) as (Hinv2 & Hheap2 & Hheight2);
    rewrite ?Hsame; try done.
  split; [done|]. split; congruence.
Qed.

End floor_row.

(** A boulder or diamond on the floor row is never written to by
    [updatePhysics]: whatever its [falling] flag is, it keeps it. *)
Lemma floor_rock_keeps_its_flag (w : World) (r : ref) (x : Z) :
  phys_inv w →
  getEntity (gameGrid w) x (height (gameGrid w) - 1) = Some r →
  is_rock (heap w r) →
  heap (GameLogic.updatePhysics w).2 r = heap w r.
Proof.
  intros Hinv Hcell Hrock.
  pose proof Hinv as [_ Hplaced].
  destruct (Hplaced _ _ _ Hcell Hrock) as [_ Hy].
  assert (Hscan : ∀ g, height g = height (gameGrid w) →
            Forall (λ c, c.2 < ent_y (heap w r)) (GameLogic.scanOrder g)).
  { intros g Hg. apply Forall_forall. intros [cx cy] Hc%elem_of_scanOrder.
    simpl. lia. }
  unfold GameLogic.updatePhysics, GameLogic.rollingPass. simpl.
  set (l1 := GameLogic.gravityPass (GameLogic.mkLoop w false false)).
  destruct (unvisited_rock_untouched GameLogic.gravityStep) with
    (r := r) (todo := GameLogic.scanOrder (gameGrid w))
    (l := GameLogic.mkLoop w false false) as (Hinv1 & Hheap1 & Hheight1);
    try done.
  { intros l x' y'. destruct (gravityStep_spec l x' y') as [_ [?|[r0 ?]]];
      [by left|right; eauto]. }
  { apply gravityStep_frame. }
  { by apply Hscan. }
  change (foldl GameLogic.gravityStep _ _) with l1 in *. simpl in *.
  destruct (unvisited_rock_untouched GameLogic.rollingStep) with
    (r := r) (todo := GameLogic.scanOrder (gameGrid (GameLogic.world l1)))
    (l := l1) as (_ & Hheap2 & _).
  { intros l x' y'. destruct (rollingStep_spec l x' y') as [?|(r0 & d & _ & ?)];
      [by left|right; eauto]. }
  { intros l x' y' r' Hc _. by apply rollingStep_frame. }
  { done. }
  { unfold is_rock. by rewrite Hheap1. }
  { rewrite Hheap1. by apply Hscan. }
  by rewrite Hheap2.
Qed.

(** ** Where the earlier resolvers differ *)

(** [MovementSystem.handleBoulderPush] pushes a boulder upwards. *)
Remark earlier_push_goes_up :
  let r := MovementSystem.handleBoulderPush boulder_overhead 1%nat 0 1 UP in
  r.1 = true
  ∧ getEntity (gameGrid r.2) 0 0 = Some 0%nat
  ∧ getEntity (gameGrid r.2) 0 1 = Some 1%nat.
Proof. by repeat split. Qed.

(** [PhysicsSystem.tryRolling] rolls the upper boulder of [stacked_boulders]
    to the left, within its row, and leaves its [falling] flag unset. *)
Remark earlier_roll_goes_left :
  let r := PhysicsSystem.tryRolling stacked_boulders 0%nat 1 0 in
  r.1 = true
  ∧ getEntity (gameGrid r.2) 0 0 = Some 0%nat
  ∧ falling (heap r.2 0%nat) = false.
Proof. by repeat split. Qed.

(** [Level.isComplete] does not read the exit's [isOpen] flag. *)
Remark earlier_completion_ignores_isOpen :
  Level.isComplete unopened_level = true
  ∧ GameLogic.checkLevelComplete (lv_world unopened_level) = false.
Proof. by split. Qed.

(** ** The grid store: reads after writes and searches *)

Lemma setEntity_valid w x y e :
  isValidPosition (gameGrid w) x y = true →
  setEntity w x y e
  = (true,
     {| heap := match e with
                | Some r => mutate (setPosition x y) r (heap w)
                | None => heap w
                end;
        gameGrid := write_cell (gameGrid w) x y e |}).
Proof. intros Hv. unfold setEntity. by rewrite Hv. Qed.

Lemma getEntity_valid g x y :
  isValidPosition g x y = true → getEntity g x y = cell g x y.
Proof. unfold getEntity. by intros ->. Qed.

(** X1.  An in-bounds [setEntity] answers true; the cell then reads back what
    was written and every other cell reads as before; an entity that was
    written stores the cell's coordinates and no other object changes (the
    former occupant of the cell keeps its stale coordinates). *)
Theorem setEntity_then_getEntity (w : World) (x y : Z) (e : option ref) :
  grid_wf (gameGrid w) →
  isValidPosition (gameGrid w) x y = true →
  let w' := (setEntity w x y e).2 in
  (setEntity w x y e).1 = true
  ∧ grid_wf (gameGrid w')
  ∧ getDimensions (gameGrid w') = getDimensions (gameGrid w)
  ∧ getEntity (gameGrid w') x y = e
  ∧ (∀ x' y', (x', y') ≠ (x, y) →
       getEntity (gameGrid w') x' y' = getEntity (gameGrid w) x' y')
  ∧ (∀ r, e = Some r → heap w' r = setPosition x y (heap w r))
  ∧ (∀ r, e ≠ Some r → heap w' r = heap w r).
Proof.
  intros Hwf Hv w'. subst w'. rewrite setEntity_valid by done. simpl.
  split; [done|]. split; [by apply write_cell_wf|]. split; [done|].
  split; [rewrite getEntity_write_cell by done; by rewrite decide_True|].
  split; [|split].
  - intros x' y' Hne. rewrite getEntity_write_cell by done.
    by rewrite decide_False.
  - intros r ->. by rewrite mutate_same.
  - intros r Hr. destruct e as [r0|]; [|done].
    rewrite mutate_other; [done|congruence].
Qed.

Lemma setEntity_witness :
  getEntity (gameGrid (setEntity push_row 2 0 (Some 1%nat)).2) 2 0 = Some 1%nat
  ∧ getEntity (gameGrid (setEntity push_row 2 0 (Some 1%nat)).2) 1 0 = Some 1%nat
  ∧ ent_x (heap (setEntity push_row 2 0 (Some 1%nat)).2 1%nat) = 2.
Proof.
  destruct (setEntity_then_getEntity push_row 2 0 (Some 1%nat))
    as (_ & _ & _ & Hcell & Hother & Hpos & _);
    [by apply level_wf_check | done |].
  split; [done|]. split; [by rewrite Hother|]. by rewrite (Hpos 1%nat).
Defined.

(** X2.  [removeEntity] returns what [getEntity] read and leaves the cell
    empty; no other cell and no object changes, so the removed object keeps
    the coordinates it had; a second removal returns null. *)
Theorem removeEntity_takes_the_entity_out (w : World) (x y : Z) :
  grid_wf (gameGrid w) →
  let res := removeEntity w x y in
  res.1 = getEntity (gameGrid w) x y
  ∧ heap res.2 = heap w
  ∧ grid_wf (gameGrid res.2)
  ∧ getEntity (gameGrid res.2) x y = None
  ∧ (∀ x' y', (x', y') ≠ (x, y) →
       getEntity (gameGrid res.2) x' y' = getEntity (gameGrid w) x' y')
  ∧ (removeEntity res.2 x y).1 = None.
Proof.
  intros Hwf res. subst res. unfold removeEntity.
  destruct (isValidPosition (gameGrid w) x y) eqn:Hv; simpl.
  - rewrite setEntity_valid by done. simpl.
    change (isValidPosition (write_cell (gameGrid w) x y None) x y)
      with (isValidPosition (gameGrid w) x y).
    rewrite Hv. simpl.
    rewrite !getEntity_write_cell by done. rewrite decide_True by done.
    split; [done|]. split; [done|]. split; [by apply write_cell_wf|].
    split; [done|]. split; [|done].
    intros x' y' Hne. rewrite getEntity_write_cell by done.
    by rewrite decide_False.
  - rewrite Hv, (getEntity_invalid _ _ _ Hv). simpl. by do 5 (split; [done|]).
Qed.

Lemma removeEntity_witness :
  (removeEntity push_row 1 0).1 = Some 1%nat
  ∧ getEntity (gameGrid (removeEntity push_row 1 0).2) 1 0 = None
  ∧ ent_x (heap (removeEntity push_row 1 0).2 1%nat) = 1.
Proof.
  destruct (removeEntity_takes_the_entity_out push_row 1 0)
    as (Hret & Hheap & _ & Hcell & _); [by apply level_wf_check|].
  split; [by rewrite Hret|]. split; [done|]. by rewrite Hheap.
Defined.

(** The first hit of a search through a list. *)
Lemma head_omap_Some {A B} (f : A → option B) (l : list A) (b : B) :
  head (omap f l) = Some b →
  ∃ l1 a l2, l = l1 ++ a :: l2 ∧ f a = Some b ∧ Forall (λ a', f a' = None) l1.
Proof.
  induction l as [|a l IH]; [done|]. cbn. destruct (f a) as [b'|] eqn:E.
  - intros [= ->]. exists [], a, l. by repeat split.
  - intros H. destruct (IH H) as (l1 & a' & l2 & -> & Hf & Hall).
    exists (a :: l1), a', l2. repeat split; [done|]. by constructor.
Qed.

Lemma omap_nil_iff {A B} (f : A → option B) (l : list A) :
  omap f l = [] ↔ Forall (λ a, f a = None) l.
Proof.
  induction l as [|a l IH]; [by split|]. cbn. destruct (f a) eqn:E.
  - split; [done|]. intros H. inv H; congruence.
  - rewrite IH. split; [by constructor|]. intros H. by inv H.
Qed.

Lemma seqZ_ascends m n : StronglySorted Z.lt (seqZ m n).
Proof.
  destruct (decide (n ≤ 0)) as [Hn|Hn].
  { rewrite seqZ_nil by done. constructor. }
  replace n with (Z.of_nat (Z.to_nat n)) by lia.
  induction (Z.to_nat n) as [|k IH].
  - rewrite seqZ_nil by done. constructor.
  - rewrite seqZ_S. apply StronglySorted_app_2; [|done|repeat constructor].
    intros a b Ha%elem_of_seqZ Hb%list_elem_of_singleton. lia.
Qed.

(** [rowMajor] runs through the rows from top to bottom and through each row
    from left to right. *)
Lemma rowMajor_sorted g :
  StronglySorted (λ p q : Z * Z, p.2 < q.2 ∨ (p.2 = q.2 ∧ p.1 < q.1))
                 (rowMajor g).
Proof.
  unfold rowMajor.
  pose proof (seqZ_ascends 0 (height g)) as Hys.
  induction Hys as [|y ys Hsorted IH Hall]; [constructor|].
  rewrite bind_cons. apply StronglySorted_app_2; [|clear| done].
  - intros [x1 y1] [x2 y2] H1%elem_of_row H2%list_elem_of_bind.
    destruct H2 as (y0 & H2%elem_of_row & Hy0).
    rewrite Forall_forall in Hall. specialize (Hall _ Hy0). simpl. lia.
  - pose proof (seqZ_ascends 0 (width g)) as Hxs.
    induction Hxs as [|x xs Hsx IHx Hallx]; [constructor|].
    rewrite bind_cons. simpl. constructor; [done|].
    apply Forall_forall. intros [x2 y2] H2%list_elem_of_bind.
    destruct H2 as (x0 & H2%list_elem_of_singleton & Hx0).
    rewrite Forall_forall in Hallx. specialize (Hallx _ Hx0).
    simplify_eq/=. lia.
Qed.

Lemma has_type_Some h t c r :
  has_type h t c = Some r ↔ c = Some r ∧ type (h r) = t.
Proof.
  unfold has_type. destruct c as [r'|]; [|by split; [|intros []]].
  case_decide; split; try done.
  - by intros [= ->].
  - by intros [[= ->] _].
  - intros [[= ->] ?]. done.
Qed.

Lemma has_type_None h t c :
  has_type h t c = None ↔ ∀ r, c = Some r → type (h r) ≠ t.
Proof.
  unfold has_type. destruct c as [r'|]; [|by split].
  case_decide; split; try done.
  - intros H'. by destruct (H' r' eq_refl).
  - by intros _ r [= ->].
Qed.

Lemma getEntity_rowMajor g x y r :
  getEntity g x y = Some r ↔ (x, y) ∈ rowMajor g ∧ cell g x y = Some r.
Proof.
  rewrite elem_of_rowMajor, <- isValidPosition_spec. unfold getEntity.
  destruct (isValidPosition g x y); simpl; split; try done; by intros [].
Qed.

Lemma findEntityByType_None_iff (w : World) (t : EntityType) :
  findEntityByType w t = None
  ↔ ∀ x y r, getEntity (gameGrid w) x y = Some r → type (heap w r) ≠ t.
Proof.
  unfold findEntityByType.
  rewrite head_None, omap_nil_iff, Forall_forall. split.
  - intros Hall x y r [Hin Hcell]%getEntity_rowMajor.
    specialize (Hall _ Hin). simpl in Hall.
    rewrite has_type_None in Hall. by apply Hall.
  - intros Hnone [x y] Hin. simpl. apply has_type_None. intros r Hcell.
    apply (Hnone x y). by apply getEntity_rowMajor.
Qed.

Lemma findEntityByType_Some_first (w : World) (t : EntityType) (r : ref) :
  findEntityByType w t = Some r →
  ∃ x y, getEntity (gameGrid w) x y = Some r
    ∧ type (heap w r) = t
    ∧ ∀ x' y' r', getEntity (gameGrid w) x' y' = Some r' →
                  type (heap w r') = t →
                  y < y' ∨ (y = y' ∧ x ≤ x').
Proof.
  unfold findEntityByType.
  intros (l1 & [x y] & l2 & Hsplit & Hhit & Hmiss)%head_omap_Some.
  simpl in Hhit. apply has_type_Some in Hhit as [Hcell Htype].
  assert (Hin : (x, y) ∈ rowMajor (gameGrid w)).
  { rewrite Hsplit. apply elem_of_app. right. by left. }
  exists x, y. split; [by apply getEntity_rowMajor|]. split; [done|].
  intros x' y' r' [Hin' Hcell']%getEntity_rowMajor Htype'.
  rewrite Hsplit in Hin'. apply elem_of_app in Hin' as [Hl1|Hl2].
  { rewrite Forall_forall in Hmiss. specialize (Hmiss _ Hl1). simpl in Hmiss.
    rewrite has_type_None in Hmiss. by destruct (Hmiss _ Hcell'). }
  apply elem_of_cons in Hl2 as [[= -> ->]|Hl2]; [lia|].
  pose proof (rowMajor_sorted (gameGrid w)) as Hsorted.
  rewrite Hsplit in Hsorted. apply StronglySorted_app_1_r in Hsorted.
  inv Hsorted.
  match goal with H : Forall _ l2 |- _ => rewrite Forall_forall in H;
    specialize (H _ Hl2); simpl in H end.
  lia.
Qed.

(** The only entity of its type in the grid is the one that is found. *)
Lemma findEntityByType_unique (w : World) (t : EntityType) (r : ref) :
  (∃ x y, getEntity (gameGrid w) x y = Some r) →
  type (heap w r) = t →
  (∀ x y r', getEntity (gameGrid w) x y = Some r' → type (heap w r') = t →
             r' = r) →
  findEntityByType w t = Some r.
Proof.
  intros (x & y & Hcell) Htype Honly.
  destruct (findEntityByType w t) as [r'|] eqn:Hfind.
  - destruct (findEntityByType_Some_first _ _ _ Hfind) as (x' & y' & Hc & Ht & _).
    f_equal. eauto.
  - rewrite findEntityByType_None_iff in Hfind. by destruct (Hfind _ _ _ Hcell).
Qed.

(** X3.  [findEntityByType] answers null exactly when no cell holds an entity
    of the type; otherwise it returns an entity of the type that a cell
    holds, and no entity of the type sits in an earlier row, or further left
    in the same row. *)
Theorem findEntityByType_finds_the_first (w : World) (t : EntityType) :
  (findEntityByType w t = None
   ↔ ∀ x y r, getEntity (gameGrid w) x y = Some r → type (heap w r) ≠ t)
  ∧ (∀ r, findEntityByType w t = Some r →
       ∃ x y, getEntity (gameGrid w) x y = Some r
         ∧ type (heap w r) = t
         ∧ ∀ x' y' r', getEntity (gameGrid w) x' y' = Some r' →
                       type (heap w r') = t →
                       y < y' ∨ (y = y' ∧ x ≤ x')).
Proof.
  split; [apply findEntityByType_None_iff|apply findEntityByType_Some_first].
Qed.

Lemma omap_has_type (h : Heap) (t : EntityType) (f : Z * Z → option ref)
    (l : list (Z * Z)) :
  omap (λ p, has_type h t (f p)) l = filter (λ r, type (h r) = t) (omap f l).
Proof.
  induction l as [|p l IH]; [done|]. cbn. unfold has_type at 1.
  destruct (f p) as [r|]; [|done].
  case_decide.
  - rewrite filter_cons_True by done. by f_equal.
  - by rewrite filter_cons_False.
Qed.

(** X4.  [findAllEntitiesByType] lists exactly the entities of the type that
    the cells hold: it is [getAllEntities], which lists the contents of the
    occupied cells, restricted to the type, and [findEntityByType] returns
    its first element. *)
Theorem findAllEntitiesByType_lists_the_type (w : World) (t : EntityType) :
  (∀ r, r ∈ getAllEntities (gameGrid w)
        ↔ ∃ x y, getEntity (gameGrid w) x y = Some r)
  ∧ (∀ r, r ∈ findAllEntitiesByType w t
          ↔ ∃ x y, getEntity (gameGrid w) x y = Some r ∧ type (heap w r) = t)
  ∧ findAllEntitiesByType w t
    = filter (λ r, type (heap w r) = t) (getAllEntities (gameGrid w))
  ∧ findEntityByType w t = head (findAllEntitiesByType w t).
Proof.
  assert (Hall : ∀ r, r ∈ getAllEntities (gameGrid w)
                      ↔ ∃ x y, getEntity (gameGrid w) x y = Some r).
  { intros r. unfold getAllEntities. rewrite list_elem_of_omap. split.
    - intros ([x y] & Hin & Hcell). exists x, y. by apply getEntity_rowMajor.
    - intros (x & y & [Hin Hcell]%getEntity_rowMajor). by exists (x, y). }
  assert (Hfilter : findAllEntitiesByType w t
                    = filter (λ r, type (heap w r) = t)
                             (getAllEntities (gameGrid w))).
  { unfold findAllEntitiesByType, getAllEntities.
    apply (omap_has_type (heap w) t (λ p, cell (gameGrid w) p.1 p.2)). }
  split; [done|]. split; [|by split].
  intros r. rewrite Hfilter, list_elem_of_filter, Hall. split.
  - intros [Ht (x & y & Hc)]. eauto.
  - intros (x & y & Hc & Ht). eauto.
Qed.

Lemma cell_initializeGrid width height g x y :
  grid g = initializeGrid width height → cell g x y = None.
Proof.
  intros Hg. unfold cell. rewrite Hg. unfold initializeGrid.
  destruct (replicate _ _ !! Z.to_nat y) as [row|] eqn:Hrow; [|done].
  apply lookup_replicate in Hrow as [-> _].
  destruct (replicate _ _ !! Z.to_nat x) as [c|] eqn:Hc; [|done].
  by apply lookup_replicate in Hc as [-> _].
Qed.

(** X5.  [clear] (and the constructor, which builds the same array) yields a
    well-formed grid of the same dimensions in which every cell is empty, so
    that [getAllEntities] is empty and [findEntityByType] finds nothing.
    [Level.reset] only clears: afterwards the level has no player, counts no
    diamonds and is never complete. *)
Theorem clear_empties_the_grid (g : GameGrid) :
  grid_wf (clear g)
  ∧ getDimensions (clear g) = getDimensions g
  ∧ new_GameGrid (width g) (height g) = clear g
  ∧ (∀ x y, getEntity (clear g) x y = None)
  ∧ getAllEntities (clear g) = []
  ∧ (∀ h t, findEntityByType {| heap := h; gameGrid := clear g |} t = None)
  ∧ (∀ l, Level.getPlayer (Level.reset l) = None
          ∧ Level.getDiamondsRemaining (Level.reset l) = 0
          ∧ Level.isComplete (Level.reset l) = false).
Proof.
  assert (Hcell : ∀ g0 x y, cell (clear g0) x y = None).
  { intros g0 x y. by eapply cell_initializeGrid. }
  assert (Hfind : ∀ g0 h t,
            omap (λ p, has_type h t (cell (clear g0) p.1 p.2))
                 (rowMajor (clear g0)) = []).
  { intros g0 h t. apply omap_nil_iff, Forall_forall. intros p _.
    by rewrite Hcell. }
  split; [|split; [done|split; [done|split; [|split; [|split]]]]].
  - split; simpl; unfold initializeGrid.
    + by rewrite length_replicate.
    + apply Forall_forall. intros row Hrow%elem_of_replicate.
      destruct Hrow as [-> _]. by rewrite length_replicate.
  - intros x y. unfold getEntity. rewrite Hcell. by case_match.
  - apply omap_nil_iff, Forall_forall. intros p _. apply Hcell.
  - intros h t. unfold findEntityByType. simpl. by rewrite Hfind.
  - intros l. split; [done|]. split; [|done].
    unfold Level.getDiamondsRemaining, findAllEntitiesByType. simpl.
    by rewrite Hfind.
Qed.

(** X6.  A successful [moveEntity] of an entity that stores the coordinates
    of its source cell leaves it animating from that cell: although
    [setPosition] runs twice, the previous position is the source, the
    interpolated position at progress [p] lies the fraction [p] of the way
    from the source to the destination (the source at 0, the destination at
    1), and after [resetAnimation] it is the destination at every progress. *)
Theorem moved_entity_animates_from_its_old_cell
    (w : World) (fromX fromY toX toY : Z) (r : ref) :
  isValidPosition (gameGrid w) toX toY = true →
  getEntity (gameGrid w) fromX fromY = Some r →
  holds_solid w toX toY = false →
  stored w r = (fromX, fromY) →
  (fromX, fromY) ≠ (toX, toY) →
  let e' := heap (moveEntity w fromX fromY toX toY).2 r in
  isAnimating e' = true
  ∧ (previousX e', previousY e') = (fromX, fromY)
  ∧ (ent_x e', ent_y e') = (toX, toY)
  ∧ (∀ p, (getInterpolatedPosition p e').1
          == inject_Z fromX + inject_Z (toX - fromX) * p
          ∧ (getInterpolatedPosition p e').2
            == inject_Z fromY + inject_Z (toY - fromY) * p)%Q
  ∧ ((getInterpolatedPosition 0 e').1 == inject_Z fromX
     ∧ (getInterpolatedPosition 0 e').2 == inject_Z fromY)%Q
  ∧ ((getInterpolatedPosition 1 e').1 == inject_Z toX
     ∧ (getInterpolatedPosition 1 e').2 == inject_Z toY)%Q
  ∧ (∀ p, getInterpolatedPosition p (resetAnimation e')
          = (inject_Z toX, inject_Z toY)).
Proof.
  intros Hto Hfrom Hsolid [= Hx Hy] Hne e'. subst e'.
  rewrite (moveEntity_ok _ _ _ _ _ r) by done. simpl.
  rewrite moved_world_heap_same.
  assert (Hchanging : negb (toX =? ent_x (heap w r))
                      || negb (toY =? ent_y (heap w r)) = true).
  { rewrite Hx, Hy. apply orb_true_iff.
    destruct (decide (toX = fromX)) as [->|Hnx].
    - right. apply negb_true_iff, Z.eqb_neq. congruence.
    - left. by apply negb_true_iff, Z.eqb_neq. }
  assert (Hinterp : ∀ p,
    getInterpolatedPosition p (setPosition toX toY (heap w r))
    = ((inject_Z fromX + inject_Z (toX - fromX) * p)%Q,
       (inject_Z fromY + inject_Z (toY - fromY) * p)%Q)).
  { intros p. unfold getInterpolatedPosition, setPosition. simpl.
    rewrite Hchanging. simpl. by rewrite Hx, Hy. }
  unfold setPosition at 1 2 3 4 5. simpl. rewrite Hchanging, Hx, Hy.
  split; [done|]. split; [done|]. split; [done|].
  split; [intros p; by rewrite Hinterp|].
  split; [rewrite Hinterp; simpl; split; ring|].
  split; [|done].
  rewrite Hinterp. simpl. unfold Z.sub.
  rewrite !inject_Z_plus, !inject_Z_opp. split; ring.
Qed.

Lemma moved_entity_witness :
  previousX (heap (moveEntity push_row 1 0 2 0).2 1%nat) = 1
  ∧ ((getInterpolatedPosition (1 # 2)
        (heap (moveEntity push_row 1 0 2 0).2 1%nat)).1 == 3 # 2)%Q.
Proof.
  destruct (moved_entity_animates_from_its_old_cell push_row 1 0 2 0 1%nat)
    as (_ & Hprev & _ & Hmid & _); [done..|].
  split; [exact (f_equal fst Hprev)|].
  destruct (Hmid (1 # 2)%Q) as [Hx _]. rewrite Hx. reflexivity.
Defined.

(** ** Movement: what each kind of target does *)

Lemma moved_world_grid w r fx fy tx ty :
  gameGrid (moved_world w r fx fy tx ty)
  = write_cell (write_cell (gameGrid w) fx fy None) tx ty (Some r).
Proof. reflexivity. Qed.

Lemma moved_world_valid w r fx fy tx ty x y :
  isValidPosition (gameGrid (moved_world w r fx fy tx ty)) x y
  = isValidPosition (gameGrid w) x y.
Proof. reflexivity. Qed.

Lemma moved_world_wf w r fx fy tx ty :
  grid_wf (gameGrid w) → grid_wf (gameGrid (moved_world w r fx fy tx ty)).
Proof. intros Hwf. rewrite moved_world_grid. by do 2 apply write_cell_wf. Qed.

(** [moveEntity] either refuses and returns the state as it was, or moves the
    entity of the source cell. *)
Lemma moveEntity_cases w fromX fromY toX toY :
  moveEntity w fromX fromY toX toY = (false, w)
  ∨ ∃ r, getEntity (gameGrid w) fromX fromY = Some r
         ∧ isValidPosition (gameGrid w) toX toY = true
         ∧ holds_solid w toX toY = false
         ∧ moveEntity w fromX fromY toX toY
           = (true, moved_world w r fromX fromY toX toY).
Proof.
  unfold moveEntity at 1.
  destruct (isValidPosition (gameGrid w) fromX fromY) eqn:Hf; [|by left].
  destruct (isValidPosition (gameGrid w) toX toY) eqn:Ht; [|by left].
  destruct (getEntity (gameGrid w) fromX fromY) as [r|] eqn:Hfrom; [|by left].
  destruct (holds_solid w toX toY) eqn:Hs; [by left|].
  right. exists r. repeat split; try done. by apply moveEntity_ok.
Qed.

(** [movePlayer] for the player [findEntityByType] returns, with the target
    cell named. *)
Lemma movePlayer_at w dir player :
  findEntityByType w PLAYER = Some player →
  GameLogic.movePlayer w dir
  = if negb (alive (heap w player)) then (result_of false, w)
    else
      let newX := (target_of w player dir).1 in
      let newY := (target_of w player dir).2 in
      if negb (isValidPosition (gameGrid w) newX newY) then (result_of false, w)
      else
        match getEntity (gameGrid w) newX newY with
        | None => GameLogic.executePlayerMove w player newX newY
        | Some target =>
            match type (heap w target) with
            | DIRT => GameLogic.handleDirtMovement w player target newX newY
            | DIAMOND =>
                GameLogic.handleDiamondCollection w player target newX newY
            | BOULDER => GameLogic.handleBoulderPush w player newX newY dir
            | WALL => (result_of false, w)
            | EXIT => GameLogic.handleExitMovement w player target newX newY
            | _ => (result_of false, w)
            end
        end.
Proof.
  intros Hfind. unfold GameLogic.movePlayer, target_of. rewrite Hfind.
  by destruct (GameLogic.getDirectionVector dir).
Qed.

Section player_move.
Variable w : World.
Variable dir : Direction.
Variable player : ref.
Variables px py tx ty : Z.
Hypothesis Hwf : grid_wf (gameGrid w).
Hypothesis Hhome : player_at_home w player.
Hypothesis Hpos : stored w player = (px, py).
Hypothesis Htarget : target_of w player dir = (tx, ty).

Lemma stored_x : ent_x (heap w player) = px.
Proof. by injection Hpos. Qed.

Lemma stored_y : ent_y (heap w player) = py.
Proof. by injection Hpos. Qed.

Lemma home_cell : getEntity (gameGrid w) px py = Some player.
Proof. destruct Hhome as [_ Hcell]. by rewrite stored_x, stored_y in Hcell. Qed.

Lemma target_is_not_home : (tx, ty) ≠ (px, py).
Proof.
  rewrite <- Htarget, <- Hpos. unfold target_of, stored.
  apply direction_vector_nonzero.
Qed.

Lemma player_type : type (heap w player) = PLAYER.
Proof.
  destruct Hhome as [Hfind _]. by destruct (findEntityByType_Some _ _ _ Hfind).
Qed.

Lemma home_valid : isValidPosition (gameGrid w) px py = true.
Proof. eapply getEntity_Some_valid, home_cell. Qed.

(** Entering a free cell. *)
Lemma enter_free :
  isValidPosition (gameGrid w) tx ty = true →
  getEntity (gameGrid w) tx ty = None →
  GameLogic.executePlayerMove w player tx ty
  = (result_of true, moved_world w player px py tx ty).
Proof.
  intros Hv Hfree. pose proof home_cell as Hcell.
  rewrite executePlayerMove_ok; rewrite ?stored_x, ?stored_y; try done.
  unfold holds_solid. by rewrite Hfree.
Qed.

(** Digging. *)
Lemma enter_dirt dirt :
  getEntity (gameGrid w) tx ty = Some dirt →
  type (heap w dirt) = DIRT →
  GameLogic.handleDirtMovement w player dirt tx ty
  = (result_of true,
     moved_world {| heap := mutate dig dirt (heap w); gameGrid := gameGrid w |}
                 player px py tx ty).
Proof.
  intros Hcell_t Htype. pose proof home_cell as Hcell.
  pose proof player_type as Hp.
  assert (Hne : player ≠ dirt) by (intros ->; congruence).
  unfold GameLogic.handleDirtMovement.
  rewrite executePlayerMove_ok; cbn [heap gameGrid];
    rewrite ?mutate_other, ?stored_x, ?stored_y by done; try done.
  - by apply getEntity_Some_valid in Hcell_t.
  - unfold holds_solid. cbn [heap gameGrid]. rewrite Hcell_t.
    by rewrite mutate_same.
Qed.

(** Collecting. *)
Lemma enter_diamond diamond :
  getEntity (gameGrid w) tx ty = Some diamond →
  type (heap w diamond) = DIAMOND →
  GameLogic.handleDiamondCollection w player diamond tx ty
  = ({| success := true; diamondCollected := Some true; playerDied := None;
        levelComplete := None; scoreChange := points (heap w diamond) |},
     moved_world {| heap := mutate collectDiamond player (heap w);
                    gameGrid := write_cell (gameGrid w) tx ty None |}
                 player px py tx ty).
Proof.
  intros Hcell_t Htype. pose proof home_cell as Hcell.
  pose proof player_type as Hp. pose proof target_is_not_home as Hnz.
  pose proof (getEntity_Some_valid _ _ _ _ Hcell_t) as Hvt.
  assert (Hne : diamond ≠ player) by (intros ->; congruence).
  set (w2 := {| heap := mutate collectDiamond player (heap w);
                gameGrid := write_cell (gameGrid w) tx ty None |}).
  assert (Hpos2 : ent_x (heap w2 player) = px ∧ ent_y (heap w2 player) = py).
  { cbn [heap w2]. rewrite mutate_same, <- stored_x, <- stored_y.
    unfold collectDiamond. by destruct (fields (heap w player)). }
  destruct Hpos2 as [Hx2 Hy2].
  assert (Hmove : GameLogic.executePlayerMove w2 player tx ty
                  = (result_of true, moved_world w2 player px py tx ty)).
  { rewrite executePlayerMove_ok; rewrite ?Hx2, ?Hy2; try done.
    - cbn [gameGrid w2]. rewrite getEntity_write_cell by done.
      by rewrite decide_False.
    - unfold holds_solid; cbn [gameGrid w2].
      rewrite getEntity_write_cell by done. by rewrite decide_True. }
  unfold GameLogic.handleDiamondCollection, removeEntity, setEntity.
  cbn [heap gameGrid]. rewrite Hvt. cbn [negb snd]. fold w2. rewrite Hmove.
  cbn [success playerDied levelComplete result_of].
  rewrite moved_world_heap_other by done. cbn [heap w2].
  by rewrite mutate_other.
Qed.

(** Pushing sideways. *)
Lemma enter_boulder boulder bx by_ :
  getEntity (gameGrid w) tx ty = Some boulder →
  type (heap w boulder) = BOULDER →
  (tx + (GameLogic.getDirectionVector dir).1,
   ty + (GameLogic.getDirectionVector dir).2) = (bx, by_) →
  GameLogic.handleBoulderPush w player tx ty dir
  = if bool_decide (dir = UP) || bool_decide (dir = DOWN)
    then (result_of false, w)
    else if isValidPosition (gameGrid w) bx by_
            && bool_decide (getEntity (gameGrid w) bx by_ = None)
    then (result_of true,
          moved_world (moved_world w boulder tx ty bx by_) player px py tx ty)
    else (result_of false, w).
Proof.
  intros Hcell_t Htype Hb. pose proof home_cell as Hcell.
  pose proof player_type as Hp. pose proof target_is_not_home as Hnz.
  pose proof home_valid as Hvp.
  pose proof (getEntity_Some_valid _ _ _ _ Hcell_t) as Hvt.
  assert (Hne : player ≠ boulder) by (intros ->; congruence).
  unfold GameLogic.handleBoulderPush.
  destruct (bool_decide (dir = UP) || bool_decide (dir = DOWN)); [done|].
  assert (Hbeyond : (bx, by_) ≠ (px, py) ∧ (bx, by_) ≠ (tx, ty)).
  { pose proof Htarget as Ht. pose proof stored_x. pose proof stored_y.
    unfold target_of in Ht.
    destruct dir; simpl in *; simplify_eq; split; intros [=]; lia. }
  destruct Hbeyond as [Hbp Hbt].
  destruct (GameLogic.getDirectionVector dir) as [dx dy].
  cbn [fst snd] in Hb. injection Hb as -> ->.
  destruct (isValidPosition (gameGrid w) bx by_) eqn:Hvb;
    cbn [negb andb]; [|done].
  destruct (getEntity (gameGrid w) bx by_) as [b|] eqn:Hbc;
    [by rewrite bool_decide_eq_false_2|].
  rewrite bool_decide_eq_true_2 by done.
  rewrite (moveEntity_ok _ _ _ _ _ boulder); try done;
    [|unfold holds_solid; by rewrite Hbc].
  cbn [negb].
  rewrite executePlayerMove_ok;
    rewrite ?moved_world_heap_other, ?stored_x, ?stored_y by done; try done.
  - rewrite moved_world_getEntity by done.
    rewrite decide_False by (intros E; by apply Hbp).
    by rewrite decide_False by (intros E; by apply Hnz).
  - unfold holds_solid. rewrite moved_world_getEntity by done.
    rewrite decide_False by (intros E; by apply Hbt).
    by rewrite decide_True.
Qed.

End player_move.

(** X7.  With the player in the cell whose coordinates it stores, a move
    that is refused leaves the whole state as it was.  A move is refused
    when the player is dead, when the target is outside the grid, when the
    target holds a wall (or an object retagged EMPTY, or a player), and when
    it holds an exit whose quota the player has not reached. *)
Theorem refused_move_changes_nothing
    (w : World) (dir : Direction) (player : ref) :
  grid_wf (gameGrid w) →
  player_at_home w player →
  let res := GameLogic.movePlayer w dir in
  let t := target_of w player dir in
  (success res.1 = false → res.2 = w)
  ∧ (alive (heap w player) = false → success res.1 = false)
  ∧ (isValidPosition (gameGrid w) t.1 t.2 = false → success res.1 = false)
  ∧ (∀ b, getEntity (gameGrid w) t.1 t.2 = Some b →
          type (heap w b) = WALL ∨ type (heap w b) = EMPTY
          ∨ type (heap w b) = PLAYER →
          success res.1 = false)
  ∧ (∀ exit n q, getEntity (gameGrid w) t.1 t.2 = Some exit →
                 type (heap w exit) = EXIT →
                 diamondsCollected (heap w player) = Some n →
                 diamondsRequired (heap w exit) = Some q →
                 n < q →
                 success res.1 = false).
Proof.
  intros Hwf Hhome res t. subst res t. pose proof Hhome as [Hfind Hcell].
  rewrite (movePlayer_at _ _ _ Hfind).
  destruct (target_of w player dir) as [tx ty] eqn:Htarget. cbn [fst snd].
  cbv zeta.
  split; [|split; [|split; [|split]]].
  - destruct (alive (heap w player)); [|done]. cbn [negb].
    destruct (isValidPosition (gameGrid w) tx ty) eqn:Hv; [|done]. cbn [negb].
    destruct (getEntity (gameGrid w) tx ty) as [b|] eqn:Hb.
    + destruct (type (heap w b)) eqn:Htype; try done.
      * erewrite enter_boulder by (try done; reflexivity).
        repeat case_match; done.
      * by erewrite enter_diamond by (try done; reflexivity).
      * by erewrite enter_dirt by (try done; reflexivity).
      * unfold GameLogic.handleExitMovement. by repeat case_match.
    + by erewrite enter_free by (try done; reflexivity).
  - by intros ->.
  - intros ->. by destruct (alive (heap w player)).
  - intros b Hb Htype. destruct (alive (heap w player)); [|done].
    destruct (isValidPosition (gameGrid w) tx ty); [|done]. cbn [negb].
    rewrite Hb. by destruct Htype as [-> | [-> | ->]].
  - intros exit n q Hb Htype Hn Hq Hlt.
    destruct (alive (heap w player)); [|done].
    destruct (isValidPosition (gameGrid w) tx ty); [|done]. cbn [negb].
    rewrite Hb, Htype. unfold GameLogic.handleExitMovement.
    rewrite Hn, Hq. cbn [or_zero num_lt].
    by rewrite (proj2 (Z.ltb_lt n q)).
Qed.

Lemma push_row_wf : grid_wf (gameGrid push_row).
Proof. by apply level_wf_check. Qed.

Lemma refused_move_witness :
  (GameLogic.movePlayer push_row DOWN).2 = push_row
  ∧ success (GameLogic.movePlayer push_row UP).1 = false.
Proof.
  destruct (refused_move_changes_nothing push_row DOWN 0%nat)
    as (Hsame & _); [apply push_row_wf | by split |].
  destruct (refused_move_changes_nothing push_row UP 0%nat)
    as (_ & _ & Hout & _); [apply push_row_wf | by split |].
  split; [by apply Hsame | by apply Hout].
Defined.

(** Every outcome of [movePlayer] for a player at home: a refusal, or one of
    the five ways of entering the target cell. *)
Lemma movePlayer_cases w dir player px py tx ty :
  grid_wf (gameGrid w) →
  player_at_home w player →
  stored w player = (px, py) →
  target_of w player dir = (tx, ty) →
  (success (GameLogic.movePlayer w dir).1 = false
   ∧ (GameLogic.movePlayer w dir).2 = w)
  ∨ (alive (heap w player) = true
     ∧ isValidPosition (gameGrid w) tx ty = true
     ∧ ((getEntity (gameGrid w) tx ty = None
         ∧ GameLogic.movePlayer w dir
           = (result_of true, moved_world w player px py tx ty))
        ∨ (∃ dirt,
             getEntity (gameGrid w) tx ty = Some dirt
             ∧ type (heap w dirt) = DIRT
             ∧ GameLogic.movePlayer w dir
               = (result_of true,
                  moved_world {| heap := mutate dig dirt (heap w);
                                 gameGrid := gameGrid w |}
                              player px py tx ty))
        ∨ (∃ diamond,
             getEntity (gameGrid w) tx ty = Some diamond
             ∧ type (heap w diamond) = DIAMOND
             ∧ GameLogic.movePlayer w dir
               = ({| success := true; diamondCollected := Some true;
                     playerDied := None; levelComplete := None;
                     scoreChange := points (heap w diamond) |},
                  moved_world
                    {| heap := mutate collectDiamond player (heap w);
                       gameGrid := write_cell (gameGrid w) tx ty None |}
                    player px py tx ty))
        ∨ (∃ boulder bx by_,
             getEntity (gameGrid w) tx ty = Some boulder
             ∧ type (heap w boulder) = BOULDER
             ∧ (dir = LEFT ∨ dir = RIGHT)
             ∧ (tx + (GameLogic.getDirectionVector dir).1,
                ty + (GameLogic.getDirectionVector dir).2) = (bx, by_)
             ∧ isValidPosition (gameGrid w) bx by_ = true
             ∧ getEntity (gameGrid w) bx by_ = None
             ∧ GameLogic.movePlayer w dir
               = (result_of true,
                  moved_world (moved_world w boulder tx ty bx by_)
                              player px py tx ty))
        ∨ (∃ exit,
             getEntity (gameGrid w) tx ty = Some exit
             ∧ type (heap w exit) = EXIT
             ∧ num_lt (diamondsCollected (heap w player))
                      (Some (or_zero (diamondsRequired (heap w exit)))) = false
             ∧ solid (heap w exit) = false
             ∧ GameLogic.movePlayer w dir
               = ({| success := true; diamondCollected := None;
                     playerDied := None; levelComplete := Some true;
                     scoreChange := None |},
                  {| heap := mutate (setPosition tx ty) player (heap w);
                     gameGrid := gameGrid w |})))).
Proof.
  intros Hwf Hhome Hpos Htarget. pose proof Hhome as [Hfind Hcell].
  rewrite (movePlayer_at _ _ _ Hfind), Htarget. cbn [fst snd]. cbv zeta.
  destruct (alive (heap w player)); [|by left]. cbn [negb].
  destruct (isValidPosition (gameGrid w) tx ty) eqn:Hv; [|by left]. cbn [negb].
  destruct (getEntity (gameGrid w) tx ty) as [b|] eqn:Hb.
  - destruct (type (heap w b)) eqn:Htype; try by left.
    + erewrite enter_boulder by (try done; reflexivity).
      destruct (bool_decide (dir = UP) || bool_decide (dir = DOWN)) eqn:Hvert;
        [by left|].
      set (bx := tx + (GameLogic.getDirectionVector dir).1).
      set (by_ := ty + (GameLogic.getDirectionVector dir).2).
      destruct (isValidPosition (gameGrid w) bx by_) eqn:Hvb; [|by left].
      cbn [andb].
      destruct (getEntity (gameGrid w) bx by_) as [c|] eqn:Hfree;
        [rewrite bool_decide_eq_false_2 by done; by left|].
      rewrite bool_decide_eq_true_2 by done.
      right. split; [done|]. split; [done|]. do 3 right. left.
      eexists b, _, _. repeat split; try done.
      destruct dir; auto; done.
    + right. split; [done|]. split; [done|]. do 2 right. left. exists b.
      split; [done|]. split; [done|].
      by eapply enter_diamond.
    + right. split; [done|]. split; [done|]. right. left. exists b.
      split; [done|]. split; [done|].
      by eapply enter_dirt.
    + unfold GameLogic.handleExitMovement.
      destruct (num_lt _ _) eqn:Hlt; [by left|].
      destruct (solid (heap w b)) eqn:Hsolid; [by left|].
      right. split; [done|]. split; [done|]. do 4 right. by exists b.
  - right. split; [done|]. split; [done|]. left. split; [done|].
    by eapply enter_free.
Qed.

(** X8.  A live player at home who moves towards a free cell of the grid
    enters it: the cell then holds the player, the old cell is empty, no
    other cell changes, the player object is the old one with
    [setPosition] applied, and no other object changes. *)
Theorem walking_into_a_free_cell (w : World) (dir : Direction) (player : ref) :
  grid_wf (gameGrid w) →
  player_at_home w player →
  alive (heap w player) = true →
  let t := target_of w player dir in
  let home := stored w player in
  isValidPosition (gameGrid w) t.1 t.2 = true →
  getEntity (gameGrid w) t.1 t.2 = None →
  let res := GameLogic.movePlayer w dir in
  res.1 = result_of true
  ∧ getEntity (gameGrid res.2) t.1 t.2 = Some player
  ∧ getEntity (gameGrid res.2) home.1 home.2 = None
  ∧ (∀ x y, (x, y) ≠ t → (x, y) ≠ home →
            getEntity (gameGrid res.2) x y = getEntity (gameGrid w) x y)
  ∧ heap res.2 player = setPosition t.1 t.2 (heap w player)
  ∧ (∀ r, r ≠ player → heap res.2 r = heap w r).
Proof.
  intros Hwf Hhome Halive t home Hv Hfree res. subst res.
  destruct (target_of w player dir) as [tx ty] eqn:Htarget.
  destruct (stored w player) as [px py] eqn:Hpos. subst t home.
  cbn [fst snd] in *. pose proof Hhome as [Hfind Hcell].
  assert (Hnz : (tx, ty) ≠ (px, py)) by (by eapply target_is_not_home).
  assert (Hvp : isValidPosition (gameGrid w) px py = true)
    by (by eapply home_valid).
  rewrite (movePlayer_at _ _ _ Hfind), Halive, Htarget. cbn [fst snd negb].
  cbv zeta. rewrite Hv, Hfree. cbn [negb].
  erewrite enter_free by done. cbn [fst snd].
  rewrite !moved_world_getEntity by done.
  rewrite decide_True, (decide_False _ _ (not_eq_sym Hnz)), decide_True by done.
  rewrite moved_world_heap_same.
  split; [done|]. split; [done|]. split; [done|]. split; [|split; [done|]].
  - intros x y H1 H2. rewrite moved_world_getEntity by done.
    by rewrite !decide_False.
  - intros r Hr. by apply moved_world_heap_other.
Qed.

Lemma walking_witness :
  getEntity (gameGrid (GameLogic.movePlayer (lv_world (level_of 1 ["@ "])) RIGHT).2)
            1 0 = Some 0%nat
  ∧ getEntity (gameGrid (GameLogic.movePlayer (lv_world (level_of 1 ["@ "])) RIGHT).2)
              0 0 = None.
Proof.
  destruct (walking_into_a_free_cell (lv_world (level_of 1 ["@ "])) RIGHT 0%nat)
    as (_ & Hnew & Hold & _); [by apply level_wf_check | by split | done..|].
  by split.
Defined.

(** X9.  A live player at home who moves onto dirt digs it: the move
    succeeds, the dirt object is retagged EMPTY, made non-solid and
    non-diggable, and the player's move then overwrites the cell, so that
    the cell holds the player, the old cell is empty and no other cell
    changes; if the dirt object sat in that cell only, no cell holds it any
    more. *)
Theorem digging_through_dirt
    (w : World) (dir : Direction) (player dirt : ref) :
  grid_wf (gameGrid w) →
  player_at_home w player →
  alive (heap w player) = true →
  let t := target_of w player dir in
  let home := stored w player in
  getEntity (gameGrid w) t.1 t.2 = Some dirt →
  type (heap w dirt) = DIRT →
  let res := GameLogic.movePlayer w dir in
  res.1 = result_of true
  ∧ getEntity (gameGrid res.2) t.1 t.2 = Some player
  ∧ getEntity (gameGrid res.2) home.1 home.2 = None
  ∧ (∀ x y, (x, y) ≠ t → (x, y) ≠ home →
            getEntity (gameGrid res.2) x y = getEntity (gameGrid w) x y)
  ∧ heap res.2 player = setPosition t.1 t.2 (heap w player)
  ∧ heap res.2 dirt = dig (heap w dirt)
  ∧ type (heap res.2 dirt) = EMPTY
  ∧ solid (heap res.2 dirt) = false
  ∧ (∀ r, r ≠ player → r ≠ dirt → heap res.2 r = heap w r)
  ∧ ((∀ x y, getEntity (gameGrid w) x y = Some dirt → (x, y) = t) →
     ∀ x y, getEntity (gameGrid res.2) x y ≠ Some dirt).
Proof.
  intros Hwf Hhome Halive t home Hdirt Htype res. subst res.
  destruct (target_of w player dir) as [tx ty] eqn:Htarget.
  destruct (stored w player) as [px py] eqn:Hpos. subst t home.
  cbn [fst snd] in *. pose proof Hhome as [Hfind Hcell].
  assert (Hnz : (tx, ty) ≠ (px, py)) by (by eapply target_is_not_home).
  assert (Hvp : isValidPosition (gameGrid w) px py = true)
    by (by eapply home_valid).
  pose proof (getEntity_Some_valid _ _ _ _ Hdirt) as Hv.
  assert (Hp : type (heap w player) = PLAYER) by (by eapply player_type).
  assert (Hne : dirt ≠ player) by (intros ->; congruence).
  rewrite (movePlayer_at _ _ _ Hfind), Halive, Htarget. cbn [fst snd negb].
  cbv zeta. rewrite Hv, Hdirt, Htype. cbn [negb].
  erewrite enter_dirt by done. cbn [fst snd].
  set (w1 := {| heap := mutate dig dirt (heap w); gameGrid := gameGrid w |}).
  assert (Hget : ∀ x y,
    getEntity (gameGrid (moved_world w1 player px py tx ty)) x y
    = if decide ((x, y) = (tx, ty)) then Some player
      else if decide ((x, y) = (px, py)) then None
      else getEntity (gameGrid w) x y).
  { intros x y. by rewrite moved_world_getEntity. }
  rewrite !Hget.
  rewrite decide_True, (decide_False _ _ (not_eq_sym Hnz)), decide_True by done.
  rewrite moved_world_heap_same, moved_world_heap_other by done.
  cbn [heap w1]. rewrite mutate_same, mutate_other by done.
  split; [done|]. split; [done|]. split; [done|].
  split; [|split; [done|split; [done|split; [done|split; [done|split]]]]].
  - intros x y H1 H2. rewrite Hget. by rewrite !decide_False.
  - intros r Hr1 Hr2. rewrite moved_world_heap_other by done.
    cbn [heap w1]. by rewrite mutate_other.
  - intros Honly x y. rewrite Hget. repeat case_decide; try congruence.
    intros Hc. by apply Honly in Hc.
Qed.

Lemma digging_witness :
  type (heap (GameLogic.movePlayer (lv_world (level_of 1 ["@."])) RIGHT).2 1%nat)
  = EMPTY
  ∧ getEntity (gameGrid (GameLogic.movePlayer (lv_world (level_of 1 ["@."])) RIGHT).2)
              1 0 = Some 0%nat.
Proof.
  destruct (digging_through_dirt (lv_world (level_of 1 ["@."])) RIGHT 0%nat 1%nat)
    as (_ & Hnew & _ & _ & _ & _ & Hempty & _);
    [by apply level_wf_check | by split | done..|].
  by split.
Defined.

(** X10.  A live player at home who moves sideways onto a boulder pushes it
    exactly when the cell beyond the boulder is inside the grid and empty
    (whatever the boulder rests on).  The boulder then sits in the cell
    beyond, the player in the boulder's cell, the player's old cell is
    empty and no other cell changes; both objects are the old ones with
    [setPosition] applied, so the boulder's [falling] flag is as before. *)
Theorem pushing_a_boulder_sideways
    (w : World) (dir : Direction) (player boulder : ref) :
  grid_wf (gameGrid w) →
  player_at_home w player →
  alive (heap w player) = true →
  let t := target_of w player dir in
  let home := stored w player in
  let beyond := (t.1 + (GameLogic.getDirectionVector dir).1,
                 t.2 + (GameLogic.getDirectionVector dir).2) in
  getEntity (gameGrid w) t.1 t.2 = Some boulder →
  type (heap w boulder) = BOULDER →
  let res := GameLogic.movePlayer w dir in
  (success res.1 = true
   ↔ (dir = LEFT ∨ dir = RIGHT)
     ∧ isValidPosition (gameGrid w) beyond.1 beyond.2 = true
     ∧ getEntity (gameGrid w) beyond.1 beyond.2 = None)
  ∧ (success res.1 = true →
     res.1 = result_of true
     ∧ getEntity (gameGrid res.2) beyond.1 beyond.2 = Some boulder
     ∧ getEntity (gameGrid res.2) t.1 t.2 = Some player
     ∧ getEntity (gameGrid res.2) home.1 home.2 = None
     ∧ (∀ x y, (x, y) ≠ beyond → (x, y) ≠ t → (x, y) ≠ home →
               getEntity (gameGrid res.2) x y = getEntity (gameGrid w) x y)
     ∧ heap res.2 boulder = setPosition beyond.1 beyond.2 (heap w boulder)
     ∧ falling (heap res.2 boulder) = falling (heap w boulder)
     ∧ heap res.2 player = setPosition t.1 t.2 (heap w player)
     ∧ (∀ r, r ≠ player → r ≠ boulder → heap res.2 r = heap w r)).
Proof.
  intros Hwf Hhome Halive t home beyond Hb Htype res. subst res.
  destruct (target_of w player dir) as [tx ty] eqn:Htarget.
  destruct (stored w player) as [px py] eqn:Hpos. subst t home beyond.
  cbn [fst snd] in *. pose proof Hhome as [Hfind Hcell].
  assert (Hnz : (tx, ty) ≠ (px, py)) by (by eapply target_is_not_home).
  assert (Hvp : isValidPosition (gameGrid w) px py = true)
    by (by eapply home_valid).
  pose proof (getEntity_Some_valid _ _ _ _ Hb) as Hv.
  assert (Hp : type (heap w player) = PLAYER) by (by eapply player_type).
  assert (Hne : boulder ≠ player) by (intros ->; congruence).
  rewrite (movePlayer_at _ _ _ Hfind), Halive, Htarget. cbn [fst snd negb].
  cbv zeta. rewrite Hv, Hb, Htype. cbn [negb].
  erewrite enter_boulder by (try done; reflexivity).
  set (bx := tx + (GameLogic.getDirectionVector dir).1).
  set (by_ := ty + (GameLogic.getDirectionVector dir).2).
  assert (Hbeyond : (bx, by_) ≠ (px, py) ∧ (bx, by_) ≠ (tx, ty)).
  { unfold target_of, stored in *. subst bx by_.
    destruct dir; simpl in *; simplify_eq; split; intros [=]; lia. }
  destruct Hbeyond as [Hbp Hbt].
  destruct (bool_decide (dir = UP) || bool_decide (dir = DOWN)) eqn:Hvert.
  { split; [|done]. split; [done|]. intros [[-> | ->] _]; done. }
  assert (Hside : dir = LEFT ∨ dir = RIGHT) by (destruct dir; auto; done).
  destruct (isValidPosition (gameGrid w) bx by_) eqn:Hvb; cbn [andb];
    [|split; [|done]; split; [done|]; by intros (_ & ? & _)].
  destruct (getEntity (gameGrid w) bx by_) as [c|] eqn:Hfree;
    [rewrite bool_decide_eq_false_2 by done
    |rewrite bool_decide_eq_true_2 by done];
    cbn [fst snd success result_of];
    [split; [|done]; split; [done|]; by intros (_ & _ & ?)|].
  split; [done|]. intros _.
  set (w1 := moved_world w boulder tx ty bx by_).
  assert (Hwf1 : grid_wf (gameGrid w1)) by (by apply moved_world_wf).
  assert (Hget : ∀ x y,
    getEntity (gameGrid (moved_world w1 player px py tx ty)) x y
    = if decide ((x, y) = (tx, ty)) then Some player
      else if decide ((x, y) = (px, py)) then None
      else if decide ((x, y) = (bx, by_)) then Some boulder
      else getEntity (gameGrid w) x y).
  { intros x y. rewrite moved_world_getEntity by done.
    subst w1. rewrite moved_world_getEntity by done.
    repeat case_decide; congruence. }
  rewrite !Hget.
  rewrite (decide_False _ _ Hbt), (decide_False _ _ Hbp), !decide_True by done.
  rewrite (decide_False _ _ (not_eq_sym Hnz)), decide_True by done.
  rewrite moved_world_heap_same, moved_world_heap_other by done.
  subst w1. rewrite moved_world_heap_same, moved_world_heap_other by done.
  split; [done|]. split; [done|]. split; [done|]. split; [done|].
  split; [|split; [done|split; [done|split; [done|]]]].
  - intros x y H1 H2 H3. rewrite Hget. by rewrite !decide_False.
  - intros r Hr1 Hr2. by rewrite !moved_world_heap_other.
Qed.

Lemma pushing_witness :
  success (GameLogic.movePlayer push_row RIGHT).1 = true
  ∧ getEntity (gameGrid (GameLogic.movePlayer push_row RIGHT).2) 2 0 = Some 1%nat
  ∧ getEntity (gameGrid (GameLogic.movePlayer push_row RIGHT).2) 1 0 = Some 0%nat.
Proof.
  destruct (pushing_a_boulder_sideways push_row RIGHT 0%nat 1%nat)
    as (Hiff & Hpush); [apply push_row_wf | by split | done..|].
  assert (Hok : success (GameLogic.movePlayer push_row RIGHT).1 = true).
  { apply Hiff. split; [by right|]. by split. }
  destruct (Hpush Hok) as (_ & Hb & Hp & _). by repeat split.
Defined.

Lemma alive_collectDiamond e : alive (collectDiamond e) = alive e.
Proof. by_entity e. Qed.

Lemma type_collectDiamond e : type (collectDiamond e) = type e.
Proof. by_entity e. Qed.

(** The player has entered the cell [(tx, ty)] of a state in which no other
    player sits outside the two cells involved. *)
Lemma at_home_after_entering w0 player px py tx ty :
  grid_wf (gameGrid w0) →
  isValidPosition (gameGrid w0) px py = true →
  isValidPosition (gameGrid w0) tx ty = true →
  type (heap w0 player) = PLAYER →
  (∀ x y r, (x, y) ≠ (tx, ty) → (x, y) ≠ (px, py) →
            getEntity (gameGrid w0) x y = Some r →
            type (heap w0 r) = PLAYER → r = player) →
  player_at_home (moved_world w0 player px py tx ty) player
  ∧ only_player (moved_world w0 player px py tx ty) player.
Proof.
  intros Hwf Hvp Hvt Htype Honly.
  assert (Hcell : getEntity (gameGrid (moved_world w0 player px py tx ty)) tx ty
                  = Some player).
  { rewrite moved_world_getEntity by done. by rewrite decide_True. }
  assert (Honly' : only_player (moved_world w0 player px py tx ty) player).
  { intros x y r Hc Ht. rewrite moved_world_getEntity in Hc by done.
    case_decide; [by simplify_eq|]. case_decide; [done|].
    destruct (decide (r = player)) as [->|Hne]; [done|].
    rewrite moved_world_heap_other in Ht by done. eauto. }
  split; [|done]. split.
  - apply findEntityByType_unique; [eauto| |done].
    by rewrite moved_world_heap_same.
  - by rewrite moved_world_heap_same.
Qed.

(** X11.  Unless the target cell holds an exit, a move keeps the player at
    home: afterwards the grid is well formed with the same dimensions, the
    player object is still the one [findEntityByType] returns and sits in
    the cell whose coordinates it stores, it is still the only player, and
    its [alive] flag is as before. *)
Theorem player_is_at_home_after_a_move
    (w : World) (dir : Direction) (player : ref) :
  grid_wf (gameGrid w) →
  player_at_home w player →
  only_player w player →
  let t := target_of w player dir in
  (∀ e, getEntity (gameGrid w) t.1 t.2 = Some e → type (heap w e) ≠ EXIT) →
  let w' := (GameLogic.movePlayer w dir).2 in
  grid_wf (gameGrid w')
  ∧ getDimensions (gameGrid w') = getDimensions (gameGrid w)
  ∧ player_at_home w' player
  ∧ only_player w' player
  ∧ alive (heap w' player) = alive (heap w player).
Proof.
  intros Hwf Hhome Honly t Hnoexit w'. subst w' t.
  destruct (target_of w player dir) as [tx ty] eqn:Htarget.
  destruct (stored w player) as [px py] eqn:Hpos. cbn [fst snd] in *.
  assert (Hnz : (tx, ty) ≠ (px, py)) by (by eapply target_is_not_home).
  assert (Hvp : isValidPosition (gameGrid w) px py = true)
    by (by eapply home_valid).
  assert (Hp : type (heap w player) = PLAYER) by (by eapply player_type).
  destruct (movePlayer_cases w dir player px py tx ty Hwf Hhome Hpos Htarget)
    as [[_ ->] | (Halive & Hv & Hcases)]; [done|].
  destruct Hcases as
    [[Hfree ->] | [(dirt & Hc & Ht & ->) | [(diamond & Hc & Ht & ->)
    | [(boulder & bx & by_ & Hc & Ht & Hside & Hb & Hvb & Hfree & ->)
    | (exit & Hc & Ht & _)]]]]; cbn [snd].
  - destruct (at_home_after_entering w player px py tx ty) as [H1 H2];
      try done; [by eauto|].
    rewrite moved_world_heap_same, alive_setPosition.
    split; [by apply moved_world_wf|]. split; [done|]. split; [done|]. by split.
  - assert (Hne : player ≠ dirt) by (intros ->; congruence).
    destruct (at_home_after_entering
                {| heap := mutate dig dirt (heap w); gameGrid := gameGrid w |}
                player px py tx ty) as [H1 H2]; try done.
    { cbn [heap]. by rewrite mutate_other. }
    { cbn [heap gameGrid]. intros x y r _ _ Hcr Htr.
      destruct (decide (r = dirt)) as [->|Hnd].
      - by rewrite mutate_same in Htr.
      - rewrite mutate_other in Htr by done. eauto. }
    rewrite moved_world_heap_same, alive_setPosition. cbn [heap].
    rewrite mutate_other by done.
    split; [by apply moved_world_wf|]. split; [done|]. split; [done|]. by split.
  - destruct (at_home_after_entering
                {| heap := mutate collectDiamond player (heap w);
                   gameGrid := write_cell (gameGrid w) tx ty None |}
                player px py tx ty) as [H1 H2]; try done.
    { by apply write_cell_wf. }
    { cbn [heap]. by rewrite mutate_same, type_collectDiamond. }
    { cbn [heap gameGrid]. intros x y r Hxy _ Hcr Htr.
      rewrite getEntity_write_cell in Hcr by done.
      rewrite decide_False in Hcr by done.
      destruct (decide (r = player)) as [->|Hnd]; [done|].
      rewrite mutate_other in Htr by done. eauto. }
    rewrite moved_world_heap_same, alive_setPosition. cbn [heap].
    rewrite mutate_same, alive_collectDiamond.
    split; [apply moved_world_wf; by apply write_cell_wf|]. split; [done|]. split; [done|]. by split.
  - assert (Hne : player ≠ boulder) by (intros ->; congruence).
    destruct (at_home_after_entering (moved_world w boulder tx ty bx by_)
                player px py tx ty) as [H1 H2]; try done.
    { by apply moved_world_wf. }
    { by rewrite moved_world_heap_other. }
    { intros x y r Hxy _ Hcr Htr.
      rewrite moved_world_getEntity in Hcr by done.
      case_decide as Hcase.
      - simplify_eq. rewrite moved_world_heap_same in Htr.
        rewrite type_setPosition in Htr. congruence.
      - rewrite decide_False in Hcr by done.
        destruct (decide (r = boulder)) as [->|Hnb].
        + rewrite moved_world_heap_same, type_setPosition in Htr. congruence.
        + rewrite moved_world_heap_other in Htr by done. eauto. }
    rewrite moved_world_heap_same, alive_setPosition.
    rewrite moved_world_heap_other by done.
    split; [by do 2 apply moved_world_wf|]. split; [done|]. split; [done|]. by split.
  - by destruct (Hnoexit _ Hc).
Qed.

Lemma push_row_only_player : only_player push_row 0%nat.
Proof.
  intros x y r Hc Ht.
  pose proof (getEntity_Some_valid _ _ _ _ Hc) as Hv.
  apply isValidPosition_spec in Hv. change (width (gameGrid push_row)) with 3 in Hv.
  change (height (gameGrid push_row)) with 2 in Hv.
  assert (Hx : x = 0 ∨ x = 1 ∨ x = 2) by lia.
  assert (Hy : y = 0 ∨ y = 1) by lia.
  destruct Hx as [-> | [-> | ->]], Hy as [-> | ->];
    vm_compute in Hc; simplify_eq; vm_compute in Ht; congruence.
Qed.

Lemma player_is_at_home_witness :
  player_at_home (GameLogic.movePlayer push_row RIGHT).2 0%nat
  ∧ only_player (GameLogic.movePlayer push_row RIGHT).2 0%nat.
Proof.
  destruct (player_is_at_home_after_a_move push_row RIGHT 0%nat)
    as (_ & _ & Hhome & Honly & _);
    [apply push_row_wf | by split | apply push_row_only_player | |by split].
  intros e [= <-]. done.
Defined.

Lemma executePlayerMove_result w player x y :
  (GameLogic.executePlayerMove w player x y).1
  = result_of (moveEntity w (ent_x (heap w player)) (ent_y (heap w player)) x y).1.
Proof.
  unfold GameLogic.executePlayerMove. by destruct (moveEntity w _ _ x y).
Qed.

Lemma movePlayer_reports_no_death w dir :
  playerDied (GameLogic.movePlayer w dir).1 = None.
Proof.
  unfold GameLogic.movePlayer.
  destruct (findEntityByType w PLAYER) as [player|]; [|done].
  destruct (alive (heap w player)); [|done]. cbn [negb].
  destruct (GameLogic.getDirectionVector dir) as [dx dy].
  destruct (isValidPosition (gameGrid w) _ _); [|done]. cbn [negb].
  destruct (getEntity (gameGrid w) _ _) as [target|];
    [|by rewrite executePlayerMove_result].
  destruct (type (heap w target)); try done.
  - unfold GameLogic.handleBoulderPush.
    destruct (bool_decide (dir = UP) || bool_decide (dir = DOWN)); [done|].
    destruct (GameLogic.getDirectionVector dir) as [dx' dy'].
    destruct (isValidPosition (gameGrid w) _ _); [|done]. cbn [negb].
    destruct (getEntity (gameGrid w) _ _); [done|].
    destruct (moveEntity w _ _ _ _) as [[] w1]; [|done]. cbn [negb].
    by rewrite executePlayerMove_result.
  - unfold GameLogic.handleDiamondCollection.
    match goal with
    | |- context [GameLogic.executePlayerMove ?w2 ?p ?x ?y] =>
        pose proof (executePlayerMove_result w2 p x y) as Hres;
        destruct (GameLogic.executePlayerMove w2 p x y) as [moveResult w3]
    end.
    cbn [fst] in Hres. subst moveResult. done.
  - unfold GameLogic.handleDirtMovement. by rewrite executePlayerMove_result.
  - unfold GameLogic.handleExitMovement. by repeat case_match.
Qed.

(** X12.  A player move never costs a life: [movePlayer] never reports
    [playerDied], so [processMovement] leaves the lives and the level data
    alone, and the only events it emits are DIAMOND_COLLECTED and
    LEVEL_COMPLETE. *)
Theorem a_move_never_costs_a_life (direction : Direction) (e : Engine) :
  playerDied (GameLogic.movePlayer (GameEngine.getGrid e) direction).1 = None
  ∧ lives (state (GameEngine.processMovement direction e)) = lives (state e)
  ∧ levelData (state (GameEngine.processMovement direction e))
    = levelData (state e)
  ∧ ∃ events,
      emitted (GameEngine.processMovement direction e) = emitted e ++ events
      ∧ Forall (λ ev, ev_type ev = "DIAMOND_COLLECTED"
                      ∨ ev_type ev = "LEVEL_COMPLETE") events.
Proof.
  pose proof (movePlayer_reports_no_death (GameEngine.getGrid e) direction)
    as Hdied.
  split; [done|]. unfold GameEngine.processMovement.
  destruct (GameLogic.movePlayer (GameEngine.getGrid e) direction)
    as [result w1]. cbn [fst] in Hdied. rewrite Hdied. cbn [truthy]. cbv zeta.
  destruct (success result);
    [|repeat split; exists []; by rewrite app_nil_r].
  destruct (truthy (diamondCollected result)),
    (truthy (levelComplete result)).
  - match goal with
    | |- context [findEntityByType ?w PLAYER] =>
        destruct (findEntityByType w PLAYER), (findEntityByType w EXIT)
    end; (repeat split; eexists [_; _]; split;
          [cbn; by rewrite <- app_assoc|repeat constructor; by auto]).
  - match goal with
    | |- context [findEntityByType ?w PLAYER] =>
        destruct (findEntityByType w PLAYER), (findEntityByType w EXIT)
    end; (repeat split; eexists [_]; split;
          [reflexivity|repeat constructor; by auto]).
  - repeat split. eexists [_]; split; [reflexivity|repeat constructor; by auto].
  - repeat split. exists []. by rewrite app_nil_r.
Qed.

(** ** Physics: invariants of a whole turn *)

Section pass_relation.
Variable step : GameLogic.Loop → Z * Z → GameLogic.Loop.
Variable R : World → World → Prop.

Hypothesis R_refl : ∀ w, R w w.
Hypothesis R_trans : ∀ w1 w2 w3, R w1 w2 → R w2 w3 → R w1 w3.
Hypothesis step_ok : ∀ l c,
  phys_inv (GameLogic.world l) →
  phys_inv (GameLogic.world (step l c))
  ∧ R (GameLogic.world l) (GameLogic.world (step l c)).

Lemma pass_relation todo :
  ∀ l, phys_inv (GameLogic.world l) →
       phys_inv (GameLogic.world (foldl step l todo))
       ∧ R (GameLogic.world l) (GameLogic.world (foldl step l todo)).
Proof.
  induction todo as [|c todo IH]; intros l Hinv; [by split|].
  simpl. destruct (step_ok l c Hinv) as [Hinv1 HR1].
  destruct (IH _ Hinv1) as [Hinv2 HR2]. split; [done|]. by eapply R_trans.
Qed.

End pass_relation.

Lemma only_rocks_move_refl w : only_rocks_move w w.
Proof. by repeat split. Qed.

Lemma only_rocks_move_trans w1 w2 w3 :
  only_rocks_move w1 w2 → only_rocks_move w2 w3 → only_rocks_move w1 w3.
Proof.
  intros (Hd1 & Ht1 & Hs1 & Hc1 & Hg1) (Hd2 & Ht2 & Hs2 & Hc2 & Hg2).
  assert (Hrock : ∀ r, ¬ is_rock (heap w1 r) → ¬ is_rock (heap w2 r)).
  { intros r. unfold is_rock. by rewrite Ht1. }
  split; [congruence|]. split; [intros r; congruence|].
  split; [intros r Hr; rewrite Hs2 by auto; auto|].
  split; [intros x y r Hc Hr; auto|].
  intros r. by rewrite Hg1.
Qed.

Lemma stays_only_rocks_move w w' : stays w w' → only_rocks_move w w'.
Proof.
  intros [Hg Hsame]. unfold only_rocks_move, in_grid, stored. rewrite Hg.
  split; [done|]. split; [apply Hsame|]. split; [|by split].
  intros r _. destruct (Hsame r) as (_ & -> & ->). done.
Qed.

Lemma relocates_only_rocks_move w w' r0 c t :
  grid_wf (gameGrid w) → relocates w w' r0 c t → only_rocks_move w w'.
Proof.
  intros Hwf Hrel.
  pose proof Hrel as (Hc & Hrock0 & Hvt & Hfree & Hg & Htypes & Hothers & Hx0 & Hy0).
  pose proof (λ x y, relocates_getEntity _ _ _ _ _ x y Hwf Hrel) as Hget.
  destruct c as [cx cy], t as [tx ty]. cbn [fst snd] in *.
  split; [by rewrite Hg|]. split; [done|]. split; [|split].
  - intros r Hr. unfold stored.
    destruct (Hothers r) as [-> ->]; [by intros ->|done].
  - intros x y r Hcell Hr. rewrite Hget.
    rewrite decide_False by (intros [= -> ->]; congruence).
    rewrite decide_False by (intros [= -> ->]; congruence). done.
  - intros r. unfold in_grid. split.
    + intros (x & y & Hcell).
      destruct (decide ((x, y) = (cx, cy))) as [[= -> ->]|Hnc].
      * exists tx, ty. rewrite Hget. rewrite decide_True by done. congruence.
      * exists x, y. rewrite Hget.
        rewrite decide_False by (intros [= -> ->]; congruence).
        by rewrite decide_False.
    + intros (x & y & Hcell). rewrite Hget in Hcell.
      case_decide; [simplify_eq; by exists cx, cy|].
      case_decide; [done|]. eauto.
Qed.

Lemma gravityStep_ok l c :
  phys_inv (GameLogic.world l) →
  phys_inv (GameLogic.world (GameLogic.gravityStep l c))
  ∧ only_rocks_move (GameLogic.world l)
                    (GameLogic.world (GameLogic.gravityStep l c)).
Proof.
  intros Hinv. destruct c as [x y].
  destruct (gravityStep_spec l x y) as [_ [Hstay | (r0 & Hrel)]].
  - split; [by eapply stays_inv|by apply stays_only_rocks_move].
  - split; [by eapply relocates_inv|].
    eapply relocates_only_rocks_move; [apply Hinv|done].
Qed.

Lemma rollingStep_ok l c :
  phys_inv (GameLogic.world l) →
  phys_inv (GameLogic.world (GameLogic.rollingStep l c))
  ∧ only_rocks_move (GameLogic.world l)
                    (GameLogic.world (GameLogic.rollingStep l c)).
Proof.
  intros Hinv. destruct c as [x y].
  destruct (rollingStep_spec l x y) as [Hstay | (r0 & d & _ & Hrel)].
  - split; [by eapply stays_inv|by apply stays_only_rocks_move].
  - split; [by eapply relocates_inv|].
    eapply relocates_only_rocks_move; [apply Hinv|done].
Qed.

Lemma updatePhysics_ok w :
  phys_inv w →
  phys_inv (GameLogic.updatePhysics w).2
  ∧ only_rocks_move w (GameLogic.updatePhysics w).2.
Proof.
  intros Hinv. unfold GameLogic.updatePhysics. cbn [snd].
  unfold GameLogic.rollingPass, GameLogic.gravityPass.
  destruct (pass_relation GameLogic.gravityStep only_rocks_move
              only_rocks_move_refl only_rocks_move_trans gravityStep_ok
              (GameLogic.scanOrder (gameGrid w))
              (GameLogic.mkLoop w false false) Hinv) as [Hinv1 HR1].
  match goal with
  | |- context [foldl GameLogic.rollingStep ?l1 ?todo] =>
      destruct (pass_relation GameLogic.rollingStep only_rocks_move
                  only_rocks_move_refl only_rocks_move_trans rollingStep_ok
                  todo l1 Hinv1) as [Hinv2 HR2]
  end.
  split; [done|]. by eapply only_rocks_move_trans.
Qed.

(** X13.  A physics turn keeps the layout well formed: the array keeps its
    shape and its dimensions, and every boulder or diamond that a cell
    refers to stores that cell's coordinates. *)
Theorem physics_keeps_the_layout_well_formed (w : World) :
  phys_inv w →
  let w' := (GameLogic.updatePhysics w).2 in
  grid_wf (gameGrid w')
  ∧ rocks_placed w'
  ∧ getDimensions (gameGrid w') = getDimensions (gameGrid w).
Proof.
  intros Hinv w'. destruct (updatePhysics_ok w Hinv) as [[Hwf Hplaced] HR].
  destruct HR as (Hdim & _). split; [done|]. by split.
Qed.

Lemma physics_keeps_witness :
  rocks_placed (GameLogic.updatePhysics drop_and_roll).2
  ∧ getDimensions (gameGrid (GameLogic.updatePhysics drop_and_roll).2) = (2, 3).
Proof.
  destruct (physics_keeps_the_layout_well_formed drop_and_roll)
    as (_ & Hplaced & Hdim); [apply drop_and_roll_inv|]. by split.
Defined.

(** X14.  A physics turn moves boulders and diamonds only, and neither
    creates nor removes an entity: no object changes its type, every object
    that is not a boulder or diamond keeps its coordinates and stays in its
    cell, and an object sits in some cell afterwards exactly when it did
    before. *)
Theorem physics_moves_only_rocks (w : World) :
  phys_inv w →
  let w' := (GameLogic.updatePhysics w).2 in
  (∀ r, type (heap w' r) = type (heap w r))
  ∧ (∀ r, ¬ is_rock (heap w r) → stored w' r = stored w r)
  ∧ (∀ x y r, getEntity (gameGrid w) x y = Some r → ¬ is_rock (heap w r) →
              getEntity (gameGrid w') x y = Some r)
  ∧ (∀ r, in_grid w r ↔ in_grid w' r).
Proof.
  intros Hinv w'. destruct (updatePhysics_ok w Hinv) as [_ HR].
  by destruct HR as (_ & ? & ? & ? & ?).
Qed.

Lemma physics_moves_only_rocks_witness :
  getEntity (gameGrid (GameLogic.updatePhysics (rock_over_player true)).2) 0 1
  = Some 1%nat
  ∧ in_grid (GameLogic.updatePhysics drop_and_roll).2 0%nat.
Proof.
  destruct (physics_moves_only_rocks (rock_over_player true))
    as (_ & _ & Hcell & _); [by apply phys_inv_check|].
  destruct (physics_moves_only_rocks drop_and_roll)
    as (_ & _ & _ & Hgrid); [apply drop_and_roll_inv|].
  split.
  - apply Hcell; [done|]. by intros [|].
  - apply Hgrid. by exists 0, 0.
Defined.

(** ** Physics: what the two result flags mean *)

Lemma tryMoveBoulderDown_quiet w r0 x y :
  moved (GameLogic.tryMoveBoulderDown w r0 x y).1 = false →
  stays w (GameLogic.tryMoveBoulderDown w r0 x y).2.
Proof.
  unfold GameLogic.tryMoveBoulderDown.
  destruct (isValidPosition (gameGrid w) x (y + 1)); cbn [negb];
    [|intros _; apply stays_set_falling].
  destruct (getEntity (gameGrid w) x (y + 1)) as [b|].
  - intros _. case_match; [apply stays_set_alive|apply stays_set_falling].
  - match goal with
    | |- context [moveEntity ?w1 x y x (y + 1)] =>
        destruct (moveEntity_cases w1 x y x (y + 1))
          as [-> | (r & _ & _ & _ & ->)]
    end; [|done].
    intros _. apply stays_set_falling.
Qed.

Lemma gravityStep_quiet l c :
  GameLogic.anyMoved (GameLogic.gravityStep l c) = true
  ∨ (GameLogic.anyMoved (GameLogic.gravityStep l c) = GameLogic.anyMoved l
     ∧ stays (GameLogic.world l) (GameLogic.world (GameLogic.gravityStep l c))).
Proof.
  destruct c as [x y]. unfold GameLogic.gravityStep.
  set (w := GameLogic.world l).
  destruct (getEntity (gameGrid w) x y) as [r0|];
    [|right; split; [done|apply stays_refl]].
  rewrite tryMoveDiamondDown_eq.
  pose proof (tryMoveBoulderDown_quiet w r0 x y) as Hquiet.
  destruct (GameLogic.tryMoveBoulderDown w r0 x y) as [[m k] w1].
  cbn [fst snd moved playerKilled] in *.
  destruct m.
  - repeat case_bool_decide; try (by left); right; split; try done;
      apply stays_refl.
  - specialize (Hquiet eq_refl).
    assert (Hs : stays w (GameLogic.settle w1 r0 x y)).
    { eapply stays_trans; [done|apply settle_stays]. }
    repeat case_bool_decide; right; split; try done; apply stays_refl.
Qed.

Lemma tryRollDirection_quiet w r0 x y d :
  playerKilled (GameLogic.tryRollDirection w r0 x y d).1 = false
  ∧ (moved (GameLogic.tryRollDirection w r0 x y d).1 = false →
     (GameLogic.tryRollDirection w r0 x y d).2 = w).
Proof.
  unfold GameLogic.tryRollDirection.
  destruct (negb (isValidPosition (gameGrid w) (x + d) y)
            || negb (isValidPosition (gameGrid w) (x + d) (y + 1)));
    [done|].
  destruct (getEntity (gameGrid w) (x + d) y); [done|].
  destruct (getEntity (gameGrid w) (x + d) (y + 1)); [done|].
  destruct (moveEntity_cases w x y (x + d) (y + 1))
    as [-> | (r & _ & _ & _ & ->)]; done.
Qed.

Lemma tryRolling_quiet w r0 x y :
  playerKilled (GameLogic.tryRolling w r0 x y).1 = false
  ∧ (moved (GameLogic.tryRolling w r0 x y).1 = false →
     (GameLogic.tryRolling w r0 x y).2 = w).
Proof.
  unfold GameLogic.tryRolling.
  destruct (negb (isValidPosition (gameGrid w) x (y + 1))); [done|].
  destruct (getEntity (gameGrid w) x (y + 1)) as [b|]; [|done].
  destruct (negb _ || falling (heap w b)); [done|].
  destruct (tryRollDirection_quiet w r0 x y 1) as [Hk1 Hm1].
  destruct (GameLogic.tryRollDirection w r0 x y 1) as [[m k] w1].
  cbn [fst snd moved playerKilled] in *. destruct m; [done|].
  rewrite (Hm1 eq_refl). apply tryRollDirection_quiet.
Qed.

Lemma rollingStep_quiet l c :
  GameLogic.anyDied (GameLogic.rollingStep l c) = GameLogic.anyDied l
  ∧ (GameLogic.anyMoved (GameLogic.rollingStep l c) = true
     ∨ (GameLogic.anyMoved (GameLogic.rollingStep l c) = GameLogic.anyMoved l
        ∧ stays (GameLogic.world l)
                (GameLogic.world (GameLogic.rollingStep l c)))).
Proof.
  destruct c as [x y]. unfold GameLogic.rollingStep.
  set (w := GameLogic.world l).
  destruct (getEntity (gameGrid w) x y) as [r0|];
    [|split; [done|right; split; [done|apply stays_refl]]].
  destruct (bool_decide _ || bool_decide _);
    [|split; [done|right; split; [done|apply stays_refl]]].
  destruct (tryRolling_quiet w r0 x y) as [Hk Hm].
  destruct (GameLogic.tryRolling w r0 x y) as [[m k] w1].
  cbn [fst snd moved playerKilled GameLogic.anyDied GameLogic.anyMoved
       GameLogic.world] in *.
  subst k. split; [done|]. destruct m; [by left|right].
  rewrite (Hm eq_refl). split; [done|apply stays_refl].
Qed.

Section quiet_pass.
Variable step : GameLogic.Loop → Z * Z → GameLogic.Loop.

Hypothesis step_quiet : ∀ l c,
  GameLogic.anyMoved (step l c) = true
  ∨ (GameLogic.anyMoved (step l c) = GameLogic.anyMoved l
     ∧ stays (GameLogic.world l) (GameLogic.world (step l c))).

Lemma anyMoved_sticks todo :
  ∀ l, GameLogic.anyMoved l = true →
       GameLogic.anyMoved (foldl step l todo) = true.
Proof.
  induction todo as [|c todo IH]; intros l Hl; [done|]. simpl. apply IH.
  destruct (step_quiet l c) as [?|[-> _]]; done.
Qed.

Lemma quiet_pass todo :
  ∀ l, GameLogic.anyMoved (foldl step l todo) = false →
       GameLogic.anyMoved l = false
       ∧ stays (GameLogic.world l) (GameLogic.world (foldl step l todo)).
Proof.
  induction todo as [|c todo IH]; intros l Hquiet;
    [split; [done|apply stays_refl]|].
  simpl in *. destruct (IH _ Hquiet) as [Hstep Hstays].
  destruct (step_quiet l c) as [Hm|[Hm Hs]]; [congruence|].
  split; [congruence|]. by eapply stays_trans.
Qed.

End quiet_pass.

(** X15.  When a physics turn reports no movement, nothing moved: the grid
    is the one it was, and every object has the type and the coordinates it
    had. *)
Theorem no_movement_reported_means_nothing_moved (w : World) :
  entityMoved (GameLogic.updatePhysics w).1 = false →
  let w' := (GameLogic.updatePhysics w).2 in
  gameGrid w' = gameGrid w
  ∧ ∀ r, type (heap w' r) = type (heap w r) ∧ stored w' r = stored w r.
Proof.
  unfold GameLogic.updatePhysics. cbn [fst snd entityMoved].
  unfold GameLogic.rollingPass. intros Hquiet.
  destruct (quiet_pass GameLogic.rollingStep
              (λ l c, proj2 (rollingStep_quiet l c)) _ _ Hquiet)
    as [Hquiet1 Hstays2].
  unfold GameLogic.gravityPass in Hquiet1.
  destruct (quiet_pass GameLogic.gravityStep gravityStep_quiet _ _ Hquiet1)
    as [_ Hstays1].
  destruct (stays_trans _ _ _ Hstays1 Hstays2) as [Hg Hsame].
  split; [done|]. intros r. destruct (Hsame r) as (Ht & Hx & Hy).
  split; [done|]. unfold stored. by rewrite Hx, Hy.
Qed.

Lemma no_movement_witness :
  gameGrid (GameLogic.updatePhysics push_row).2 = gameGrid push_row
  ∧ stored (GameLogic.updatePhysics push_row).2 1%nat = (1, 0).
Proof.
  destruct (no_movement_reported_means_nothing_moved push_row) as [Hg Hsame];
    [done|].
  split; [done|]. by destruct (Hsame 1%nat) as [_ ->].
Defined.

Lemma alive_tryMoveBoulderDown w r0 x y r :
  alive (heap (GameLogic.tryMoveBoulderDown w r0 x y).2 r) = alive (heap w r)
  ∨ (playerKilled (GameLogic.tryMoveBoulderDown w r0 x y).1 = true
     ∧ type (heap w r) = PLAYER
     ∧ alive (heap (GameLogic.tryMoveBoulderDown w r0 x y).2 r) = false).
Proof.
  assert (Hfall : ∀ b r1,
    alive (mutate (set_falling b) r1 (heap w) r) = alive (heap w r)).
  { intros b r1. destruct (decide (r = r1)) as [->|Hne].
    - by rewrite mutate_same, alive_set_falling.
    - by rewrite mutate_other. }
  unfold GameLogic.tryMoveBoulderDown.
  destruct (isValidPosition (gameGrid w) x (y + 1)); cbn [negb];
    [|left; apply Hfall].
  destruct (getEntity (gameGrid w) x (y + 1)) as [b|].
  - destruct (bool_decide (type (heap w b) = PLAYER) && falling (heap w r0))
      eqn:Hkill; cbn [fst snd heap playerKilled]; [|left; apply Hfall].
    apply andb_true_iff in Hkill as [Hp%bool_decide_eq_true _].
    destruct (decide (r = b)) as [->|Hne].
    + right. by rewrite mutate_same, alive_set_alive_false.
    + left. by rewrite mutate_other.
  - left.
    match goal with
    | |- context [moveEntity ?w1 x y x (y + 1)] =>
        destruct (moveEntity_cases w1 x y x (y + 1))
          as [-> | (r1 & _ & _ & _ & ->)]
    end; cbn [snd heap]; [apply Hfall|].
    destruct (decide (r = r1)) as [->|Hne].
    + rewrite moved_world_heap_same, alive_setPosition. apply Hfall.
    + rewrite moved_world_heap_other by done. apply Hfall.
Qed.

Lemma killed_tryMoveBoulderDown w r0 x y :
  playerKilled (GameLogic.tryMoveBoulderDown w r0 x y).1 = true →
  ∃ p, type (heap w p) = PLAYER
       ∧ alive (heap (GameLogic.tryMoveBoulderDown w r0 x y).2 p) = false.
Proof.
  unfold GameLogic.tryMoveBoulderDown.
  destruct (isValidPosition (gameGrid w) x (y + 1)); cbn [negb]; [|done].
  destruct (getEntity (gameGrid w) x (y + 1)) as [b|].
  - destruct (bool_decide (type (heap w b) = PLAYER) && falling (heap w r0))
      eqn:Hkill; [|done].
    apply andb_true_iff in Hkill as [Hp%bool_decide_eq_true _].
    intros _. exists b. cbn [snd heap].
    by rewrite mutate_same, alive_set_alive_false.
  - by destruct (moveEntity _ x y x (y + 1)).
Qed.

Lemma alive_settle w r0 x y r :
  alive (heap (GameLogic.settle w r0 x y) r) = alive (heap w r).
Proof.
  unfold GameLogic.settle, stopFalling. repeat case_match; try done.
  cbn [heap]. destruct (decide (r = r0)) as [->|Hne].
  - by rewrite mutate_same, alive_set_falling.
  - by rewrite mutate_other.
Qed.

(** What a gravity step does to the [alive] flags and to [anyDied]. *)
Lemma gravityStep_alive l c :
  (GameLogic.anyDied l = true →
   GameLogic.anyDied (GameLogic.gravityStep l c) = true)
  ∧ (∀ r, alive (heap (GameLogic.world (GameLogic.gravityStep l c)) r)
          = alive (heap (GameLogic.world l) r)
          ∨ (GameLogic.anyDied (GameLogic.gravityStep l c) = true
             ∧ alive (heap (GameLogic.world (GameLogic.gravityStep l c)) r)
               = false))
  ∧ (GameLogic.anyDied (GameLogic.gravityStep l c) = true →
     GameLogic.anyDied l = true
     ∨ ∃ p, type (heap (GameLogic.world l) p) = PLAYER
            ∧ alive (heap (GameLogic.world (GameLogic.gravityStep l c)) p)
              = false).
Proof.
  destruct c as [x y]. unfold GameLogic.gravityStep.
  set (w := GameLogic.world l).
  destruct (getEntity (gameGrid w) x y) as [r0|]; [|by auto].
  rewrite tryMoveDiamondDown_eq.
  assert (Hboth :
    ∀ (a b : GameLogic.Loop),
      (if bool_decide (type (heap w r0) = BOULDER) then a
       else if bool_decide (type (heap w r0) = DIAMOND) then a else b) = a
      ∨ (if bool_decide (type (heap w r0) = BOULDER) then a
         else if bool_decide (type (heap w r0) = DIAMOND) then a else b) = b).
  { intros a b. repeat case_bool_decide; auto. }
  match goal with
  | |- context [if bool_decide (type (heap w r0) = BOULDER) then ?a else _] =>
      destruct (Hboth a l) as [-> | ->]; [|by auto]
  end.
  pose proof (alive_tryMoveBoulderDown w r0 x y) as Halive.
  pose proof (killed_tryMoveBoulderDown w r0 x y) as Hkilled.
  destruct (GameLogic.tryMoveBoulderDown w r0 x y) as [[m k] w1].
  cbn [fst snd moved playerKilled GameLogic.anyDied GameLogic.world] in *.
  assert (Hw2 : ∀ r,
    alive (heap (if m then w1 else GameLogic.settle w1 r0 x y) r)
    = alive (heap w1 r)).
  { intros r. destruct m; [done|apply alive_settle]. }
  split; [by destruct k|]. split.
  - intros r. rewrite Hw2. destruct (Halive r) as [?|(-> & _ & ?)]; auto.
  - destruct k; [|by left]. intros _. right.
    destruct (Hkilled eq_refl) as (p & Hp & Hdead). exists p.
    by rewrite Hw2.
Qed.

Lemma rollingStep_alive l c r :
  alive (heap (GameLogic.world (GameLogic.rollingStep l c)) r)
  = alive (heap (GameLogic.world l) r).
Proof.
  destruct c as [x y]. unfold GameLogic.rollingStep.
  set (w := GameLogic.world l).
  destruct (getEntity (gameGrid w) x y) as [r0|] eqn:Hc; [|done].
  rewrite rock_test_or. case_bool_decide as Hrock; [|done].
  destruct (tryRolling_cases w r0 x y Hc Hrock) as [Hsame|(d & Hd & Hcan & Hroll)].
  - destruct (GameLogic.tryRolling w r0 x y) as [res w1]. simpl in *. by subst w1.
  - rewrite Hroll. cbn [GameLogic.world]. unfold rolled_world. cbn [heap].
    destruct (decide (r = r0)) as [->|Hne].
    + rewrite mutate_same. unfold startFalling.
      by rewrite alive_set_falling, moved_world_heap_same, alive_setPosition.
    + by rewrite mutate_other, moved_world_heap_other.
Qed.

Lemma gravityStep_types l c r :
  type (heap (GameLogic.world (GameLogic.gravityStep l c)) r)
  = type (heap (GameLogic.world l) r).
Proof.
  destruct c as [x y].
  destruct (gravityStep_spec l x y) as [_ [[_ Hsame] | (r0 & Hrel)]].
  - apply Hsame.
  - by destruct Hrel as (_ & _ & _ & _ & _ & Htypes & _).
Qed.

Lemma gravityPass_alive w todo :
  ∀ l,
    (∀ r, type (heap (GameLogic.world l) r) = type (heap w r)) →
    (∀ r, alive (heap (GameLogic.world l) r) = alive (heap w r)
          ∨ (GameLogic.anyDied l = true
             ∧ alive (heap (GameLogic.world l) r) = false)) →
    (GameLogic.anyDied l = true →
     ∃ p, type (heap w p) = PLAYER
          ∧ alive (heap (GameLogic.world l) p) = false) →
    let l' := foldl GameLogic.gravityStep l todo in
    (∀ r, alive (heap (GameLogic.world l') r) = alive (heap w r)
          ∨ (GameLogic.anyDied l' = true
             ∧ alive (heap (GameLogic.world l') r) = false))
    ∧ (GameLogic.anyDied l' = true →
       ∃ p, type (heap w p) = PLAYER
            ∧ alive (heap (GameLogic.world l') p) = false).
Proof.
  induction todo as [|c todo IH]; intros l Htypes Halive Hdead; [by split|].
  simpl. destruct (gravityStep_alive l c) as (Hmono & Hstep & Hnew).
  apply IH.
  - intros r. by rewrite gravityStep_types.
  - intros r. destruct (Hstep r) as [->|[? ?]]; [|by right].
    destruct (Halive r) as [?|[? ?]]; [by left|right]. auto.
  - intros Hd. destruct (Hnew Hd) as [Hold|(p & Hp & Hfalse)].
    + destruct (Hdead Hold) as (p & Hp & Hfalse). exists p. split; [done|].
      destruct (Hstep p) as [->|[_ ?]]; done.
    + exists p. by rewrite <- Htypes.
Qed.

Lemma rollingPass_alive todo :
  ∀ l, GameLogic.anyDied (foldl GameLogic.rollingStep l todo)
       = GameLogic.anyDied l
       ∧ ∀ r, alive (heap (GameLogic.world (foldl GameLogic.rollingStep l todo)) r)
              = alive (heap (GameLogic.world l) r).
Proof.
  induction todo as [|c todo IH]; intros l; [done|]. simpl.
  destruct (IH (GameLogic.rollingStep l c)) as [-> Halive].
  split; [apply rollingStep_quiet|].
  intros r. by rewrite Halive, rollingStep_alive.
Qed.

(** X16.  What [playerDied] of a physics turn means.  The flag is decided in
    the gravity pass; the rolling pass never kills.  When it is unset no
    [alive] flag has changed; when it is set some player object has its
    [alive] flag unset afterwards; and physics never sets an [alive] flag. *)
Theorem physics_death_report (w : World) :
  let res := GameLogic.updatePhysics w in
  physPlayerDied res.1
  = GameLogic.anyDied (GameLogic.gravityPass (GameLogic.mkLoop w false false))
  ∧ (physPlayerDied res.1 = false → ∀ r, alive (heap res.2 r) = alive (heap w r))
  ∧ (physPlayerDied res.1 = true →
     ∃ p, type (heap w p) = PLAYER ∧ alive (heap res.2 p) = false)
  ∧ (∀ r, alive (heap res.2 r) = true → alive (heap w r) = true).
Proof.
  intros res. subst res. unfold GameLogic.updatePhysics.
  cbn [fst snd physPlayerDied]. unfold GameLogic.rollingPass.
  set (l1 := GameLogic.gravityPass (GameLogic.mkLoop w false false)).
  destruct (rollingPass_alive (GameLogic.scanOrder (gameGrid (GameLogic.world l1)))
              l1) as [-> Hroll].
  destruct (gravityPass_alive w (GameLogic.scanOrder (gameGrid w))
              (GameLogic.mkLoop w false false)) as [Halive Hdead];
    [done|by left|done|].
  change (foldl GameLogic.gravityStep _ _) with l1 in Halive, Hdead.
  split; [done|]. split; [|split].
  - intros Hnone r. rewrite Hroll.
    destruct (Halive r) as [?|[? _]]; [done|congruence].
  - intros Hd. destruct (Hdead Hd) as (p & Hp & Hfalse). exists p.
    by rewrite Hroll.
  - intros r. rewrite Hroll. destruct (Halive r) as [->|[_ ->]]; done.
Qed.

(** ** Physics: a rock on solid ground *)

(** A step at another cell leaves the rock and its support where they
    are. *)
Lemma rests_on_elsewhere w w' r s x y cx cy :
  phys_inv w →
  getEntity (gameGrid w) x y = Some r →
  is_rock (heap w r) →
  getEntity (gameGrid w) x (y + 1) = Some s →
  ¬ is_rock (heap w s) →
  (cx, cy) ≠ (x, y) →
  (stays w w' ∨ ∃ r0 t, relocates w w' r0 (cx, cy) t) →
  phys_inv w'
  ∧ getEntity (gameGrid w') x y = Some r
  ∧ getEntity (gameGrid w') x (y + 1) = Some s
  ∧ ∀ r', type (heap w' r') = type (heap w r').
Proof.
  intros Hinv Hr Hrock Hs Hnrock Hother [Hstay | (r0 & [tx ty] & Hrel)].
  - split; [by eapply stays_inv|]. destruct Hstay as [Hg Hsame].
    rewrite Hg. split; [done|]. split; [done|]. intros r'. apply Hsame.
  - pose proof Hinv as [Hwf Hplaced].
    pose proof Hrel as (Hc & Hrock0 & Hvt & Hfree & _ & Htypes & _).
    cbn [fst snd] in Hc, Hfree.
    pose proof (λ x' y', relocates_getEntity _ _ _ _ _ x' y' Hwf Hrel) as Hget.
    split; [by eapply relocates_inv|]. rewrite !Hget.
    split; [|split; [|done]].
    + rewrite decide_False by (intros [= <- <-]; congruence).
      by rewrite decide_False.
    + rewrite decide_False by (intros [= <- <-]; congruence).
      rewrite decide_False; [done|]. intros [= <- <-].
      rewrite Hc in Hs. by simplify_eq.
Qed.

Lemma rests_on_gravityStep r s x y l c todo :
  rests_on r s x y (GameLogic.world l) (c :: todo) →
  rests_on r s x y (GameLogic.world (GameLogic.gravityStep l c)) todo.
Proof.
  intros (Hinv & Hr & Hrock & Hs & Hnrock & Hplayer & Hvisit).
  destruct c as [cx cy]. set (w := GameLogic.world l) in *.
  pose proof (getEntity_Some_valid _ _ _ _ Hs) as Hvs.
  assert (Hne : s ≠ r) by (intros ->; done).
  destruct (decide ((cx, cy) = (x, y))) as [[= -> ->]|Hother].
  - assert (Hstep : GameLogic.world (GameLogic.gravityStep l (x, y))
                    = {| heap := mutate stopFalling r (heap w);
                         gameGrid := gameGrid w |}).
    { unfold GameLogic.gravityStep. fold w. rewrite Hr.
      rewrite tryMoveDiamondDown_eq, rock_test by done.
      unfold GameLogic.tryMoveBoulderDown. rewrite Hvs, Hs. cbn [negb].
      assert (Hnokill : bool_decide (type (heap w s) = PLAYER)
                        && falling (heap w r) = false).
      { case_bool_decide; [|done]. by rewrite Hplayer. }
      rewrite Hnokill. cbn [moved playerKilled GameLogic.world].
      unfold GameLogic.settle. cbn [heap gameGrid]. rewrite Hvs, Hs.
      rewrite bool_decide_eq_true_2 by eauto. cbn [andb].
      unfold stopFalling. by rewrite mutate_same, falling_stopFalling. }
    rewrite Hstep. unfold stopFalling.
    split; [eapply stays_inv; [done|apply stays_set_falling]|].
    cbn [heap gameGrid]. rewrite mutate_same, mutate_other by done.
    split; [done|]. split; [unfold is_rock; by rewrite type_set_falling|].
    split; [done|]. split; [done|].
    rewrite falling_stopFalling. by split; [|right].
  - assert (Hframe : heap (GameLogic.world (GameLogic.gravityStep l (cx, cy))) r
                     = heap w r).
    { apply gravityStep_frame;
        [|intros Hp; fold w in Hp; destruct Hrock; congruence].
      intros Hc. destruct Hinv as [_ Hplaced].
      destruct (Hplaced _ _ _ Hc Hrock) as [Hx Hy].
      destruct (Hplaced _ _ _ Hr Hrock) as [Hx' Hy'].
      apply Hother. f_equal; congruence. }
    destruct (rests_on_elsewhere w
                (GameLogic.world (GameLogic.gravityStep l (cx, cy)))
                r s x y cx cy) as (Hinv' & Hr' & Hs' & Htypes); try done.
    { destruct (gravityStep_spec l cx cy) as [_ [?|[r0 ?]]]; [by left|right].
      eauto. }
    split; [done|]. split; [done|]. rewrite Hframe.
    split; [done|]. split; [done|].
    split; [unfold is_rock; by rewrite Htypes|].
    split; [by rewrite Htypes|].
    destruct Hvisit as [Hin|?]; [|by right]. left.
    apply elem_of_cons in Hin as [?|?]; [congruence|done].
Qed.

Lemma rests_on_rollingStep r s x y l c :
  rests_on r s x y (GameLogic.world l) [] →
  rests_on r s x y (GameLogic.world (GameLogic.rollingStep l c)) [].
Proof.
  intros (Hinv & Hr & Hrock & Hs & Hnrock & Hplayer & Hvisit).
  destruct c as [cx cy]. set (w := GameLogic.world l) in *.
  pose proof (getEntity_Some_valid _ _ _ _ Hs) as Hvs.
  destruct (decide ((cx, cy) = (x, y))) as [[= -> ->]|Hother].
  - assert (Hstep : GameLogic.world (GameLogic.rollingStep l (x, y)) = w).
    { unfold GameLogic.rollingStep. fold w. rewrite Hr, rock_test_or.
      rewrite bool_decide_eq_true_2 by done.
      unfold GameLogic.tryRolling. rewrite Hvs, Hs. cbn [negb].
      rewrite rock_test_or, bool_decide_eq_false_2 by done. done. }
    rewrite Hstep. unfold rests_on. by do 6 (split; [done|]).
  - assert (Hframe : heap (GameLogic.world (GameLogic.rollingStep l (cx, cy))) r
                     = heap w r).
    { apply rollingStep_frame.
      intros Hc. destruct Hinv as [_ Hplaced].
      destruct (Hplaced _ _ _ Hc Hrock) as [Hx Hy].
      destruct (Hplaced _ _ _ Hr Hrock) as [Hx' Hy'].
      apply Hother. f_equal; congruence. }
    destruct (rests_on_elsewhere w
                (GameLogic.world (GameLogic.rollingStep l (cx, cy)))
                r s x y cx cy) as (Hinv' & Hr' & Hs' & Htypes); try done.
    { destruct (rollingStep_spec l cx cy) as [?|(r0 & d & _ & ?)];
        [by left|right]. eauto. }
    split; [done|]. split; [done|]. rewrite Hframe.
    split; [done|]. split; [done|].
    split; [unfold is_rock; by rewrite Htypes|].
    split; [by rewrite Htypes|done].
Qed.

Lemma rests_on_gravityPass r s x y todo :
  ∀ l, rests_on r s x y (GameLogic.world l) todo →
       rests_on r s x y (GameLogic.world (foldl GameLogic.gravityStep l todo)) [].
Proof.
  induction todo as [|c todo IH]; intros l Hrest; [done|].
  simpl. by apply IH, rests_on_gravityStep.
Qed.

Lemma rests_on_rollingPass r s x y todo :
  ∀ l, rests_on r s x y (GameLogic.world l) [] →
       rests_on r s x y (GameLogic.world (foldl GameLogic.rollingStep l todo)) [].
Proof.
  induction todo as [|c todo IH]; intros l Hrest; [done|].
  simpl. by apply IH, rests_on_rollingStep.
Qed.

(** X17.  A boulder or diamond that lies on something that is neither a
    boulder nor a diamond (a wall, dirt, the exit; or the player, as long
    as the rock's [falling] flag is unset) rests through a physics turn: it
    is in its cell afterwards, on the same support, stores the cell's
    coordinates, and its [falling] flag is unset. *)
Theorem rock_on_solid_ground_rests (w : World) (x y : Z) (r s : ref) :
  phys_inv w →
  getEntity (gameGrid w) x y = Some r →
  is_rock (heap w r) →
  getEntity (gameGrid w) x (y + 1) = Some s →
  ¬ is_rock (heap w s) →
  (type (heap w s) = PLAYER → falling (heap w r) = false) →
  let w' := (GameLogic.updatePhysics w).2 in
  getEntity (gameGrid w') x y = Some r
  ∧ getEntity (gameGrid w') x (y + 1) = Some s
  ∧ stored w' r = (x, y)
  ∧ falling (heap w' r) = false.
Proof.
  intros Hinv Hr Hrock Hs Hnrock Hplayer w'. subst w'.
  unfold GameLogic.updatePhysics. cbn [snd].
  unfold GameLogic.rollingPass, GameLogic.gravityPass.
  set (l0 := GameLogic.mkLoop w false false).
  assert (H0 : rests_on r s x y (GameLogic.world l0)
                 (GameLogic.scanOrder (gameGrid (GameLogic.world l0)))).
  { unfold rests_on. do 6 (split; [done|]). left. apply elem_of_scanOrder.
    apply getEntity_Some_valid, isValidPosition_spec in Hr, Hs.
    cbn [GameLogic.world l0]. lia. }
  apply rests_on_gravityPass in H0.
  set (l1 := foldl GameLogic.gravityStep l0 _) in *.
  apply (rests_on_rollingPass r s x y
           (GameLogic.scanOrder (gameGrid (GameLogic.world l1)))) in H0.
  destruct H0 as ([_ Hplaced] & Hr' & Hrock' & Hs' & _ & _ & Hvisit).
  split; [done|]. split; [done|].
  destruct (Hplaced _ _ _ Hr' Hrock') as [Hx Hy].
  split; [unfold stored; by rewrite Hx, Hy|].
  destruct Hvisit as [Hin|?]; [by apply elem_of_nil in Hin|done].
Qed.

Lemma push_row_inv : phys_inv push_row.
Proof. by apply phys_inv_check. Qed.

Lemma rock_on_solid_ground_witness :
  getEntity (gameGrid (GameLogic.updatePhysics push_row).2) 1 0 = Some 1%nat
  ∧ falling (heap (GameLogic.updatePhysics push_row).2 1%nat) = false.
Proof.
  destruct (rock_on_solid_ground_rests push_row 1 0 1%nat 3%nat)
    as (Hcell & _ & _ & Hflag);
    [apply push_row_inv | done | by left | done | by intros [|] | done |].
  by split.
Defined.

(** ** Levels: what the constructor builds *)

Lemma setPosition_same x y e :
  ent_x e = x → ent_y e = y → setPosition x y e = e.
Proof.
  intros <- <-. unfold setPosition. rewrite !Z.eqb_refl. by destruct e.
Qed.

Lemma heap_insert_same (h : Heap) (r : ref) (e : Entity) : <[r := e]> h r = e.
Proof. apply fn_lookup_insert. Qed.

Lemma heap_insert_other (h : Heap) (r r' : ref) (e : Entity) :
  r' ≠ r → <[r := e]> h r' = h r'.
Proof. intros. by apply fn_lookup_insert_ne. Qed.

(** The objects [createEntityFromChar] builds. *)
Lemma createEntityFromChar_cases quota c x y e :
  Level.createEntityFromChar quota c x y = Some e →
  e = new_Player x y ∨ e = new_Wall x y false ∨ e = new_Dirt x y
  ∨ e = new_Diamond x y 10 ∨ e = new_Boulder x y ∨ e = new_Exit x y quota.
Proof.
  unfold Level.createEntityFromChar. repeat case_match; naive_solver.
Qed.

Lemma createEntityFromChar_stored quota c x y e :
  Level.createEntityFromChar quota c x y = Some e →
  ent_x e = x ∧ ent_y e = y ∧ class_ok e.
Proof.
  intros H. apply createEntityFromChar_cases in H.
  destruct H as [-> | [-> | [-> | [-> | [-> | ->]]]]]; done.
Qed.

Lemma entity_at_Some w x y e :
  entity_at w x y = Some e
  ↔ ∃ r, getEntity (gameGrid w) x y = Some r ∧ heap w r = e.
Proof.
  unfold entity_at. destruct (getEntity (gameGrid w) x y) as [r|]; simpl.
  - split; [intros [= <-]; eauto|]. by intros (r' & [= <-] & ->).
  - split; [done|]. by intros (r' & ? & _).
Qed.

Lemma entity_at_None w x y :
  entity_at w x y = None ↔ getEntity (gameGrid w) x y = None.
Proof. unfold entity_at. by destruct (getEntity (gameGrid w) x y). Qed.

(** One character of the layout, placed in an empty in-bounds cell. *)
Lemma place_spec quota y s x c :
  load_inv s →
  isValidPosition (gameGrid (Level.in_world s)) x y = true →
  entity_at (Level.in_world s) x y = None →
  let s' := Level.place quota y s (x, c) in
  load_inv s'
  ∧ getDimensions (gameGrid (Level.in_world s'))
    = getDimensions (gameGrid (Level.in_world s))
  ∧ entity_at (Level.in_world s') x y
    = Level.createEntityFromChar quota c x y
  ∧ (∀ x' y', (x', y') ≠ (x, y) →
       entity_at (Level.in_world s') x' y' = entity_at (Level.in_world s) x' y').
Proof.
  intros (Hwf & Hfresh & Hclass & Hplayer) Hv Hfree s'. subst s'.
  apply entity_at_None in Hfree.
  unfold Level.place.
  destruct (Level.createEntityFromChar quota c x y) as [e|] eqn:He;
    [|split; [done|]; split; [done|]; split; [by apply entity_at_None|done]].
  destruct (createEntityFromChar_stored _ _ _ _ _ He) as (Hx & Hy & Hce).
  set (r := Level.in_next s).
  set (w0 := {| heap := <[r := e]> (heap (Level.in_world s));
                gameGrid := gameGrid (Level.in_world s) |}).
  rewrite (setEntity_valid w0) by done. cbn [snd].
  set (w1 := {| heap := mutate (setPosition x y) r (heap w0);
                gameGrid := write_cell (gameGrid w0) x y (Some r) |}).
  assert (Hr : heap w1 r = e).
  { cbn [heap w1 w0]. rewrite mutate_same, heap_insert_same.
    by apply setPosition_same. }
  assert (Hold : ∀ r', r' ≠ r → heap w1 r' = heap (Level.in_world s) r').
  { intros r' Hne. cbn [heap w1 w0].
    by rewrite mutate_other, heap_insert_other. }
  assert (Hget : ∀ x' y',
    getEntity (gameGrid w1) x' y'
    = if decide ((x', y') = (x, y)) then Some r
      else getEntity (gameGrid (Level.in_world s)) x' y').
  { intros x' y'. cbn [gameGrid w1 w0]. by rewrite getEntity_write_cell. }
  assert (Hlt : ∀ x' y' r', getEntity (gameGrid (Level.in_world s)) x' y' = Some r' →
                            r' ≠ r).
  { intros x' y' r' Hc%Hfresh. subst r. lia. }
  cbn [Level.in_world Level.in_next Level.in_player].
  split; [|split; [done|split]].
  - unfold load_inv. cbn [Level.in_world Level.in_next Level.in_player].
    split; [by apply write_cell_wf|]. split; [|split].
    + intros x' y' r' Hc. rewrite Hget in Hc. case_decide.
      * simplify_eq. lia.
      * apply Hfresh in Hc. lia.
    + intros r'. destruct (decide (r' = r)) as [->|Hne].
      * by rewrite Hr.
      * by rewrite Hold.
    + rewrite Hr. case_bool_decide as Hp.
      * split; [by rewrite Hr|]. exists x, y. rewrite Hget.
        by rewrite decide_True.
      * destruct (Level.in_player s) as [p|].
        -- destruct Hplayer as [Htp (px & py & Hcp)].
           pose proof (Hlt _ _ _ Hcp) as Hne. rewrite Hold by done.
           split; [done|]. exists px, py. rewrite Hget.
           rewrite decide_False by (intros [= -> ->]; congruence). done.
        -- intros x' y' r' Hc. rewrite Hget in Hc. case_decide.
           ++ simplify_eq. by rewrite Hr.
           ++ rewrite Hold by eauto. eauto.
  - unfold entity_at. rewrite Hget, decide_True by done.
    cbn [fmap option_fmap option_map]. by rewrite Hr.
  - intros x' y' Hne. unfold entity_at. rewrite Hget, decide_False by done.
    destruct (getEntity (gameGrid (Level.in_world s)) x' y') as [r'|] eqn:Hc;
      [|done].
    cbn [fmap option_fmap option_map]. by rewrite Hold by eauto.
Qed.

(** A row of characters with distinct columns, placed in empty in-bounds
    cells of row [y]. *)
Lemma place_row quota y xcs :
  ∀ s,
    load_inv s →
    NoDup xcs.*1 →
    (∀ x c, (x, c) ∈ xcs →
       isValidPosition (gameGrid (Level.in_world s)) x y = true
       ∧ entity_at (Level.in_world s) x y = None) →
    let s' := foldl (Level.place quota y) s xcs in
    load_inv s'
    ∧ getDimensions (gameGrid (Level.in_world s'))
      = getDimensions (gameGrid (Level.in_world s))
    ∧ (∀ x c, (x, c) ∈ xcs →
         entity_at (Level.in_world s') x y
         = Level.createEntityFromChar quota c x y)
    ∧ (∀ x' y', y' ≠ y ∨ x' ∉ xcs.*1 →
         entity_at (Level.in_world s') x' y' = entity_at (Level.in_world s) x' y').
Proof.
  induction xcs as [|[x0 c0] xcs IH]; intros s Hinv Hnodup Hcells;
    [split; [done|]; split; [done|]; split; [by intros ?? ?%elem_of_nil|done]|].
  cbn [foldl fmap list_fmap] in *. apply NoDup_cons in Hnodup as [Hx0 Hnodup].
  destruct (Hcells x0 c0) as [Hv0 Hfree0]; [by left|].
  destruct (place_spec quota y s x0 c0 Hinv Hv0 Hfree0)
    as (Hinv1 & Hdim1 & Hnew1 & Hold1).
  set (s1 := Level.place quota y s (x0, c0)) in *.
  assert (Hvalid1 : ∀ x y', isValidPosition (gameGrid (Level.in_world s1)) x y'
                            = isValidPosition (gameGrid (Level.in_world s)) x y').
  { intros x y'. unfold isValidPosition.
    pose proof (f_equal fst Hdim1) as Hw. pose proof (f_equal snd Hdim1) as Hh.
    cbn [getDimensions fst snd] in Hw, Hh. by rewrite Hw, Hh. }
  destruct (IH s1 Hinv1 Hnodup) as (Hinv2 & Hdim2 & Hnew2 & Hold2).
  { intros x c Hin. destruct (Hcells x c) as [Hv Hfree]; [by right|].
    rewrite Hvalid1. split; [done|]. rewrite Hold1; [done|].
    intros [= ->]. apply Hx0. apply list_elem_of_fmap. by exists (x0, c). }
  split; [done|]. split; [congruence|]. split.
  - intros x c [[= -> ->]|Hin]%elem_of_cons.
    + rewrite Hold2 by (by right). done.
    + by apply Hnew2.
  - intros x' y' Hout. rewrite Hold2.
    + apply Hold1. intros [= -> ->]. destruct Hout as [?|Hout]; [done|].
      apply Hout. by left.
    + destruct Hout as [?|Hout]; [by left|right].
      intros ?. apply Hout. by right.
Qed.

Lemma elem_of_indexed {A} (l : list A) (i : Z) (a : A) :
  (i, a) ∈ Level.indexed l ↔ 0 ≤ i ∧ l !! Z.to_nat i = Some a.
Proof.
  unfold Level.indexed. rewrite list_elem_of_lookup. split.
  - intros (k & Hk). apply lookup_zip_with_Some in Hk
      as (i' & a' & [= <- <-] & Hi & Ha).
    apply lookup_seqZ in Hi as [-> _]. rewrite Z.add_0_l, Nat2Z.id.
    split; [lia|done].
  - intros [Hi Ha]. exists (Z.to_nat i). apply lookup_zip_with_Some.
    exists i, a. split; [done|]. split; [|done].
    apply lookup_seqZ. apply lookup_lt_Some in Ha. lia.
Qed.

Lemma fst_indexed {A} (l : list A) :
  (Level.indexed l).*1 = seqZ 0 (Z.of_nat (length l)).
Proof.
  unfold Level.indexed. apply fst_zip. rewrite length_seqZ. lia.
Qed.

Lemma length_list_ascii_of_string (s : string) :
  length (list_ascii_of_string s) = String.length s.
Proof. induction s as [|c s IH]; [done|]. simpl. by rewrite IH. Qed.

Lemma dimensions_valid g g' x y :
  getDimensions g' = getDimensions g →
  isValidPosition g' x y = isValidPosition g x y.
Proof.
  intros Hdim. unfold isValidPosition.
  pose proof (f_equal fst Hdim) as Hw. pose proof (f_equal snd Hdim) as Hh.
  cbn [getDimensions fst snd] in Hw, Hh. by rewrite Hw, Hh.
Qed.

Lemma entity_at_invalid w x y :
  isValidPosition (gameGrid w) x y = false → entity_at w x y = None.
Proof. intros Hv. unfold entity_at. by rewrite getEntity_invalid. Qed.

(** One row of the layout, loaded into an empty row of the grid. *)
Lemma loadRow_spec quota s y row :
  load_inv s →
  0 ≤ y < height (gameGrid (Level.in_world s)) →
  Z.of_nat (String.length row) ≤ width (gameGrid (Level.in_world s)) →
  (∀ x, entity_at (Level.in_world s) x y = None) →
  let s' := Level.loadRow quota s (y, row) in
  load_inv s'
  ∧ getDimensions (gameGrid (Level.in_world s'))
    = getDimensions (gameGrid (Level.in_world s))
  ∧ (∀ x, 0 ≤ x →
       entity_at (Level.in_world s') x y
       = list_ascii_of_string row !! Z.to_nat x
         ≫= λ c, Level.createEntityFromChar quota c x y)
  ∧ (∀ x' y', y' ≠ y →
       entity_at (Level.in_world s') x' y' = entity_at (Level.in_world s) x' y').
Proof.
  intros Hinv Hy Hlen Hempty s'. subst s'. unfold Level.loadRow.
  set (chars := list_ascii_of_string row).
  assert (Hchars : length chars = String.length row)
    by apply length_list_ascii_of_string.
  destruct (place_row quota y (Level.indexed chars) s Hinv)
    as (Hinv' & Hdim' & Hnew & Hold).
  { rewrite fst_indexed. apply NoDup_seqZ. }
  { intros x c [Hx Hc]%elem_of_indexed. split; [|done].
    apply lookup_lt_Some in Hc. apply isValidPosition_spec. lia. }
  split; [done|]. split; [done|]. split.
  - intros x Hx. destruct (chars !! Z.to_nat x) as [c|] eqn:Hc.
    + cbn [mbind option_bind]. apply Hnew. by apply elem_of_indexed.
    + cbn [mbind option_bind]. rewrite Hold; [done|]. right.
      rewrite fst_indexed, elem_of_seqZ. apply lookup_ge_None in Hc. lia.
  - intros x' y' Hne. apply Hold. by left.
Qed.

(** Rows with distinct indices, loaded into empty rows of the grid. *)
Lemma load_rows quota yrs :
  ∀ s,
    load_inv s →
    NoDup yrs.*1 →
    (∀ y row, (y, row) ∈ yrs →
       0 ≤ y < height (gameGrid (Level.in_world s))
       ∧ Z.of_nat (String.length row) ≤ width (gameGrid (Level.in_world s))
       ∧ ∀ x, entity_at (Level.in_world s) x y = None) →
    let s' := foldl (Level.loadRow quota) s yrs in
    load_inv s'
    ∧ getDimensions (gameGrid (Level.in_world s'))
      = getDimensions (gameGrid (Level.in_world s))
    ∧ (∀ y row x, (y, row) ∈ yrs → 0 ≤ x →
         entity_at (Level.in_world s') x y
         = list_ascii_of_string row !! Z.to_nat x
           ≫= λ c, Level.createEntityFromChar quota c x y)
    ∧ (∀ x' y', y' ∉ yrs.*1 →
         entity_at (Level.in_world s') x' y' = entity_at (Level.in_world s) x' y').
Proof.
  induction yrs as [|[y0 row0] yrs IH]; intros s Hinv Hnodup Hrows;
    [split; [done|]; split; [done|]; split; [by intros ??? ?%elem_of_nil|done]|].
  cbn [foldl fmap list_fmap] in *. apply NoDup_cons in Hnodup as [Hy0 Hnodup].
  destruct (Hrows y0 row0) as (Hy & Hlen & Hempty); [by left|].
  destruct (loadRow_spec quota s y0 row0 Hinv Hy Hlen Hempty)
    as (Hinv1 & Hdim1 & Hnew1 & Hold1).
  set (s1 := Level.loadRow quota s (y0, row0)) in *.
  pose proof (f_equal fst Hdim1) as Hw. pose proof (f_equal snd Hdim1) as Hh.
  cbn [getDimensions fst snd] in Hw, Hh.
  destruct (IH s1 Hinv1 Hnodup) as (Hinv2 & Hdim2 & Hnew2 & Hold2).
  { intros y row Hin. destruct (Hrows y row) as (Hy' & Hlen' & Hempty');
      [by right|].
    rewrite Hw, Hh. split; [done|]. split; [done|]. intros x.
    rewrite Hold1; [done|]. intros ->. apply Hy0.
    apply list_elem_of_fmap. by exists (y0, row). }
  split; [done|]. split; [congruence|]. split.
  - intros y row x [[= -> ->]|Hin]%elem_of_cons Hx.
    + rewrite Hold2 by done. by apply Hnew1.
    + by apply Hnew2.
  - intros x' y' Hout. rewrite Hold2.
    + apply Hold1. intros ->. apply Hout. by left.
    + intros ?. apply Hout. by right.
Qed.

Lemma filter_all {A} (P : A → Prop) `{!∀ a, Decision (P a)} (l : list A) :
  Forall P l → filter P l = l.
Proof.
  induction 1 as [|a l Ha _ IH]; [done|].
  rewrite filter_cons_True by done. by f_equal.
Qed.

Lemma foldl_max_bounds (a : Z) (l : list Z) :
  a ≤ foldl Z.max a l
  ∧ Forall (λ b, b ≤ foldl Z.max a l) l
  ∧ (foldl Z.max a l = a ∨ foldl Z.max a l ∈ l).
Proof.
  revert a. induction l as [|b l IH]; intros a;
    [simpl; split; [lia|]; split; [constructor|by left]|].
  simpl.
  destruct (IH (Z.max a b)) as (Hge & Hall & Hin).
  split; [lia|]. split.
  - constructor; [lia|done].
  - destruct Hin as [->|Hin]; [|right; by right].
    destruct (Z.max_spec a b) as [[_ ->]|[_ ->]]; [right; by left|by left].
Qed.

Lemma new_GameGrid_wf width height : grid_wf (new_GameGrid width height).
Proof.
  split; simpl; unfold initializeGrid.
  - by rewrite length_replicate.
  - apply Forall_forall. intros row Hrow%elem_of_replicate.
    destruct Hrow as [-> _]. by rewrite length_replicate.
Qed.

Lemma getEntity_new_GameGrid width height x y :
  getEntity (new_GameGrid width height) x y = None.
Proof.
  unfold getEntity. rewrite (cell_initializeGrid width height) by done.
  by case_match.
Qed.

(** Everything the constructor establishes. *)
Lemma Level_new_spec (d : LevelData) :
  let l := Level.new d in
  let g := gameGrid (lv_world l) in
  (∃ next, load_inv (Level.mkLoading (lv_world l) next (lv_player l)))
  ∧ height g = Z.of_nat (length (ld_layout d))
  ∧ Forall (λ row, Z.of_nat (String.length row) ≤ width g) (ld_layout d)
  ∧ (ld_layout d = [] → width g = 0)
  ∧ (ld_layout d ≠ [] →
     ∃ row, row ∈ ld_layout d ∧ width g = Z.of_nat (String.length row))
  ∧ ∀ x y, entity_at (lv_world l) x y
           = layout_char (ld_layout d) x y
             ≫= λ c, Level.createEntityFromChar (ld_diamondsRequired d) c x y.
Proof.
  intros l g. subst l g. unfold Level.new. cbn [lv_world lv_player].
  set (H := Z.of_nat (length (ld_layout d))).
  set (W := match ld_layout d with
            | [] => 0
            | r :: rs => foldl Z.max (Level.row_length r) (Level.row_length <$> rs)
            end).
  set (s0 := {| Level.in_world := {| heap := λ _, Level.no_object;
                                     gameGrid := new_GameGrid W H |};
                Level.in_next := O; Level.in_player := None |}).
  assert (Hwidth : Forall (λ row, Z.of_nat (String.length row) ≤ W) (ld_layout d)).
  { subst W. destruct (ld_layout d) as [|r rs]; [constructor|].
    destruct (foldl_max_bounds (Level.row_length r) (Level.row_length <$> rs))
      as (Hge & Hall & _).
    constructor; [done|]. by rewrite Forall_fmap in Hall. }
  assert (Hsome : ld_layout d ≠ [] →
            ∃ row, row ∈ ld_layout d ∧ W = Z.of_nat (String.length row)).
  { subst W. destruct (ld_layout d) as [|r rs]; [done|]. intros _.
    destruct (foldl_max_bounds (Level.row_length r) (Level.row_length <$> rs))
      as (_ & _ & [->|Hin]).
    - exists r. split; [by left|done].
    - apply list_elem_of_fmap in Hin as (row & -> & Hin). exists row.
      split; [by right|done]. }
  assert (Hinv0 : load_inv s0).
  { split; [apply new_GameGrid_wf|]. split; [|split; [done|]].
    - intros x y r. cbn. by rewrite getEntity_new_GameGrid.
    - intros x y r. cbn. by rewrite getEntity_new_GameGrid. }
  unfold Level.loadLayout.
  rewrite filter_all; cycle 1.
  { apply Forall_forall. intros [y row] [Hy Hrow]%elem_of_indexed.
    apply lookup_lt_Some in Hrow. cbn. lia. }
  destruct (load_rows (ld_diamondsRequired d) (Level.indexed (ld_layout d)) s0 Hinv0)
    as (Hinv & Hdim & Hnew & Hold).
  { rewrite fst_indexed. apply NoDup_seqZ. }
  { intros y row [Hy Hrow]%elem_of_indexed.
    split; [apply lookup_lt_Some in Hrow; cbn; lia|]. split.
    - rewrite Forall_forall in Hwidth. apply Hwidth.
      by eapply list_elem_of_lookup_2.
    - intros x. apply entity_at_None. cbn. apply getEntity_new_GameGrid. }
  set (s := foldl (Level.loadRow (ld_diamondsRequired d)) s0
                  (Level.indexed (ld_layout d))) in *.
  pose proof (f_equal fst Hdim) as Hw. pose proof (f_equal snd Hdim) as Hh.
  cbn [getDimensions fst snd gameGrid Level.in_world s0 new_GameGrid width height]
    in Hw, Hh.
  rewrite Hw, Hh.
  split; [exists (Level.in_next s); by destruct s|].
  split; [done|]. split; [done|].
  split; [intros Hnil; subst W; by rewrite Hnil|]. split; [done|].
  intros x y. unfold layout_char.
  destruct (Z.leb_spec 0 x) as [Hx|Hx]; cycle 1.
  { cbn. apply entity_at_invalid, not_true_iff_false.
    rewrite isValidPosition_spec. lia. }
  destruct (Z.leb_spec 0 y) as [Hy|Hy]; cycle 1.
  { cbn. apply entity_at_invalid, not_true_iff_false.
    rewrite isValidPosition_spec. lia. }
  cbn [andb].
  destruct (ld_layout d !! Z.to_nat y) as [row|] eqn:Hrow.
  - cbn [mbind option_bind]. apply Hnew; [|done]. by apply elem_of_indexed.
  - cbn [mbind option_bind]. rewrite Hold.
    + apply entity_at_None. cbn. apply getEntity_new_GameGrid.
    + rewrite fst_indexed, elem_of_seqZ. apply lookup_ge_None in Hrow. lia.
Qed.

(** X18.  The grid of a level built from a layout is well formed, as high
    as the layout has rows and as wide as its longest row (zero for the
    empty layout); every row fits. *)
Theorem level_grid_has_the_layout_dimensions (d : LevelData) :
  let g := gameGrid (lv_world (Level.new d)) in
  grid_wf g
  ∧ height g = Z.of_nat (length (ld_layout d))
  ∧ Forall (λ row, Z.of_nat (String.length row) ≤ width g) (ld_layout d)
  ∧ (ld_layout d = [] → width g = 0)
  ∧ (ld_layout d ≠ [] →
     ∃ row, row ∈ ld_layout d ∧ width g = Z.of_nat (String.length row)).
Proof.
  intros g. subst g.
  destruct (Level_new_spec d) as ([next Hinv] & Hh & Hw & Hnil & Hsome & _).
  split; [apply Hinv|]. by repeat split.
Qed.

(** X19.  Loading a layout and reading a cell back gives the object the
    character at that place stands for: a player, wall, dirt, diamond worth
    10, boulder or exit with the level's quota, freshly built at that cell,
    and nothing for a blank, for any other character, and beyond the end of
    a row or of the layout. *)
Theorem level_cells_follow_the_layout (d : LevelData) (x y : Z) :
  entity_at (lv_world (Level.new d)) x y
  = layout_char (ld_layout d) x y
    ≫= λ c, Level.createEntityFromChar (ld_diamondsRequired d) c x y.
Proof. by destruct (Level_new_spec d) as (_ & _ & _ & _ & _ & Hcells). Qed.

Lemma loaded_entity (d : LevelData) x y r :
  getEntity (gameGrid (lv_world (Level.new d))) x y = Some r →
  ∃ c, Level.createEntityFromChar (ld_diamondsRequired d) c x y
       = Some (heap (lv_world (Level.new d)) r).
Proof.
  intros Hc.
  destruct (Level_new_spec d) as (_ & _ & _ & _ & _ & Hcells).
  specialize (Hcells x y). unfold entity_at in Hcells. rewrite Hc in Hcells.
  cbn [fmap option_fmap option_map] in Hcells.
  destruct (layout_char (ld_layout d) x y) as [c|]; [|done]. by exists c.
Qed.

Lemma loaded_well_formed (d : LevelData) : well_formed (lv_world (Level.new d)).
Proof.
  destruct (Level_new_spec d) as ([next Hinv] & _).
  destruct Hinv as (Hwf & _ & Hclass & _). cbn [Level.in_world] in *.
  split; [|done]. split; [done|].
  intros x y r Hc _. destruct (loaded_entity d x y r Hc) as [c Hent].
  by destruct (createEntityFromChar_stored _ _ _ _ _ Hent) as (? & ? & _).
Qed.

(** X20.  In a freshly loaded level every object of the grid stores the
    coordinates of its cell, so no object sits in two cells, is of the class
    its type names, is not animating and not falling; the player is alive
    and holds no diamond, and the exit carries the level's quota, is open
    exactly when the quota is zero, and is never solid.  The cached player
    is a player of the grid, and it is null exactly when the grid holds no
    player. *)
Theorem loaded_level_is_well_formed (d : LevelData) :
  let l := Level.new d in
  let w := lv_world l in
  phys_inv w
  ∧ (∀ x y r, getEntity (gameGrid w) x y = Some r →
       stored w r = (x, y)
       ∧ class_ok (heap w r)
       ∧ type (heap w r) ≠ EMPTY
       ∧ isAnimating (heap w r) = false
       ∧ falling (heap w r) = false
       ∧ (type (heap w r) = PLAYER → fields (heap w r) = PlayerFields true 0)
       ∧ (type (heap w r) = EXIT →
          solid (heap w r) = false
          ∧ fields (heap w r)
            = ExitFields (ld_diamondsRequired d =? 0) (ld_diamondsRequired d)))
  ∧ (∀ x y x' y' r, getEntity (gameGrid w) x y = Some r →
                    getEntity (gameGrid w) x' y' = Some r →
                    (x, y) = (x', y'))
  ∧ (Level.getPlayer l = None ↔ findEntityByType w PLAYER = None)
  ∧ (∀ p, Level.getPlayer l = Some p → type (heap w p) = PLAYER ∧ in_grid w p).
Proof.
  intros l w. subst l w.
  assert (Hent : ∀ x y r,
    getEntity (gameGrid (lv_world (Level.new d))) x y = Some r →
    stored (lv_world (Level.new d)) r = (x, y)
    ∧ class_ok (heap (lv_world (Level.new d)) r)
    ∧ type (heap (lv_world (Level.new d)) r) ≠ EMPTY
    ∧ isAnimating (heap (lv_world (Level.new d)) r) = false
    ∧ falling (heap (lv_world (Level.new d)) r) = false
    ∧ (type (heap (lv_world (Level.new d)) r) = PLAYER →
       fields (heap (lv_world (Level.new d)) r) = PlayerFields true 0)
    ∧ (type (heap (lv_world (Level.new d)) r) = EXIT →
       solid (heap (lv_world (Level.new d)) r) = false
       ∧ fields (heap (lv_world (Level.new d)) r)
         = ExitFields (ld_diamondsRequired d =? 0) (ld_diamondsRequired d))).
  { intros x y r Hc. destruct (loaded_entity d x y r Hc) as [c Hcreate].
    apply createEntityFromChar_cases in Hcreate. unfold stored.
    destruct Hcreate as [H | [H | [H | [H | [H | H]]]]];
      rewrite H; by repeat split. }
  split; [apply loaded_well_formed|]. split; [done|]. split.
  { intros x y x' y' r H1 H2.
    destruct (Hent _ _ _ H1) as [E1 _], (Hent _ _ _ H2) as [E2 _]. congruence. }
  destruct (Level_new_spec d) as ([next Hinv] & _).
  destruct Hinv as (_ & _ & _ & Hplayer). cbn [Level.in_world Level.in_player] in *.
  unfold Level.getPlayer. split.
  - destruct (lv_player (Level.new d)) as [p|].
    + destruct Hplayer as [Hp (px & py & Hcp)]. split; [done|].
      intros Hnone. rewrite findEntityByType_None_iff in Hnone.
      by destruct (Hnone _ _ _ Hcp).
    + split; [|done]. intros _. by apply findEntityByType_None_iff.
  - intros p Hp. by rewrite Hp in Hplayer.
Qed.

(** ** Well-formed states are closed under moves and physics turns *)

Lemma well_formed_mutate w m r :
  well_formed w →
  class_ok (m (heap w r)) →
  (is_rock (m (heap w r)) →
   is_rock (heap w r)
   ∧ ent_x (m (heap w r)) = ent_x (heap w r)
   ∧ ent_y (m (heap w r)) = ent_y (heap w r)) →
  well_formed {| heap := mutate m r (heap w); gameGrid := gameGrid w |}.
Proof.
  intros [[Hwf Hplaced] Hclass] Hc Hm. split; [split; [done|]|].
  - intros x y r' Hcell Hrock. cbn [heap gameGrid] in *.
    destruct (decide (r' = r)) as [->|Hne].
    + rewrite mutate_same in *. destruct (Hm Hrock) as (Hr & -> & ->). eauto.
    + rewrite mutate_other in * by done. eauto.
  - intros r'. cbn [heap]. destruct (decide (r' = r)) as [->|Hne].
    + by rewrite mutate_same.
    + by rewrite mutate_other.
Qed.

Lemma class_ok_setPosition x y e : class_ok e → class_ok (setPosition x y e).
Proof. done. Qed.

Lemma class_ok_set_falling b e : class_ok e → class_ok (set_falling b e).
Proof. unfold class_ok. by destruct e as [? ? [] ? ? ? ? ? ? ? []]. Qed.

Lemma class_ok_set_alive b e : class_ok e → class_ok (set_alive b e).
Proof. unfold class_ok. by destruct e as [? ? [] ? ? ? ? ? ? ? []]. Qed.

Lemma class_ok_collectDiamond e : class_ok e → class_ok (collectDiamond e).
Proof. unfold class_ok. by destruct e as [? ? [] ? ? ? ? ? ? ? []]. Qed.

Lemma class_ok_dig e : type e = DIRT → class_ok e → class_ok (dig e).
Proof. unfold class_ok. destruct e as [? ? [] ? ? ? ? ? ? ? []]; done. Qed.

Lemma well_formed_write_None w x y :
  well_formed w →
  isValidPosition (gameGrid w) x y = true →
  well_formed {| heap := heap w; gameGrid := write_cell (gameGrid w) x y None |}.
Proof.
  intros [[Hwf Hplaced] Hclass] Hv.
  split; [split; [by apply write_cell_wf|]|done].
  intros x' y' r Hcell Hrock. cbn [heap gameGrid] in *.
  rewrite getEntity_write_cell in Hcell by done. case_decide; [done|]. eauto.
Qed.

Lemma well_formed_removeEntity w x y :
  well_formed w → well_formed (removeEntity w x y).2.
Proof.
  intros Hw. unfold removeEntity, setEntity.
  destruct (isValidPosition (gameGrid w) x y) eqn:Hv; cbn [negb snd]; [|done].
  by apply well_formed_write_None.
Qed.

Lemma well_formed_moveEntity w fromX fromY toX toY :
  well_formed w → well_formed (moveEntity w fromX fromY toX toY).2.
Proof.
  intros Hw.
  destruct (moveEntity_cases w fromX fromY toX toY)
    as [-> | (r & Hfrom & Hto & _ & ->)]; [done|]. cbn [snd].
  destruct Hw as [[Hwf Hplaced] Hclass].
  pose proof (getEntity_Some_valid _ _ _ _ Hfrom) as Hvf.
  split; [split; [by apply moved_world_wf|]|].
  - intros x y r' Hcell Hrock.
    rewrite moved_world_getEntity in Hcell by done.
    case_decide as Ht.
    { simplify_eq. by rewrite moved_world_heap_same. }
    case_decide as Hf; [done|].
    destruct (decide (r' = r)) as [->|Hne].
    + rewrite moved_world_heap_same in Hrock.
      assert (Hrock' : is_rock (heap w r)) by done.
      destruct (Hplaced _ _ _ Hcell Hrock') as [Hx Hy].
      destruct (Hplaced _ _ _ Hfrom Hrock') as [Hx' Hy'].
      destruct Hf. f_equal; congruence.
    + rewrite moved_world_heap_other in * by done. eauto.
  - intros r'. destruct (decide (r' = r)) as [->|Hne].
    + rewrite moved_world_heap_same. by apply class_ok_setPosition.
    + by rewrite moved_world_heap_other.
Qed.

Lemma well_formed_executePlayerMove w player x y :
  well_formed w → well_formed (GameLogic.executePlayerMove w player x y).2.
Proof.
  intros Hw. unfold GameLogic.executePlayerMove.
  pose proof (well_formed_moveEntity w (ent_x (heap w player))
                (ent_y (heap w player)) x y Hw) as H.
  by destruct (moveEntity w _ _ x y).
Qed.

(** A move of the player keeps a well-formed state well formed, wherever the
    player object says it is. *)
Lemma well_formed_movePlayer w dir :
  well_formed w → well_formed (GameLogic.movePlayer w dir).2.
Proof.
  intros Hw. unfold GameLogic.movePlayer.
  destruct (findEntityByType w PLAYER) as [player|] eqn:Hfind; [|done].
  destruct (findEntityByType_Some _ _ _ Hfind) as [Hplayer _].
  destruct (alive (heap w player)); cbn [negb]; [|done].
  destruct (GameLogic.getDirectionVector dir) as [dx dy].
  set (newX := ent_x (heap w player) + dx).
  set (newY := ent_y (heap w player) + dy).
  destruct (isValidPosition (gameGrid w) newX newY) eqn:Hv; cbn [negb]; [|done].
  destruct (getEntity (gameGrid w) newX newY) as [target|] eqn:Htarget;
    [|by apply well_formed_executePlayerMove].
  destruct (type (heap w target)) eqn:Htype; try done.
  - (* boulder *)
    unfold GameLogic.handleBoulderPush.
    destruct (bool_decide (dir = UP) || bool_decide (dir = DOWN)); [done|].
    destruct (GameLogic.getDirectionVector dir) as [dx' dy'].
    destruct (isValidPosition (gameGrid w) (newX + dx') (newY + dy'));
      cbn [negb]; [|done].
    destruct (getEntity (gameGrid w) (newX + dx') (newY + dy')); [done|].
    pose proof (well_formed_moveEntity w newX newY (newX + dx') (newY + dy') Hw)
      as Hw1.
    destruct (moveEntity w newX newY _ _) as [ok w1]. cbn [snd] in Hw1.
    destruct ok; cbn [negb]; [|done].
    by apply well_formed_executePlayerMove.
  - (* diamond *)
    unfold GameLogic.handleDiamondCollection.
    match goal with
    | |- context [GameLogic.executePlayerMove ?w2 player newX newY] =>
        assert (Hw2 : well_formed w2)
    end.
    { apply well_formed_removeEntity. apply well_formed_mutate; [done|..].
      - apply class_ok_collectDiamond, Hw.
      - unfold is_rock. rewrite type_collectDiamond, Hplayer.
        intros [?|?]; done. }
    pose proof (well_formed_executePlayerMove _ player newX newY Hw2) as H.
    by destruct (GameLogic.executePlayerMove _ player newX newY).
  - (* dirt *)
    unfold GameLogic.handleDirtMovement.
    apply well_formed_executePlayerMove, well_formed_mutate; [done|..].
    + apply class_ok_dig; [done|apply Hw].
    + unfold is_rock. cbn [dig type]. intros [?|?]; done.
  - (* exit *)
    unfold GameLogic.handleExitMovement.
    destruct (num_lt _ _); [done|]. destruct (solid (heap w target)); [done|].
    cbn [snd]. apply well_formed_mutate; [done|..].
    + apply class_ok_setPosition, Hw.
    + unfold is_rock. autorewrite with entity. rewrite Hplayer.
      intros [?|?]; done.
Qed.

Lemma moveEntity_dimensions w fromX fromY toX toY :
  getDimensions (gameGrid (moveEntity w fromX fromY toX toY).2)
  = getDimensions (gameGrid w).
Proof.
  by destruct (moveEntity_cases w fromX fromY toX toY)
    as [-> | (r & _ & _ & _ & ->)].
Qed.

Lemma removeEntity_dimensions w x y :
  getDimensions (gameGrid (removeEntity w x y).2) = getDimensions (gameGrid w).
Proof.
  unfold removeEntity, setEntity.
  by destruct (isValidPosition (gameGrid w) x y).
Qed.

Lemma executePlayerMove_dimensions w player x y :
  getDimensions (gameGrid (GameLogic.executePlayerMove w player x y).2)
  = getDimensions (gameGrid w).
Proof.
  unfold GameLogic.executePlayerMove.
  pose proof (moveEntity_dimensions w (ent_x (heap w player))
                (ent_y (heap w player)) x y) as H.
  by destruct (moveEntity w _ _ x y).
Qed.

(** No move of the player resizes the grid. *)
Lemma movePlayer_dimensions w dir :
  getDimensions (gameGrid (GameLogic.movePlayer w dir).2)
  = getDimensions (gameGrid w).
Proof.
  unfold GameLogic.movePlayer.
  destruct (findEntityByType w PLAYER) as [player|]; [|done].
  destruct (alive (heap w player)); cbn [negb]; [|done].
  destruct (GameLogic.getDirectionVector dir) as [dx dy].
  set (newX := ent_x (heap w player) + dx).
  set (newY := ent_y (heap w player) + dy).
  destruct (isValidPosition (gameGrid w) newX newY); cbn [negb]; [|done].
  destruct (getEntity (gameGrid w) newX newY) as [target|];
    [|by apply executePlayerMove_dimensions].
  destruct (type (heap w target)); try done.
  - unfold GameLogic.handleBoulderPush.
    destruct (bool_decide (dir = UP) || bool_decide (dir = DOWN)); [done|].
    destruct (GameLogic.getDirectionVector dir) as [dx' dy'].
    destruct (isValidPosition (gameGrid w) (newX + dx') (newY + dy'));
      cbn [negb]; [|done].
    destruct (getEntity (gameGrid w) (newX + dx') (newY + dy')); [done|].
    pose proof (moveEntity_dimensions w newX newY (newX + dx') (newY + dy'))
      as H1.
    destruct (moveEntity w newX newY _ _) as [ok w1]. cbn [snd] in H1.
    destruct ok; cbn [negb]; [|done].
    by rewrite executePlayerMove_dimensions.
  - unfold GameLogic.handleDiamondCollection.
    match goal with
    | |- context [GameLogic.executePlayerMove ?w2 player newX newY] =>
        pose proof (executePlayerMove_dimensions w2 player newX newY) as H;
        rewrite removeEntity_dimensions in H
    end.
    by destruct (GameLogic.executePlayerMove _ player newX newY).
  - unfold GameLogic.handleDirtMovement.
    by rewrite executePlayerMove_dimensions.
  - unfold GameLogic.handleExitMovement.
    destruct (num_lt _ _); [done|]. by destruct (solid (heap w target)).
Qed.

(** ** What a physics turn can do to an object

    Every write of the physics functions is a [startFalling], a
    [stopFalling], an [alive = false] or a [setPosition]; what these four
    keep, a whole turn keeps. *)
Section physics_writes.
Variable P : ref → Entity → Prop.
Hypothesis P_falling : ∀ r b e, P r e → P r (set_falling b e).
Hypothesis P_killed : ∀ r e, P r e → P r (set_alive false e).
Hypothesis P_position : ∀ r x y e, P r e → P r (setPosition x y e).

Lemma writes_mutate m r0 w :
  (∀ e, P r0 e → P r0 (m e)) →
  (∀ r, P r (heap w r)) →
  ∀ r, P r (mutate m r0 (heap w) r).
Proof.
  intros Hm Hw r. destruct (decide (r = r0)) as [->|Hne].
  - rewrite mutate_same. by apply Hm.
  - by rewrite mutate_other.
Qed.

Lemma writes_moveEntity w fromX fromY toX toY :
  (∀ r, P r (heap w r)) →
  ∀ r, P r (heap (moveEntity w fromX fromY toX toY).2 r).
Proof.
  intros Hw r.
  destruct (moveEntity_cases w fromX fromY toX toY)
    as [-> | (r1 & _ & _ & _ & ->)]; [done|]. cbn [snd].
  destruct (decide (r = r1)) as [->|Hne].
  - rewrite moved_world_heap_same. by apply P_position.
  - by rewrite moved_world_heap_other.
Qed.

Lemma writes_tryMoveBoulderDown w r0 x y :
  (∀ r, P r (heap w r)) →
  ∀ r, P r (heap (GameLogic.tryMoveBoulderDown w r0 x y).2 r).
Proof.
  intros Hw. unfold GameLogic.tryMoveBoulderDown, stopFalling, startFalling.
  destruct (isValidPosition (gameGrid w) x (y + 1)); cbn [negb].
  - destruct (getEntity (gameGrid w) x (y + 1)) as [b|].
    + destruct (bool_decide (type (heap w b) = PLAYER) && falling (heap w r0));
        cbn [snd heap]; apply writes_mutate; auto.
    + match goal with
      | |- context [moveEntity ?w1 x y x (y + 1)] =>
          pose proof (writes_moveEntity w1 x y x (y + 1)) as H
      end.
      destruct (moveEntity _ x y x (y + 1)) as [ok w2]. cbn [snd] in *.
      apply H. cbn [heap]. apply writes_mutate; auto.
  - cbn [snd heap]. apply writes_mutate; auto.
Qed.

Lemma writes_settle w r0 x y :
  (∀ r, P r (heap w r)) → ∀ r, P r (heap (GameLogic.settle w r0 x y) r).
Proof.
  intros Hw. unfold GameLogic.settle, stopFalling.
  repeat case_match; try done. cbn [heap]. apply writes_mutate; auto.
Qed.

Lemma writes_gravityStep l c :
  (∀ r, P r (heap (GameLogic.world l) r)) →
  ∀ r, P r (heap (GameLogic.world (GameLogic.gravityStep l c)) r).
Proof.
  intros Hw. destruct c as [x y]. unfold GameLogic.gravityStep.
  destruct (getEntity (gameGrid (GameLogic.world l)) x y) as [r0|]; [|done].
  rewrite tryMoveDiamondDown_eq.
  pose proof (writes_tryMoveBoulderDown (GameLogic.world l) r0 x y Hw) as H1.
  destruct (GameLogic.tryMoveBoulderDown (GameLogic.world l) r0 x y)
    as [[m k] w1]. cbn [snd fst moved] in *.
  assert (∀ r, P r (heap (if m then w1 else GameLogic.settle w1 r0 x y) r)).
  { destruct m; [done|]. by apply writes_settle. }
  repeat case_bool_decide; done.
Qed.

Lemma writes_tryRollDirection w r0 x y d :
  (∀ r, P r (heap w r)) →
  ∀ r, P r (heap (GameLogic.tryRollDirection w r0 x y d).2 r).
Proof.
  intros Hw. unfold GameLogic.tryRollDirection, startFalling.
  destruct (negb _ || negb _); [done|].
  destruct (getEntity (gameGrid w) (x + d) y); [done|].
  destruct (getEntity (gameGrid w) (x + d) (y + 1)); [done|].
  pose proof (writes_moveEntity w x y (x + d) (y + 1) Hw) as H.
  destruct (moveEntity w x y (x + d) (y + 1)) as [ok w1]. cbn [snd] in *.
  destruct ok; [|done].
  repeat case_bool_decide; try done; cbn [heap]; apply writes_mutate; auto.
Qed.

Lemma writes_tryRolling w r0 x y :
  (∀ r, P r (heap w r)) →
  ∀ r, P r (heap (GameLogic.tryRolling w r0 x y).2 r).
Proof.
  intros Hw. unfold GameLogic.tryRolling.
  destruct (isValidPosition (gameGrid w) x (y + 1)); cbn [negb]; [|done].
  destruct (getEntity (gameGrid w) x (y + 1)) as [b|]; [|done].
  destruct (negb _ || falling (heap w b)); [done|].
  pose proof (writes_tryRollDirection w r0 x y 1 Hw) as H1.
  destruct (GameLogic.tryRollDirection w r0 x y 1) as [res w1].
  cbn [snd] in H1. destruct (moved res); [done|].
  by apply writes_tryRollDirection.
Qed.

Lemma writes_rollingStep l c :
  (∀ r, P r (heap (GameLogic.world l) r)) →
  ∀ r, P r (heap (GameLogic.world (GameLogic.rollingStep l c)) r).
Proof.
  intros Hw. destruct c as [x y]. unfold GameLogic.rollingStep.
  destruct (getEntity (gameGrid (GameLogic.world l)) x y) as [r0|]; [|done].
  destruct (bool_decide _ || bool_decide _); [|done].
  pose proof (writes_tryRolling (GameLogic.world l) r0 x y Hw) as H1.
  by destruct (GameLogic.tryRolling (GameLogic.world l) r0 x y).
Qed.

Lemma writes_pass (step : GameLogic.Loop → Z * Z → GameLogic.Loop) todo :
  (∀ l c, (∀ r, P r (heap (GameLogic.world l) r)) →
          ∀ r, P r (heap (GameLogic.world (step l c)) r)) →
  ∀ l, (∀ r, P r (heap (GameLogic.world l) r)) →
       ∀ r, P r (heap (GameLogic.world (foldl step l todo)) r).
Proof.
  intros Hstep. induction todo as [|c todo IH]; intros l Hl; [done|].
  cbn [foldl]. apply IH. by apply Hstep.
Qed.

Lemma writes_updatePhysics w :
  (∀ r, P r (heap w r)) →
  ∀ r, P r (heap (GameLogic.updatePhysics w).2 r).
Proof.
  intros Hw. unfold GameLogic.updatePhysics. cbn [snd].
  unfold GameLogic.rollingPass.
  apply writes_pass; [apply writes_rollingStep|].
  unfold GameLogic.gravityPass.
  apply writes_pass; [apply writes_gravityStep|]. done.
Qed.
End physics_writes.

Lemma well_formed_updatePhysics w :
  well_formed w → well_formed (GameLogic.updatePhysics w).2.
Proof.
  intros [Hinv Hclass]. split; [by apply updatePhysics_ok|].
  apply (writes_updatePhysics (λ _, class_ok)); try done.
  - intros _ b e. apply class_ok_set_falling.
  - intros _ e. apply class_ok_set_alive.
Qed.

(** X21.  A physics turn rewrites positions, falling flags and the player's
    alive flag only: no object changes its solid, movable, collectible or
    fallable flag, no diamond its points, the player keeps the number of
    collected diamonds, the exit its quota and open state, and no dead
    player comes back to life. *)
Theorem physics_changes_positions_and_flags_only (w : World) (r : ref) :
  let e := heap w r in
  let e' := heap (GameLogic.updatePhysics w).2 r in
  solid e' = solid e ∧ movable e' = movable e
  ∧ collectible e' = collectible e ∧ fallable e' = fallable e
  ∧ points e' = points e
  ∧ diamondsCollected e' = diamondsCollected e
  ∧ isOpen e' = isOpen e ∧ diamondsRequired e' = diamondsRequired e
  ∧ (alive e' = true → alive e = true).
Proof.
  intros e e'. subst e e'. revert r.
  apply (writes_updatePhysics (λ r e',
    solid e' = solid (heap w r) ∧ movable e' = movable (heap w r)
    ∧ collectible e' = collectible (heap w r)
    ∧ fallable e' = fallable (heap w r)
    ∧ points e' = points (heap w r)
    ∧ diamondsCollected e' = diamondsCollected (heap w r)
    ∧ isOpen e' = isOpen (heap w r)
    ∧ diamondsRequired e' = diamondsRequired (heap w r)
    ∧ (alive e' = true → alive (heap w r) = true))).
  - intros r b e. unfold set_falling, solid, points, diamondsCollected, isOpen,
      diamondsRequired, alive.
    by destruct e as [? ? ? ? ? ? ? ? ? ? []].
  - intros r e. unfold set_alive, points, diamondsCollected, isOpen,
      diamondsRequired, alive.
    destruct e as [? ? ? ? ? ? ? ? ? ? []]; cbn; try done.
    intros (? & ? & ? & ? & ? & ? & ? & ? & ?). by repeat split.
  - intros r x y e. done.
  - intros r. by repeat split.
Qed.

(** X22.  Every state a game reaches from a loaded level by moves of the
    player and physics turns is well formed: the grid keeps the dimensions
    of the layout, every boulder and diamond of the grid stores the
    coordinates of its cell, and every object is of the class its type
    names. *)
Theorem reachable_states_are_well_formed (d : LevelData) (w : World) :
  reachable d w →
  phys_inv w
  ∧ (∀ r, class_ok (heap w r))
  ∧ getDimensions (gameGrid w)
    = getDimensions (gameGrid (lv_world (Level.new d))).
Proof.
  intros Hreach.
  enough (H : well_formed w
              ∧ getDimensions (gameGrid w)
                = getDimensions (gameGrid (lv_world (Level.new d)))).
  { destruct H as [[? ?] ?]. done. }
  induction Hreach as [|w dir Hreach [IHwf IHdim]|w Hreach [IHwf IHdim]].
  - split; [apply loaded_well_formed|done].
  - split; [by apply well_formed_movePlayer|].
    rewrite <- IHdim. apply movePlayer_dimensions.
  - split; [by apply well_formed_updatePhysics|].
    rewrite <- IHdim. by destruct (updatePhysics_ok w (proj1 IHwf)) as [_ [-> _]].
Qed.

Lemma reachable_states_witness :
  phys_inv
    (GameLogic.updatePhysics
       (GameLogic.movePlayer (lv_world (Level.new small_level)) DOWN).2).2.
Proof.
  apply (reachable_states_are_well_formed small_level).
  apply reach_physics, reach_move, reach_loaded.
Defined.

(** ** The turn scheduler: what a turn does to the animation state *)

Lemma reset_fold (g : GameGrid) (cells : list (Z * Z)) (h0 : Heap) (r : ref) :
  foldl (λ h p, match getEntity g p.1 p.2 with
                | Some r => mutate resetAnimation r h
                | None => h
                end) h0 cells r
  = if decide (Exists (λ p, getEntity g p.1 p.2 = Some r) cells)
    then resetAnimation (h0 r) else h0 r.
Proof.
  induction cells as [|p cells IH] using rev_ind.
  - cbn [foldl]. rewrite decide_False; [done|]. by intros ?%Exists_nil.
  - rewrite foldl_app. cbn [foldl].
    destruct (getEntity g p.1 p.2) as [r0|] eqn:Hp.
    + destruct (decide (r = r0)) as [->|Hne].
      * rewrite mutate_same, IH.
        rewrite (decide_True (P := Exists _ (cells ++ [p]))).
        -- by case_decide.
        -- apply Exists_app. right. by constructor.
      * rewrite mutate_other, IH by done.
        apply decide_ext. rewrite Exists_app, Exists_cons, Exists_nil.
        split; [by left|]. intros [?|[?|[]]]; [done|congruence].
    + rewrite IH. apply decide_ext.
      rewrite Exists_app, Exists_cons, Exists_nil.
      split; [by left|]. intros [?|[?|[]]]; [done|congruence].
Qed.

Lemma in_grid_Exists (w : World) (r : ref) :
  in_grid w r
  ↔ Exists (λ p, getEntity (gameGrid w) p.1 p.2 = Some r) (rowMajor (gameGrid w)).
Proof.
  rewrite Exists_exists. split.
  - intros (x & y & Hc). exists (x, y). split; [|done].
    by apply getEntity_rowMajor in Hc as [? _].
  - intros ([x y] & _ & Hc). by exists x, y.
Qed.

Lemma resetAllEntityAnimations_heap (e : Engine) (r : ref) :
  (in_grid (GameEngine.getGrid e) r →
   heap (GameEngine.getGrid (GameEngine.resetAllEntityAnimations e)) r
   = resetAnimation (heap (GameEngine.getGrid e) r))
  ∧ (¬ in_grid (GameEngine.getGrid e) r →
     heap (GameEngine.getGrid (GameEngine.resetAllEntityAnimations e)) r
     = heap (GameEngine.getGrid e) r).
Proof.
  unfold GameEngine.resetAllEntityAnimations.
  cbn [GameEngine.getGrid GameEngine.with_state state GameEngine.set_world
       GameEngine.set_level level lv_world heap].
  rewrite reset_fold, !in_grid_Exists. by case_decide.
Qed.

(** Every object is as it was or has had its animation reset. *)
Lemma resetAllEntityAnimations_either (e : Engine) (r : ref) :
  heap (GameEngine.getGrid (GameEngine.resetAllEntityAnimations e)) r
  = heap (GameEngine.getGrid e) r
  ∨ heap (GameEngine.getGrid (GameEngine.resetAllEntityAnimations e)) r
    = resetAnimation (heap (GameEngine.getGrid e) r).
Proof.
  unfold GameEngine.resetAllEntityAnimations.
  cbn [GameEngine.getGrid GameEngine.with_state state GameEngine.set_world
       GameEngine.set_level level lv_world heap].
  rewrite reset_fold. case_decide; auto.
Qed.

(** X23.  At the start of a turn every object of the grid has its animation
    reset: it is drawn at its own cell whatever the turn progress, and its
    previous position is its current one.  Objects outside the grid, the
    cells and the rest of the engine state are left alone. *)
Theorem turn_start_resets_every_animation (e : Engine) (r : ref) :
  let w := GameEngine.getGrid e in
  let e' := GameEngine.resetAllEntityAnimations e in
  let w' := GameEngine.getGrid e' in
  gameGrid w' = gameGrid w
  ∧ (in_grid w r →
     heap w' r = resetAnimation (heap w r)
     ∧ isAnimating (heap w' r) = false
     ∧ (previousX (heap w' r), previousY (heap w' r)) = stored w r
     ∧ stored w' r = stored w r
     ∧ (∀ progress,
          getInterpolatedPosition progress (heap w' r)
          = (inject_Z (ent_x (heap w r)), inject_Z (ent_y (heap w r))))
     ∧ GameEngine.getInterpolatedPosition e' r
       = (inject_Z (ent_x (heap w r)), inject_Z (ent_y (heap w r))))
  ∧ (¬ in_grid w r → heap w' r = heap w r)
  ∧ state e' = GameEngine.set_world w' (state e)
  ∧ lv_player (level (state e')) = lv_player (level (state e))
  ∧ emitted e' = emitted e
  ∧ reads e' = reads e.
Proof.
  intros w e' w'. subst w e' w'.
  destruct (resetAllEntityAnimations_heap e r) as [Hin Hout].
  split; [reflexivity|]. split; [|split; [done|repeat split; reflexivity]].
  intros Hr. unfold stored, GameEngine.getInterpolatedPosition.
  rewrite (Hin Hr). repeat split; reflexivity.
Qed.

(** ** The turn scheduler: lives and the playing flag *)

Lemma handlePlayerDeath_lives e :
  lives (state (GameEngine.handlePlayerDeath e)) = lives (state e) - 1
  ∧ score (state (GameEngine.handlePlayerDeath e)) = score (state e)
  ∧ (isPlaying (state (GameEngine.handlePlayerDeath e)) = true →
     0 < lives (state (GameEngine.handlePlayerDeath e))).
Proof.
  unfold GameEngine.handlePlayerDeath. cbv zeta.
  cbn [GameEngine.emitEvent GameEngine.Date_now GameEngine.with_state state
       GameEngine.set_lives lives].
  destruct (lives (state e) - 1 <=? 0) eqn:Hl;
    cbn [GameEngine.emitEvent GameEngine.Date_now GameEngine.with_state state
         GameEngine.set_lives GameEngine.set_isPlaying GameEngine.set_level
         lives isPlaying score]; [done|].
  repeat split. intros _. lia.
Qed.

Lemma processMovement_lives d e :
  lives (state (GameEngine.processMovement d e)) = lives (state e).
Proof.
  pose proof (movePlayer_reports_no_death (GameEngine.getGrid e) d) as Hdied.
  unfold GameEngine.processMovement.
  destruct (GameLogic.movePlayer (GameEngine.getGrid e) d) as [result w1].
  cbn [fst] in Hdied. rewrite Hdied. cbn [truthy]. cbv zeta.
  destruct (success result); [|done].
  destruct (truthy (diamondCollected result)), (truthy (levelComplete result));
    try done;
    match goal with
    | |- context [findEntityByType ?w PLAYER] =>
        by destruct (findEntityByType w PLAYER), (findEntityByType w EXIT)
    end.
Qed.

Lemma updatePhysics_lives e :
  lives (state e) - 1 ≤ lives (state (GameEngine.updatePhysics e))
                      ≤ lives (state e)
  ∧ score (state (GameEngine.updatePhysics e)) = score (state e).
Proof.
  unfold GameEngine.updatePhysics.
  destruct (GameLogic.updatePhysics (GameEngine.getGrid e)) as [result w1].
  destruct (physPlayerDied result).
  - destruct (handlePlayerDeath_lives
                (GameEngine.with_state (GameEngine.set_world w1) e))
      as (-> & -> & _).
    cbn [GameEngine.with_state state GameEngine.set_world GameEngine.set_level
         lives score]. split; [lia|done].
  - cbn [GameEngine.with_state state GameEngine.set_world GameEngine.set_level
         lives score]. split; [lia|done].
Qed.

Lemma checkGameConditions_lives e :
  lives (state (GameEngine.checkGameConditions e)) = lives (state e)
  ∧ score (state (GameEngine.checkGameConditions e)) = score (state e)
  ∧ (isPlaying (state (GameEngine.checkGameConditions e)) = true →
     0 < lives (state (GameEngine.checkGameConditions e))).
Proof.
  unfold GameEngine.checkGameConditions. cbv zeta.
  destruct (GameLogic.checkLevelComplete (GameEngine.getGrid e));
    cbn [GameEngine.emitEvent GameEngine.Date_now GameEngine.with_state state
         GameEngine.set_isPlaying lives];
    destruct (lives (state e) <=? 0) eqn:Hl;
    cbn [GameEngine.emitEvent GameEngine.Date_now GameEngine.with_state state
         GameEngine.set_isPlaying lives isPlaying score];
    repeat split; try done; intros _; lia.
Qed.

Lemma determinePlayerAction_state e :
  state (GameEngine.determinePlayerAction e).2 = state e.
Proof.
  unfold GameEngine.determinePlayerAction.
  destruct (currentlyPressedDirection (state e)); [done|].
  cbn [GameEngine.Date_now state].
  destruct (lastPressedDirection (state e)); [|done]. by case_match.
Qed.

Lemma processTurn_lives e :
  lives (state e) - 1 ≤ lives (state (GameEngine.processTurn e))
                      ≤ lives (state e)
  ∧ (isPlaying (state (GameEngine.processTurn e)) = true →
     0 < lives (state (GameEngine.processTurn e))).
Proof.
  unfold GameEngine.processTurn.
  set (e1 := GameEngine.resetAllEntityAnimations e).
  assert (H1 : lives (state e1) = lives (state e)) by done.
  pose proof (determinePlayerAction_state e1) as H2.
  destruct (GameEngine.determinePlayerAction e1) as [action e2].
  cbn [snd] in H2.
  set (e3 := match action with
             | Some d => GameEngine.processMovement d e2
             | None => e2
             end).
  assert (H3 : lives (state e3) = lives (state e)).
  { subst e3. destruct action; rewrite ?processMovement_lives; congruence. }
  destruct (updatePhysics_lives e3) as [H4 _].
  destruct (checkGameConditions_lives (GameEngine.updatePhysics e3))
    as (H5 & _ & H6).
  cbn [GameEngine.Date_now].
  match goal with |- context [if ?b then _ else _] => destruct b end;
    cbn [GameEngine.with_state state GameEngine.set_lastPressedDirection
         lives isPlaying] in *; (split; [lia|done]).
Qed.

Lemma advanceTurn_lives e :
  lives (state e) - 1 ≤ lives (state (GameEngine.advanceTurn e))
                      ≤ lives (state e)
  ∧ ((isPlaying (state e) = true → 0 < lives (state e)) →
     isPlaying (state (GameEngine.advanceTurn e)) = true →
     0 < lives (state (GameEngine.advanceTurn e))).
Proof.
  unfold GameEngine.advanceTurn. cbn [GameEngine.Date_now]. cbv zeta.
  match goal with |- context [if ?b then _ else _] => destruct b end.
  - match goal with
    | |- context [GameEngine.processTurn ?e2] =>
        destruct (processTurn_lives e2) as [Hl Hp]
    end.
    cbn [GameEngine.with_state state GameEngine.set_turnProgress
         GameEngine.set_currentTurn GameEngine.set_lastTurnTime
         lives isPlaying] in *.
    split; [lia|]. intros _. exact Hp.
  - cbn [GameEngine.with_state state GameEngine.set_turnProgress
         lives isPlaying]. split; [lia|done].
Qed.

Lemma countDown_lives dt e :
  lives (state e) - 1 ≤ lives (state (GameEngine.countDown dt e))
                      ≤ lives (state e)
  ∧ ((isPlaying (state e) = true → 0 < lives (state e)) →
     isPlaying (state (GameEngine.countDown dt e)) = true →
     0 < lives (state (GameEngine.countDown dt e))).
Proof.
  unfold GameEngine.countDown. cbv zeta.
  match goal with |- context [if ?b then _ else _] => destruct b end.
  - unfold GameEngine.handleTimeUp. cbv zeta.
    cbn [GameEngine.with_state state GameEngine.set_timeRemaining
         GameEngine.set_lives lives].
    destruct (0 <? lives (state e) - 1) eqn:Hl;
      cbn [GameEngine.emitEvent GameEngine.Date_now GameEngine.with_state state
           GameEngine.set_timeRemaining GameEngine.set_lives
           GameEngine.set_isPlaying lives isPlaying];
      (split; [lia|]); intros _; [lia|done].
  - cbn [GameEngine.with_state state GameEngine.set_timeRemaining
         lives isPlaying]. split; [lia|done].
Qed.

(** X24.  One call of [update] never adds a life and takes at most two (a
    death by a falling rock in the turn and the running out of the clock
    after it); and a game that is only playing while lives are left stays
    so: after the call [isPlaying] implies [lives > 0]. *)
Theorem update_takes_at_most_two_lives (deltaTime : Q) (e : Engine) :
  let e' := GameEngine.update deltaTime e in
  lives (state e) - 2 ≤ lives (state e') ≤ lives (state e)
  ∧ ((isPlaying (state e) = true → 0 < lives (state e)) →
     isPlaying (state e') = true → 0 < lives (state e')).
Proof.
  intros e'. subst e'. unfold GameEngine.update.
  destruct (negb (isPlaying (state e)) || isPaused (state e));
    [split; [lia|done]|].
  destruct (advanceTurn_lives e) as [H1 H2].
  destruct (countDown_lives deltaTime (GameEngine.advanceTurn e)) as [H3 H4].
  split; [lia|]. intros Hinv. apply H4, H2, Hinv.
Qed.

(** ** The turn scheduler: the score *)

Lemma points_moveEntity w fromX fromY toX toY r :
  points (heap (moveEntity w fromX fromY toX toY).2 r) = points (heap w r).
Proof.
  destruct (moveEntity_cases w fromX fromY toX toY)
    as [-> | (r1 & _ & _ & _ & ->)]; [done|]. cbn [snd].
  destruct (decide (r = r1)) as [->|Hne].
  - by rewrite moved_world_heap_same.
  - by rewrite moved_world_heap_other.
Qed.

Lemma points_collectDiamond e : points (collectDiamond e) = points e.
Proof. by_entity e. Qed.

Lemma heap_removeEntity w x y : heap (removeEntity w x y).2 = heap w.
Proof.
  unfold removeEntity, setEntity. by destruct (isValidPosition (gameGrid w) x y).
Qed.

Lemma points_resetAnimation e : points (resetAnimation e) = points e.
Proof. done. Qed.

Lemma executePlayerMove_collects_nothing w player x y :
  diamondCollected (GameLogic.executePlayerMove w player x y).1 = None.
Proof.
  unfold GameLogic.executePlayerMove. by destruct (moveEntity w _ _ x y).
Qed.

(** A move reports a collected diamond only when the target cell held one,
    and then reports that diamond's points. *)
Lemma movePlayer_collects w dir :
  truthy (diamondCollected (GameLogic.movePlayer w dir).1) = true →
  ∃ x y diamond,
    getEntity (gameGrid w) x y = Some diamond
    ∧ type (heap w diamond) = DIAMOND
    ∧ scoreChange (GameLogic.movePlayer w dir).1 = points (heap w diamond).
Proof.
  unfold GameLogic.movePlayer.
  destruct (findEntityByType w PLAYER) as [player|]; [|done].
  destruct (alive (heap w player)); cbn [negb]; [|done].
  destruct (GameLogic.getDirectionVector dir) as [dx dy].
  set (newX := ent_x (heap w player) + dx).
  set (newY := ent_y (heap w player) + dy).
  destruct (isValidPosition (gameGrid w) newX newY); cbn [negb]; [|done].
  destruct (getEntity (gameGrid w) newX newY) as [target|] eqn:Htarget;
    [|by rewrite executePlayerMove_collects_nothing].
  destruct (type (heap w target)) eqn:Htype; try done.
  - unfold GameLogic.handleBoulderPush.
    destruct (bool_decide (dir = UP) || bool_decide (dir = DOWN)); [done|].
    destruct (GameLogic.getDirectionVector dir) as [dx' dy'].
    destruct (isValidPosition (gameGrid w) (newX + dx') (newY + dy'));
      cbn [negb]; [|done].
    destruct (getEntity (gameGrid w) (newX + dx') (newY + dy')); [done|].
    destruct (moveEntity w newX newY _ _) as [ok w1].
    destruct ok; cbn [negb]; [|done].
    by rewrite executePlayerMove_collects_nothing.
  - intros _. exists newX, newY, target. split; [done|]. split; [done|].
    unfold GameLogic.handleDiamondCollection.
    match goal with
    | |- context [GameLogic.executePlayerMove ?w2 player newX newY] =>
        pose proof (points_moveEntity w2 (ent_x (heap w2 player))
                      (ent_y (heap w2 player)) newX newY target) as Hpts;
        unfold GameLogic.executePlayerMove;
        destruct (moveEntity w2 (ent_x (heap w2 player))
                    (ent_y (heap w2 player)) newX newY) as [ok w3]
    end.
    cbn [fst snd scoreChange] in *. rewrite Hpts, heap_removeEntity.
    cbn [heap]. destruct (decide (target = player)) as [->|Hne].
    + by rewrite mutate_same, points_collectDiamond.
    + by rewrite mutate_other.
  - unfold GameLogic.handleDirtMovement.
    by rewrite executePlayerMove_collects_nothing.
  - unfold GameLogic.handleExitMovement.
    destruct (num_lt _ _); [done|]. by destruct (solid (heap w target)).
Qed.

Lemma processMovement_score d e :
  score (state (GameEngine.processMovement d e)) = score (state e)
  ∨ ∃ x y diamond,
      getEntity (gameGrid (GameEngine.getGrid e)) x y = Some diamond
      ∧ type (heap (GameEngine.getGrid e) diamond) = DIAMOND
      ∧ score (state (GameEngine.processMovement d e))
        = score (state e)
          + GameEngine.scoreChange_or_10
              (points (heap (GameEngine.getGrid e) diamond)).
Proof.
  pose proof (movePlayer_reports_no_death (GameEngine.getGrid e) d) as Hdied.
  pose proof (movePlayer_collects (GameEngine.getGrid e) d) as Hcollect.
  unfold GameEngine.processMovement.
  destruct (GameLogic.movePlayer (GameEngine.getGrid e) d) as [result w1].
  cbn [fst] in Hdied, Hcollect. rewrite Hdied. cbn [truthy]. cbv zeta.
  destruct (success result); [|by left].
  destruct (truthy (diamondCollected result)).
  - right. destruct (Hcollect eq_refl) as (x & y & diamond & Hc & Ht & ->).
    exists x, y, diamond. split; [done|]. split; [done|].
    destruct (truthy (levelComplete result));
      match goal with
      | |- context [findEntityByType ?w PLAYER] =>
          by destruct (findEntityByType w PLAYER), (findEntityByType w EXIT)
      end.
  - left. by destruct (truthy (levelComplete result)).
Qed.

Lemma countDown_score dt e :
  score (state (GameEngine.countDown dt e)) = score (state e).
Proof.
  unfold GameEngine.countDown. cbv zeta.
  match goal with |- context [if ?b then _ else _] => destruct b end; [|done].
  unfold GameEngine.handleTimeUp. cbv zeta.
  cbn [GameEngine.with_state state GameEngine.set_timeRemaining
       GameEngine.set_lives lives].
  by destruct (0 <? lives (state e) - 1).
Qed.

(** X25.  One call of [update] changes the score in one way only: when the
    turn's move collects a diamond of the grid, by that diamond's points
    (by 10 when the diamond carries none or zero).  Deaths, physics, the
    clock and the completion of the level leave the score alone. *)
Theorem score_changes_only_by_a_collected_diamond
    (deltaTime : Q) (e : Engine) :
  let w := GameEngine.getGrid e in
  let e' := GameEngine.update deltaTime e in
  score (state e') = score (state e)
  ∨ ∃ x y diamond,
      getEntity (gameGrid w) x y = Some diamond
      ∧ type (heap w diamond) = DIAMOND
      ∧ score (state e')
        = score (state e) + GameEngine.scoreChange_or_10 (points (heap w diamond)).
Proof.
  intros w e'. subst w e'. unfold GameEngine.update.
  destruct (negb (isPlaying (state e)) || isPaused (state e)); [by left|].
  rewrite countDown_score.
  unfold GameEngine.advanceTurn. cbn [GameEngine.Date_now]. cbv zeta.
  match goal with |- context [if ?b then _ else _] => destruct b end;
    [|by left].
  match goal with
  | |- context [GameEngine.processTurn ?e0] => set (e2 := e0)
  end.
  assert (Hscore2 : score (state e2) = score (state e)) by done.
  assert (Hgrid2 : GameEngine.getGrid e2 = GameEngine.getGrid e) by done.
  cbn [GameEngine.with_state state GameEngine.set_turnProgress
       GameEngine.set_currentTurn GameEngine.set_lastTurnTime score].
  rewrite <- Hscore2, <- Hgrid2. clearbody e2. clear Hscore2 Hgrid2.
  unfold GameEngine.processTurn.
  set (e1 := GameEngine.resetAllEntityAnimations e2).
  assert (Hscore1 : score (state e1) = score (state e2)) by done.
  assert (Hgrid1 : gameGrid (GameEngine.getGrid e1)
                   = gameGrid (GameEngine.getGrid e2)) by done.
  pose proof (resetAllEntityAnimations_either e2) as Hheap1. fold e1 in Hheap1.
  pose proof (determinePlayerAction_state e1) as Hstate.
  destruct (GameEngine.determinePlayerAction e1) as [action e3].
  cbn [snd] in Hstate.
  assert (Hend : ∀ e4,
    score (state
      (let '(_, e6) :=
         GameEngine.Date_now
           (GameEngine.checkGameConditions (GameEngine.updatePhysics e4)) in
       e6)) = score (state e4)).
  { intros e4. cbn [GameEngine.Date_now state].
    destruct (checkGameConditions_lives (GameEngine.updatePhysics e4))
      as (_ & -> & _).
    by destruct (updatePhysics_lives e4) as [_ ->]. }
  assert (Hturn : ∀ e4,
    score (state
      (let '(currentTime, e6) :=
         GameEngine.Date_now
           (GameEngine.checkGameConditions (GameEngine.updatePhysics e4)) in
       if GameEngine.TURN_DURATION_MS <? currentTime - lastPressTime (state e6)
       then GameEngine.with_state (GameEngine.set_lastPressedDirection None) e6
       else e6)) = score (state e4)).
  { intros e4. rewrite <- (Hend e4). cbn [GameEngine.Date_now].
    by match goal with |- context [if ?b then _ else _] => destruct b end. }
  rewrite Hturn. destruct action as [d|]; [|left; congruence].
  destruct (processMovement_score d e3) as [->|(x & y & diamond & Hc & Ht & ->)];
    [left; congruence|].
  right. exists x, y, diamond.
  unfold GameEngine.getGrid in *. rewrite Hstate in *.
  rewrite Hgrid1 in Hc. split; [done|].
  destruct (Hheap1 diamond) as [Hsame|Hsame]; rewrite Hsame in *.
  - split; [done|congruence].
  - rewrite points_resetAnimation. split; [done|congruence].
Qed.

(** ** The turn scheduler keeps the level well formed *)

Lemma well_formed_resetAllEntityAnimations e :
  well_formed (GameEngine.getGrid e) →
  well_formed (GameEngine.getGrid (GameEngine.resetAllEntityAnimations e)).
Proof.
  intros [[Hwf Hplaced] Hclass].
  pose proof (resetAllEntityAnimations_either e) as Heither.
  assert (Hgrid : gameGrid (GameEngine.getGrid
                              (GameEngine.resetAllEntityAnimations e))
                  = gameGrid (GameEngine.getGrid e)) by reflexivity.
  split; [split|].
  - by rewrite Hgrid.
  - intros x y r Hc Hrock. rewrite Hgrid in Hc.
    destruct (Heither r) as [Hr|Hr]; rewrite Hr in *; by apply Hplaced.
  - intros r. destruct (Heither r) as [->| ->]; apply (Hclass r).
Qed.

Lemma class_ok_checkOpenCondition c e :
  class_ok e → class_ok (checkOpenCondition c e).
Proof.
  unfold checkOpenCondition. case_match; [|done].
  unfold class_ok. by destruct e as [? ? [] ? ? ? ? ? ? ? []].
Qed.

Lemma type_checkOpenCondition c e : type (checkOpenCondition c e) = type e.
Proof. unfold checkOpenCondition. by case_match. Qed.

Lemma handlePlayerDeath_grid e :
  GameEngine.getGrid (GameEngine.handlePlayerDeath e) = GameEngine.getGrid e
  ∨ GameEngine.getGrid (GameEngine.handlePlayerDeath e)
    = lv_world (Level.new (levelData (state e))).
Proof.
  unfold GameEngine.handlePlayerDeath. cbv zeta.
  match goal with |- context [if ?b then _ else _] => destruct b end;
    [by left|by right].
Qed.

Lemma well_formed_processMovement d e :
  well_formed (GameEngine.getGrid e) →
  well_formed (GameEngine.getGrid (GameEngine.processMovement d e)).
Proof.
  intros Hw.
  pose proof (movePlayer_reports_no_death (GameEngine.getGrid e) d) as Hdied.
  pose proof (well_formed_movePlayer (GameEngine.getGrid e) d Hw) as Hw1.
  unfold GameEngine.processMovement.
  destruct (GameLogic.movePlayer (GameEngine.getGrid e) d) as [result w1].
  cbn [fst snd] in Hdied, Hw1. rewrite Hdied. cbn [truthy]. cbv zeta.
  destruct (success result); [|done].
  assert (Hdone : ∀ e2,
    well_formed (GameEngine.getGrid e2) →
    well_formed
      (GameEngine.getGrid
         (if truthy (levelComplete result)
          then GameEngine.emitEvent "LEVEL_COMPLETE"
                 (LevelCompleteData
                    (score (state (GameEngine.with_state
                                     (GameEngine.set_isPlaying false) e2)))
                    (timeRemaining
                       (state (GameEngine.with_state
                                 (GameEngine.set_isPlaying false) e2))))
                 (GameEngine.with_state (GameEngine.set_isPlaying false) e2)
          else e2))).
  { intros e2 H2. by destruct (truthy (levelComplete result)). }
  apply Hdone. destruct (truthy (diamondCollected result)); [|done].
  match goal with
  | |- context [findEntityByType ?w PLAYER] =>
      change w with w1;
      destruct (findEntityByType w1 PLAYER) as [player|]; [|done];
      destruct (findEntityByType w1 EXIT) as [exit|] eqn:Hexit; [|done]
  end.
  destruct (findEntityByType_Some _ _ _ Hexit) as [Htype _].
  apply (well_formed_mutate w1); [done|..].
  - apply class_ok_checkOpenCondition, Hw1.
  - unfold is_rock. rewrite type_checkOpenCondition, Htype. by intros [?|?].
Qed.

Lemma well_formed_engine_updatePhysics e :
  well_formed (GameEngine.getGrid e) →
  well_formed (GameEngine.getGrid (GameEngine.updatePhysics e)).
Proof.
  intros Hw.
  pose proof (well_formed_updatePhysics (GameEngine.getGrid e) Hw) as Hw1.
  unfold GameEngine.updatePhysics.
  destruct (GameLogic.updatePhysics (GameEngine.getGrid e)) as [result w1].
  cbn [snd] in Hw1. destruct (physPlayerDied result); [|done].
  destruct (handlePlayerDeath_grid
              (GameEngine.with_state (GameEngine.set_world w1) e)) as [-> | ->];
    [done|apply loaded_well_formed].
Qed.

Lemma checkGameConditions_grid e :
  GameEngine.getGrid (GameEngine.checkGameConditions e) = GameEngine.getGrid e.
Proof.
  unfold GameEngine.checkGameConditions. cbv zeta.
  destruct (GameLogic.checkLevelComplete (GameEngine.getGrid e));
    match goal with |- context [if ?b then _ else _] => by destruct b end.
Qed.

Lemma countDown_grid dt e :
  GameEngine.getGrid (GameEngine.countDown dt e) = GameEngine.getGrid e.
Proof.
  unfold GameEngine.countDown. cbv zeta.
  match goal with |- context [if ?b then _ else _] => destruct b end; [|done].
  unfold GameEngine.handleTimeUp. cbv zeta.
  by match goal with |- context [if ?b then _ else _] => destruct b end.
Qed.

Lemma well_formed_processTurn e :
  well_formed (GameEngine.getGrid e) →
  well_formed (GameEngine.getGrid (GameEngine.processTurn e)).
Proof.
  intros Hw. unfold GameEngine.processTurn.
  pose proof (well_formed_resetAllEntityAnimations e Hw) as H1.
  pose proof (determinePlayerAction_state
                (GameEngine.resetAllEntityAnimations e)) as H2.
  destruct (GameEngine.determinePlayerAction
              (GameEngine.resetAllEntityAnimations e)) as [action e2].
  cbn [snd] in H2.
  assert (Hw2 : well_formed (GameEngine.getGrid e2)).
  { unfold GameEngine.getGrid in *. by rewrite H2. }
  set (e3 := match action with
             | Some d => GameEngine.processMovement d e2
             | None => e2
             end).
  assert (Hw3 : well_formed (GameEngine.getGrid e3)).
  { subst e3. destruct action; [by apply well_formed_processMovement|done]. }
  pose proof (well_formed_engine_updatePhysics e3 Hw3) as Hw4.
  rewrite <- checkGameConditions_grid in Hw4.
  cbn [GameEngine.Date_now].
  by match goal with |- context [if ?b then _ else _] => destruct b end.
Qed.

(** X26.  A call of [update] keeps the level well formed: the grid keeps its
    shape, every boulder and diamond of the grid stores the coordinates of
    its cell and every object is of the class its type names, through the
    animation reset, the move, the opening of the exit, the physics turn
    and the reload of the level after a death. *)
Theorem update_keeps_the_level_well_formed (deltaTime : Q) (e : Engine) :
  well_formed (GameEngine.getGrid e) →
  well_formed (GameEngine.getGrid (GameEngine.update deltaTime e)).
Proof.
  intros Hw. unfold GameEngine.update.
  destruct (negb (isPlaying (state e)) || isPaused (state e)); [done|].
  rewrite countDown_grid.
  unfold GameEngine.advanceTurn. cbn [GameEngine.Date_now]. cbv zeta.
  match goal with |- context [if ?b then _ else _] => destruct b end; [|done].
  match goal with
  | |- context [GameEngine.processTurn ?e0] =>
      by apply (well_formed_processTurn e0)
  end.
Qed.


Lemma update_keeps_witness :
  well_formed
    (GameEngine.getGrid
       (GameEngine.update (1 # 60)
          (GameEngine.new (Level.new small_level) small_level
                          (λ n, 200 * Z.of_nat n)))).
Proof.
  apply update_keeps_the_level_well_formed.
  exact (loaded_well_formed small_level).
Defined.

(** ** The turn scheduler: collecting a diamond *)

(** The search sees the cells through their type tests only. *)
Lemma findEntityByType_cells w w' t :
  getDimensions (gameGrid w') = getDimensions (gameGrid w) →
  (∀ x y, has_type (heap w') t (getEntity (gameGrid w') x y)
          = has_type (heap w) t (getEntity (gameGrid w) x y)) →
  findEntityByType w' t = findEntityByType w t.
Proof.
  intros Hdim Hcells. unfold findEntityByType.
  assert (Hrows : rowMajor (gameGrid w') = rowMajor (gameGrid w)).
  { unfold rowMajor. injection Hdim as Hw Hh. by rewrite Hw, Hh. }
  rewrite Hrows. f_equal.
  apply list_omap_ext, Forall2_same_length_lookup. split; [done|].
  intros i [x y] q Hp Hq. simplify_eq. cbn [fst snd].
  apply list_elem_of_lookup_2 in Hp as Hin.
  assert (Hin' : (x, y) ∈ rowMajor (gameGrid w')) by (by rewrite Hrows).
  apply elem_of_rowMajor, isValidPosition_spec in Hin, Hin'.
  specialize (Hcells x y). unfold getEntity in Hcells.
  by rewrite Hin, Hin' in Hcells.
Qed.

Lemma fields_collectDiamond e a n :
  fields e = PlayerFields a n →
  fields (collectDiamond e) = PlayerFields a (n + 1).
Proof. unfold collectDiamond. by intros ->. Qed.

(** X27.  Collecting a diamond in a turn: the score rises by the diamond's
    points, DIAMOND_COLLECTED is emitted with the new score and the new
    count, and the exit is asked to open with the new count in the same
    call, so the diamond that fills the quota opens the exit, and one
    short of the quota leaves the exit as it was.  Lives
    and the playing flag are untouched. *)
Theorem collecting_the_last_diamond_opens_the_exit
    (e : Engine) (dir : Direction) (player diamond exit : ref)
    (n quota : Z) (opened : bool) :
  let w := GameEngine.getGrid e in
  grid_wf (gameGrid w) →
  player_at_home w player →
  only_player w player →
  Level.getPlayer (level (state e)) = Some player →
  fields (heap w player) = PlayerFields true n →
  getEntity (gameGrid w) (target_of w player dir).1 (target_of w player dir).2
    = Some diamond →
  type (heap w diamond) = DIAMOND →
  findEntityByType w EXIT = Some exit →
  fields (heap w exit) = ExitFields opened quota →
  let e' := GameEngine.processMovement dir e in
  let w' := GameEngine.getGrid e' in
  score (state e')
  = score (state e) + GameEngine.scoreChange_or_10 (points (heap w diamond))
  ∧ emitted e'
    = emitted e
      ++ [mkGameEvent "DIAMOND_COLLECTED"
            (DiamondCollectedData (score (state e')) (n + 1))
            (clock e (reads e))]
  ∧ diamondsCollected (heap w' player) = Some (n + 1)
  ∧ heap w' exit = checkOpenCondition (Some (n + 1)) (heap w exit)
  ∧ (quota ≤ n + 1 → isOpen (heap w' exit) = true)
  ∧ (n + 1 < quota → heap w' exit = heap w exit)
  ∧ lives (state e') = lives (state e)
  ∧ isPlaying (state e') = isPlaying (state e).
Proof.
  intros w Hwf Hhome Honly Hcached Hfields Htarget Htype Hexit Hquota e' w'.
  subst e' w'.
  destruct (target_of w player dir) as [tx ty] eqn:Ht. cbn [fst snd] in Htarget.
  destruct (stored w player) as [px py] eqn:Hpos.
  pose proof Hhome as [Hfind Hcell].
  destruct (findEntityByType_Some _ _ _ Hfind) as [Hptype _].
  destruct (findEntityByType_Some_first _ _ _ Hexit) as (ex & ey & Hecell & Hetype & _).
  pose proof (getEntity_Some_valid _ _ _ _ Htarget) as Hvt.
  pose proof (home_valid w player px py Hhome Hpos) as Hvp.
  pose proof (home_cell w player px py Hhome Hpos) as Hhc.
  pose proof (target_is_not_home w dir player px py tx ty Hpos Ht) as Hnz.
  assert (Hne1 : exit ≠ player) by (intros ->; congruence).
  assert (Hne2 : diamond ≠ player) by (intros ->; congruence).
  assert (Halive : alive (heap w player) = true).
  { unfold alive. by rewrite Hfields. }
  set (w0 := {| heap := mutate collectDiamond player (heap w);
                gameGrid := write_cell (gameGrid w) tx ty None |}).
  set (w1 := moved_world w0 player px py tx ty).
  assert (Hmove : GameLogic.movePlayer w dir
                  = ({| success := true; diamondCollected := Some true;
                        playerDied := None; levelComplete := None;
                        scoreChange := points (heap w diamond) |}, w1)).
  { rewrite (movePlayer_at _ _ _ Hfind), Halive, Ht. cbn [negb fst snd].
    rewrite Hvt, Htarget, Htype. cbn [negb].
    by erewrite enter_diamond by (try done; reflexivity). }
  assert (Hwf0 : grid_wf (gameGrid w0)) by (by apply write_cell_wf).
  assert (Hp1 : findEntityByType w1 PLAYER = Some player).
  { apply (at_home_after_entering w0 player px py tx ty); try done.
    - unfold w0. cbn [heap]. by rewrite mutate_same, type_collectDiamond.
    - intros x y r Hn1 Hn2 Hc Hty. unfold w0 in Hc, Hty.
      cbn [gameGrid heap] in Hc, Hty.
      rewrite getEntity_write_cell in Hc by done.
      rewrite decide_False in Hc by done.
      destruct (decide (r = player)) as [|Hne]; [done|].
      rewrite mutate_other in Hty by done. by apply (Honly x y). }
  assert (Hheap1 : ∀ r, r ≠ player → heap w1 r = heap w r).
  { intros r Hr. unfold w1. rewrite moved_world_heap_other by done.
    unfold w0. cbn [heap]. by rewrite mutate_other. }
  assert (Hplayer1 : heap w1 player
                     = setPosition tx ty (collectDiamond (heap w player))).
  { unfold w1. rewrite moved_world_heap_same. unfold w0. cbn [heap].
    by rewrite mutate_same. }
  assert (Hcells1 : ∀ x y,
    getEntity (gameGrid w1) x y
    = if decide ((x, y) = (tx, ty)) then Some player
      else if decide ((x, y) = (px, py)) then None
      else getEntity (gameGrid w) x y).
  { intros x y. unfold w1. rewrite moved_world_getEntity by done.
    case_decide; [done|]. case_decide; [done|].
    change (gameGrid w0) with (write_cell (gameGrid w) tx ty None).
    rewrite getEntity_write_cell by done. by rewrite decide_False. }
  assert (He1 : findEntityByType w1 EXIT = Some exit).
  { rewrite <- Hexit. apply findEntityByType_cells; [done|].
    intros x y. rewrite Hcells1.
    case_decide as Hxy.
    { injection Hxy as -> ->. rewrite Htarget. unfold has_type.
      rewrite Hplayer1, type_setPosition, type_collectDiamond, Hptype, Htype.
      by rewrite !decide_False. }
    case_decide as Hxy'.
    { injection Hxy' as -> ->. rewrite Hhc. unfold has_type.
      rewrite Hptype. by rewrite decide_False. }
    destruct (getEntity (gameGrid w) x y) as [r|] eqn:Hc; [|done].
    unfold has_type. destruct (decide (r = player)) as [->|Hr].
    - rewrite Hplayer1, type_setPosition, type_collectDiamond. done.
    - by rewrite Hheap1. }
  assert (Hcount : diamondsCollected (heap w1 player) = Some (n + 1)).
  { rewrite Hplayer1. unfold diamondsCollected. rewrite fields_setPosition.
    by rewrite (fields_collectDiamond _ true n). }
  unfold GameEngine.processMovement. fold w. rewrite Hmove.
  cbn [success diamondCollected playerDied levelComplete scoreChange truthy].
  cbv zeta.
  cbn [GameEngine.emitEvent GameEngine.Date_now GameEngine.with_state state
       emitted clock reads GameEngine.getGrid GameEngine.set_world
       GameEngine.set_score GameEngine.set_level level lv_world score].
  rewrite Hp1, He1.
  cbn [GameEngine.with_state state emitted GameEngine.set_world
       GameEngine.set_level GameEngine.set_score level lv_world score lives
       isPlaying heap].
  unfold GameEngine.totalDiamonds.
  cbn [GameEngine.with_state state GameEngine.getGrid GameEngine.set_world
       GameEngine.set_level GameEngine.set_score level lv_world lv_player heap].
  unfold Level.getPlayer in Hcached. rewrite Hcached, Hcount. cbn [or_zero].
  split; [done|]. split; [done|].
  rewrite mutate_same, (mutate_other _ _ _ player) by done.
  rewrite Hcount, (Hheap1 exit Hne1).
  split; [done|]. split; [done|].
  unfold checkOpenCondition, diamondsRequired, isOpen. rewrite Hquota.
  cbn [num_ge]. split; [|split; [|done]].
  - intros Hq. rewrite (proj2 (Z.leb_le _ _) Hq). cbn [andb].
    destruct opened; cbn [negb open fields]; by rewrite Hquota.
  - intros Hq. by rewrite (proj2 (Z.leb_gt _ _) Hq).
Qed.

Lemma last_diamond_only_player :
  only_player (lv_world (Level.new last_diamond)) 0%nat.
Proof.
  intros x y r Hc Ht.
  pose proof (getEntity_Some_valid _ _ _ _ Hc) as Hv.
  apply isValidPosition_spec in Hv.
  change (width (gameGrid (lv_world (Level.new last_diamond)))) with 3 in Hv.
  change (height (gameGrid (lv_world (Level.new last_diamond)))) with 1 in Hv.
  assert (Hx : x = 0 ∨ x = 1 ∨ x = 2) by lia.
  assert (Hy : y = 0) by lia.
  destruct Hx as [-> | [-> | ->]]; subst y;
    vm_compute in Hc; simplify_eq; vm_compute in Ht; congruence.
Qed.

Lemma collecting_the_last_diamond_witness :
  isOpen (heap (GameEngine.getGrid
                  (GameEngine.processMovement RIGHT
                     (GameEngine.new (Level.new last_diamond) last_diamond
                                     (λ n, 200 * Z.of_nat n)))) 2%nat) = true
  ∧ score (state (GameEngine.processMovement RIGHT
                    (GameEngine.new (Level.new last_diamond) last_diamond
                                    (λ n, 200 * Z.of_nat n)))) = 10.
Proof.
  destruct (collecting_the_last_diamond_opens_the_exit
              (GameEngine.new (Level.new last_diamond) last_diamond
                              (λ n, 200 * Z.of_nat n))
              RIGHT 0%nat 1%nat 2%nat 0 1 false)
    as (Hscore & _ & _ & _ & Hopen & _).
  - apply (loaded_well_formed last_diamond).
  - split; vm_compute; reflexivity.
  - apply last_diamond_only_player.
  - vm_compute; reflexivity.
  - vm_compute; reflexivity.
  - vm_compute; reflexivity.
  - vm_compute; reflexivity.
  - vm_compute; reflexivity.
  - vm_compute; reflexivity.
  - split; [apply Hopen; lia|]. rewrite Hscore. vm_compute. reflexivity.
Defined.

(** ** The turn scheduler: the end of the game *)

(** X28.  When the physics turn kills the player and no life is left, the
    rest of the turn reports the end twice: [handlePlayerDeath] emits
    PLAYER_DIED and GAME_OVER, and [checkGameConditions], which finds the
    lives used up, emits GAME_OVER again (after LEVEL_COMPLETE, should the
    level be complete).  The level is not reloaded, and the engine stops
    playing. *)
Theorem fatal_rock_reports_game_over_twice (e : Engine) :
  let phys := GameLogic.updatePhysics (GameEngine.getGrid e) in
  let e' := GameEngine.checkGameConditions (GameEngine.updatePhysics e) in
  let complete := GameLogic.checkLevelComplete phys.2 in
  lives (state e) ≤ 1 →
  physPlayerDied phys.1 = true →
  emitted e'
  = emitted e
    ++ [mkGameEvent "PLAYER_DIED"
          (PlayerDiedData (lives (state e) - 1) (score (state e)))
          (clock e (reads e));
        mkGameEvent "GAME_OVER" (GameOverData None (score (state e)))
          (clock e (S (reads e)))]
    ++ (if complete
        then [mkGameEvent "LEVEL_COMPLETE"
                (LevelCompleteData (score (state e)) (timeRemaining (state e)))
                (clock e (S (S (reads e))))]
        else [])
    ++ [mkGameEvent "GAME_OVER" (GameOverData None (score (state e)))
          (clock e (if complete then S (S (S (reads e))) else S (S (reads e))))]
  ∧ isPlaying (state e') = false
  ∧ lives (state e') = lives (state e) - 1
  ∧ GameEngine.getGrid e' = phys.2.
Proof.
  intros phys e' complete Hlives Hdied. subst e' complete phys.
  unfold GameEngine.updatePhysics.
  destruct (GameLogic.updatePhysics (GameEngine.getGrid e)) as [result w1].
  cbn [fst snd] in *. rewrite Hdied.
  unfold GameEngine.handlePlayerDeath. cbv zeta.
  cbn [GameEngine.emitEvent GameEngine.Date_now GameEngine.with_state state
       GameEngine.set_lives GameEngine.set_world GameEngine.set_level lives].
  rewrite (proj2 (Z.leb_le (lives (state e) - 1) 0)) by lia.
  unfold GameEngine.checkGameConditions. cbv zeta.
  cbn [GameEngine.emitEvent GameEngine.Date_now GameEngine.with_state state
       emitted clock reads GameEngine.getGrid GameEngine.set_isPlaying
       GameEngine.set_lives GameEngine.set_world GameEngine.set_level
       level lv_world lives score timeRemaining].
  destruct (GameLogic.checkLevelComplete w1);
    cbn [GameEngine.emitEvent GameEngine.Date_now GameEngine.with_state state
         emitted clock reads GameEngine.getGrid GameEngine.set_isPlaying
         GameEngine.set_lives GameEngine.set_world GameEngine.set_level
         level lv_world lives score timeRemaining isPlaying];
    rewrite (proj2 (Z.leb_le (lives (state e) - 1) 0)) by lia;
    cbn [GameEngine.emitEvent GameEngine.Date_now GameEngine.with_state state
         emitted clock reads GameEngine.getGrid GameEngine.set_isPlaying
         GameEngine.set_lives GameEngine.set_world GameEngine.set_level
         level lv_world lives score timeRemaining isPlaying];
    rewrite <- ?app_assoc; done.
Qed.

Lemma fatal_rock_witness :
  ev_type <$> emitted (GameEngine.checkGameConditions
                         (GameEngine.updatePhysics last_life))
  = ["PLAYER_DIED"; "GAME_OVER"; "GAME_OVER"]
  ∧ isPlaying (state (GameEngine.checkGameConditions
                        (GameEngine.updatePhysics last_life))) = false.
Proof.
  destruct (fatal_rock_reports_game_over_twice last_life)
    as (Hev & Hplaying & _).
  - vm_compute. congruence.
  - vm_compute. reflexivity.
  - split; [|exact Hplaying]. rewrite Hev. vm_compute. reflexivity.
Defined.

(** ** The turn scheduler: input *)

(** X29.  [handleInput] applies the pause, then the reset, then the
    direction.  A reset restores score, lives, clock and flags but never
    touches the level: the grid and its objects stay, so a dead player is
    still refused every move.  The direction is recorded only if the game
    is playing and not paused after the pause and the reset have been
    applied: an input that pauses drops its direction, one that resumes or
    resets records it. *)
Theorem handleInput_pauses_resets_then_records
    (input : GameInput) (e : Engine) :
  let e' := GameEngine.handleInput input e in
  let pause := truthy (gi_pause input) in
  let reset := truthy (gi_reset input) in
  level (state e') = level (state e)
  ∧ levelData (state e') = levelData (state e)
  ∧ isPaused (state e')
    = (if reset then false
       else if pause then negb (isPaused (state e)) else isPaused (state e))
  ∧ isPlaying (state e') = (if reset then true else isPlaying (state e))
  ∧ score (state e') = (if reset then 0 else score (state e))
  ∧ lives (state e') = (if reset then 3 else lives (state e))
  ∧ timeRemaining (state e')
    = (if reset then Level.getTimeLimit (level (state e))
       else timeRemaining (state e))
  ∧ ev_type <$> drop (length (emitted e)) (emitted e')
    = (if pause then ["PAUSE_TOGGLED"] else [])
      ++ (if reset then ["GAME_RESET"] else [])
  ∧ lastPressedDirection (state e')
    = match gi_direction input with
      | Some d =>
          if isPlaying (state e') && negb (isPaused (state e')) then Some d
          else if reset then None else lastPressedDirection (state e)
      | None => if reset then None else lastPressedDirection (state e)
      end
  ∧ ∀ player dir,
      findEntityByType (GameEngine.getGrid e) PLAYER = Some player →
      alive (heap (GameEngine.getGrid e) player) = false →
      GameLogic.movePlayer (GameEngine.getGrid e') dir
      = (result_of false, GameEngine.getGrid e').
Proof.
  intros e' pause reset. subst e' pause reset.
  assert (Hlevel : level (state (GameEngine.handleInput input e))
                   = level (state e)).
  { unfold GameEngine.handleInput, GameEngine.togglePause,
      GameEngine.resetGame. cbv zeta.
    destruct (truthy (gi_pause input)), (truthy (gi_reset input)),
      (gi_direction input) as [d|]; try reflexivity;
      cbn [GameEngine.emitEvent GameEngine.Date_now GameEngine.with_state
           state];
      match goal with
      | |- context [if ?b then _ else _] => by destruct b
      end. }
  split; [exact Hlevel|].
  split.
  { unfold GameEngine.handleInput, GameEngine.togglePause,
      GameEngine.resetGame. cbv zeta.
    destruct (truthy (gi_pause input)), (truthy (gi_reset input)),
      (gi_direction input) as [d|]; try reflexivity;
      cbn [GameEngine.emitEvent GameEngine.Date_now GameEngine.with_state
           state];
      match goal with
      | |- context [if ?b then _ else _] => by destruct b
      end. }
  clear Hlevel.
  unfold GameEngine.handleInput, GameEngine.togglePause, GameEngine.resetGame.
  cbv zeta.
  destruct (truthy (gi_pause input)), (truthy (gi_reset input)),
    (gi_direction input) as [d|];
    cbn [GameEngine.emitEvent GameEngine.Date_now GameEngine.with_state state
         emitted isPlaying isPaused GameEngine.set_isPaused
         GameEngine.set_isPlaying GameEngine.set_currentTurn
         GameEngine.set_gameMessage GameEngine.set_timeRemaining
         GameEngine.set_lives GameEngine.set_score
         GameEngine.set_lastPressTime GameEngine.set_lastPressedDirection
         GameEngine.set_currentlyPressedDirection GameEngine.set_turnProgress
         GameEngine.set_lastTurnTime andb negb];
    try (destruct (isPlaying (state e)) eqn:Hplaying);
    try (destruct (isPaused (state e)) eqn:Hpaused);
    cbn [GameEngine.emitEvent GameEngine.Date_now GameEngine.with_state state
         emitted isPlaying isPaused score lives timeRemaining level
         lastPressedDirection GameEngine.getGrid
         GameEngine.set_isPaused
         GameEngine.set_isPlaying GameEngine.set_currentTurn
         GameEngine.set_gameMessage GameEngine.set_timeRemaining
         GameEngine.set_lives GameEngine.set_score
         GameEngine.set_lastPressTime GameEngine.set_lastPressedDirection
         GameEngine.set_currentlyPressedDirection GameEngine.set_turnProgress
         GameEngine.set_lastTurnTime andb negb];
    rewrite ?Hplaying, ?Hpaused, <- ?app_assoc, ?drop_app_length, ?drop_all;
    (repeat (split; [reflexivity|]));
    intros player dir Hfind Hdead; unfold GameEngine.getGrid in *;
    cbn [GameEngine.with_state state level GameEngine.set_isPaused
         GameEngine.set_isPlaying GameEngine.set_currentTurn
         GameEngine.set_gameMessage GameEngine.set_timeRemaining
         GameEngine.set_lives GameEngine.set_score
         GameEngine.set_lastPressTime GameEngine.set_lastPressedDirection
         GameEngine.set_currentlyPressedDirection GameEngine.set_turnProgress
         GameEngine.set_lastTurnTime];
    unfold GameLogic.movePlayer; by rewrite Hfind, Hdead.
Qed.


(** X30.  A tap is buffered for one turn length: a direction given to
    [handleInput] while the game runs is stored with the time of the tap,
    and with no key held the next turn acts on it exactly when it starts
    at most 200 ms after the tap; a key that is held when the turn starts
    wins over the buffered tap. *)
Theorem tapped_direction_is_buffered (d : Direction) (e : Engine) :
  isPlaying (state e) = true →
  isPaused (state e) = false →
  let e1 := GameEngine.handleInput (mkGameInput (Some d) None None) e in
  let tap := clock e (reads e) in
  let turnStart := clock e (S (reads e)) in
  lastPressedDirection (state e1) = Some d
  ∧ lastPressTime (state e1) = tap
  ∧ currentlyPressedDirection (state e1) = currentlyPressedDirection (state e)
  ∧ (currentlyPressedDirection (state e) = None →
     (GameEngine.determinePlayerAction e1).1
     = if turnStart - tap <=? GameEngine.TURN_DURATION_MS then Some d else None)
  ∧ ∀ held,
      (GameEngine.determinePlayerAction
         (GameEngine.setCurrentlyPressed (Some held) e1)).1 = Some held.
Proof.
  intros Hplaying Hpaused e1 tap turnStart. subst e1 tap turnStart.
  unfold GameEngine.handleInput. cbn [gi_pause gi_reset gi_direction truthy].
  cbv zeta. rewrite Hplaying, Hpaused. cbn [andb negb].
  cbn [GameEngine.Date_now GameEngine.with_state state clock reads
       GameEngine.set_lastPressedDirection GameEngine.set_lastPressTime
       lastPressedDirection lastPressTime currentlyPressedDirection].
  split; [done|]. split; [done|]. split; [done|]. split.
  - intros Hnone. unfold GameEngine.determinePlayerAction.
    cbn [GameEngine.Date_now GameEngine.with_state state clock reads
         GameEngine.set_lastPressedDirection GameEngine.set_lastPressTime
         lastPressedDirection lastPressTime currentlyPressedDirection].
    rewrite Hnone. by case_match.
  - intros held. reflexivity.
Qed.

Lemma tapped_direction_witness :
  (GameEngine.determinePlayerAction
     (GameEngine.handleInput (mkGameInput (Some LEFT) None None)
        (GameEngine.new (Level.new small_level) small_level
                        (λ n, 200 * Z.of_nat n)))).1 = Some LEFT.
Proof.
  destruct (tapped_direction_is_buffered LEFT
              (GameEngine.new (Level.new small_level) small_level
                              (λ n, 200 * Z.of_nat n)))
    as (_ & _ & _ & Htap & _); [reflexivity..|].
  rewrite Htap; reflexivity.
Defined.
